(** * cleanVm: consistency check and chain consolidation of a VM backup directory

    Shallow embedding of [cleanVm], [checkAliases], [listVhds],
    [mergeVhdChain] and [computeVhdsSize], the module of the backup adapter
    that exports [cleanVm] and [checkAliases], and of the [Tree] component
    that follows it.  Line numbers are those of the source file.

    The storage handler, the VHD codec (vhd-lib), Node's [path] module and
    the file-name predicates of [_backupType.js] are collaborators of the
    embedded code: they appear as the fields of a [World] record, and every
    theorem quantifies over all worlds.  What the embedded code asks of them
    is recorded, in order, in a trace of [Event]s, together with the calls to
    [logWarn] and [logInfo].

    Conventions.
    - A JS [Set] is a duplicate-free list in insertion order, a JS [Map] or
      an object used as a dictionary is an association list in insertion
      order; [undefined] is [None].
    - [asyncMap] starts its callback on every item at once; the order in
      which the callbacks resume after their first [await] is chosen by the
      world ([completion]).
    - A call of a collaborator whose failure the code does not catch is
      assumed to succeed; failures the code catches are outcomes of the
      world.  A metadata record that parses has an object as its [vhds].
    - The progress of a merge, logged every ten seconds, is not part of the
      trace.
    - Paths are ASCII strings, and none is the name of a property that a JS
      object inherits. *)

From Stdlib Require Import String Ascii List ZArith Bool Arith Lia Permutation Sorted.
From Equations Require Import Equations.
Import ListNotations.
Local Open Scope string_scope.
Local Open Scope list_scope.

Definition path := string.

(** ** JS collections *)

Module JsSet.
Definition t := list string.

Definition has (x : string) (s : t) : bool := existsb (String.eqb x) s.

Definition add (x : string) (s : t) : t := if has x s then s else s ++ [x].

Definition delete (x : string) (s : t) : t :=
  filter (fun y => negb (String.eqb x y)) s.
End JsSet.

Module JsMap.
Definition t (V : Type) := list (string * V).

Fixpoint get {V} (k : string) (m : t V) : option V :=
  match m with
  | [] => None
  | (k', v) :: m' => if String.eqb k k' then Some v else get k m'
  end.

Definition has {V} (k : string) (m : t V) : bool :=
  match get k m with Some _ => true | None => false end.

(** An assignment to an existing key keeps the key's position. *)
Fixpoint set {V} (k : string) (v : V) (m : t V) : t V :=
  match m with
  | [] => [(k, v)]
  | (k', v') :: m' =>
      if String.eqb k k' then (k, v) :: m' else (k', v') :: set k v m'
  end.

Definition delete {V} (k : string) (m : t V) : t V :=
  filter (fun kv => negb (String.eqb k (fst kv))) m.

Definition keys {V} (m : t V) : list string := map fst m.

Definition values {V} (m : t V) : list V := map snd m.
End JsMap.

(** A property key made from a value that may be [undefined]. *)
Definition js_key (o : option string) : string :=
  match o with Some s => s | None => "undefined" end.

(** ** The collaborators *)

(** What the code reads of an opened VHD. *)
Record Vhd := mkVhd {
  _path : path;
  footer_diskType : N;
  footer_uuid : string;            (* UUID.stringify(vhd.footer.uuid) *)
  header_parentUnicodeName : string
}.

Inductive JsError :=
| ErrWithCode (code : option string)
| ErrMultipleChildren (parent child1 child2 : path).

(** [error?.code] *)
Definition error_code (e : JsError) : option string :=
  match e with
  | ErrWithCode c => c
  | ErrMultipleChildren _ _ _ => None
  end.

Inductive OpenResult :=
| Opened (footer_diskType : N) (footer_uuid : string) (parentUnicodeName : string)
| OpenFailed (code : option string).

(** [openVhd] as [computeVhdsSize] uses it. *)
Inductive SizeProbe :=
| ProbeFailed                      (* openVhd rejects *)
| ProbeNotVhdFile                  (* e.g. a VhdDirectory *)
| ProbeVhdFile (size : option Z).  (* getSize(), [None] when it rejects *)

Inductive Mode := ModeFull | ModeDelta | ModeOther.

(** A parsed backup metadata record. *)
Record Metadata := mkMetadata {
  mode : Mode;
  size : option Z;
  xva : string;
  md_vhds : list (string * string)
}.

Record World := mkWorld {
  (* storage handler *)
  handler_list : path -> list string;          (* names *)
  handler_list_prepend : path -> list path;    (* prependDir: true *)
  readMetadata : path -> option Metadata;      (* JSON.parse(readFile), None when it throws *)
  getSize : path -> option Z;
  writeFileFails : path -> bool;
  (* _backupType.js and vhd-lib/aliases *)
  isMetadataFile : string -> bool;
  isVhdFile : string -> bool;
  isXvaFile : string -> bool;
  isXvaSumFile : string -> bool;
  isVhdAlias : string -> bool;
  resolveVhdAlias : path -> string;
  (* vhd-lib *)
  DIFFERENCING : N;
  openVhd : path -> bool -> OpenResult;        (* path, checkSecondFooter *)
  containsAllDataOf : Vhd -> Vhd -> bool;
  aliasTargetOpens : string -> bool;
  aliasUnlinkError : path -> option (option string);
  probeSize : path -> SizeProbe;
  mergeVhd : option path -> list (option path) -> option Z;
  (* the backup adapter *)
  isValidXva : path -> bool;
  (* path *)
  dirname : string -> string;
  resolve : list string -> string;
  (* scheduling of asyncMap callbacks *)
  completion : string -> nat
}.

(** ** Traces *)

Inductive Op :=
| OpList (dir : path)
| OpReadFile (p : path)
| OpGetSize (p : path)
| OpOpenVhd (p : path) (checkSecondFooter : option bool) (* None: option not passed *)
| OpResolveAlias (p : path)
| OpIsValidXva (p : path)
| OpUnlink (p : path)                          (* handler.unlink *)
| OpVhdUnlink (p : path)                       (* VhdAbstract.unlink *)
| OpWriteFile (p : path) (new_size : option Z) (* the record with its size replaced *)
| OpMergeVhd (parent : option path) (children : list (option path)) (remove : bool).

Inductive LogArg :=
| AStr (s : string)
| AOpt (s : option string)
| AList (l : list string)
| AChain (l : list (option string))
| ASize (z : option Z)
| AErr (e : JsError).

Inductive Event :=
| Call (o : Op)
| LogWarn (msg : string) (args : list (string * LogArg))
| LogInfo (msg : string) (args : list (string * LogArg)).

Definition trace := list Event.

(** The calls that change the repository: deletions, writes, and the merge
    (which writes, renames and deletes inside vhd-lib). *)
Definition mutates (e : Event) : bool :=
  match e with
  | Call (OpUnlink _) | Call (OpVhdUnlink _) | Call (OpWriteFile _ _)
  | Call (OpMergeVhd _ _ _) => true
  | _ => false
  end.

Definition read_only (t : trace) : Prop := Forall (fun e => mutates e = false) t.

(** Threading a state through a list while collecting the trace. *)
Fixpoint foldT {A S : Type} (f : S -> A -> S * trace) (s : S) (l : list A)
  : S * trace :=
  match l with
  | [] => (s, [])
  | a :: l' =>
      let (s1, t1) := f s a in
      let (s2, t2) := foldT f s1 l' in
      (s2, t1 ++ t2)
  end.

(** Modelled from the spec: [asyncMap], of a package whose source is not
    at hand, issues the operations on the items of one stage as independent,
    unordered operations and joins them before the next stage.  The order in
    which the callbacks resume is a stable insertion sort of the items by
    the world's completion rank: every order is the order of some world. *)
Fixpoint insert_by (rank : string -> nat) (x : string) (l : list string)
  : list string :=
  match l with
  | [] => [x]
  | y :: l' => if Nat.leb (rank x) (rank y) then x :: y :: l' else y :: insert_by rank x l'
  end.

Definition asyncOrder (rank : string -> nat) (l : list string) : list string :=
  fold_right (insert_by rank) [] l.

(** How a promise settles. *)
Inductive Settled (A : Type) :=
| Fulfilled (a : A)
| Rejected.
Arguments Fulfilled {A} a.
Arguments Rejected {A}.

Record Options := mkOptions {
  fixMetadata : bool;
  remove : bool;
  merge : bool
}.

(** ** Stage 1: [listVhds] *)

(** The template literal [`${dir}/${file}`]. *)
Definition slash (dir file : string) : string := (dir ++ "/" ++ file)%string.

Definition line_terminator (c : ascii) : bool :=
  Ascii.eqb c "010" || Ascii.eqb c "013".

Definition no_line_terminator (s : string) : bool :=
  forallb (fun c => negb (line_terminator c)) (list_ascii_of_string s).

(** [INTERRUPTED_VHDS_REG.exec(file)] for [/^\.(.+)\.merge.json$/]: the
    captured group, or [None] when the name does not match.  The name is a
    dot, the group, [.merge], any one character and [json]; a dot of the
    pattern matches no line terminator. *)
Definition INTERRUPTED_VHDS_REG_exec (file : string) : option string :=
  let n := String.length file in
  if (13 <=? n)%nat
     && String.eqb (substring 0 1 file) "."
     && String.eqb (substring (n - 11) 6 file) ".merge"
     && String.eqb (substring (n - 4) 4 file) "json"
     && no_line_terminator (substring 1 (n - 12) file)
     && no_line_terminator (substring (n - 5) 1 file)
  then Some (substring 1 (n - 12) file)
  else None.

Record Listing := mkListing {
  l_vhds : JsSet.t;
  l_interruptedVhds : JsMap.t path;
  l_aliases : JsMap.t (list path)
}.

Section Stages.

Variable w : World.

Definition listFile (vdiDir : path) (st : Listing) (file : string) : Listing :=
  match INTERRUPTED_VHDS_REG_exec file with
  | None =>
      mkListing (JsSet.add (slash vdiDir file) (l_vhds st))
                (l_interruptedVhds st) (l_aliases st)
  | Some res1 =>
      mkListing (l_vhds st)
                (JsMap.set (slash vdiDir res1) (slash vdiDir file)
                           (l_interruptedVhds st))
                (l_aliases st)
  end.

Definition listVdiDir (st : Listing) (vdiDir : path) : Listing * trace :=
  let list :=
    filter (fun file => isVhdFile w file
                        || match INTERRUPTED_VHDS_REG_exec file with
                           | Some _ => true
                           | None => false
                           end)
           (handler_list w vdiDir) in
  let st1 :=
    mkListing (l_vhds st) (l_interruptedVhds st)
              (JsMap.set vdiDir
                 (map (slash vdiDir)
                      (filter (isVhdAlias w) list))
                 (l_aliases st)) in
  (fold_left (listFile vdiDir) list st1, [Call (OpList vdiDir)]).

Definition listJobDir (st : Listing) (jobDir : path) : Listing * trace :=
  let (st', t) := foldT listVdiDir st (handler_list_prepend w jobDir) in
  (st', Call (OpList jobDir) :: t).

Definition listVhds (vmDir : path) : Listing * trace :=
  let (st, t) :=
    foldT listJobDir (mkListing [] [] [])
          (handler_list_prepend w (slash vmDir "vdis")) in
  (st, Call (OpList (slash vmDir "vdis")) :: t).

(** ** Stage 3: opening every VHD, parent links, duplicated UUIDs *)

Record Graph := mkGraph {
  vhds : JsSet.t;
  vhdById : JsMap.t Vhd;
  vhdParents : JsMap.t path;
  vhdChildren : JsMap.t path
}.

(** Lines 218-236: the VHD kept for a UUID. *)
Definition dedupe (g : Graph) (vhd : Vhd) : Graph * trace :=
  match JsMap.get (footer_uuid vhd) (vhdById g) with
  | None =>
      (mkGraph (vhds g) (JsMap.set (footer_uuid vhd) vhd (vhdById g))
               (vhdParents g) (vhdChildren g), [])
  | Some duplicate =>
      let warn := LogWarn "uuid is duplicated" [("uuid", AStr (footer_uuid vhd))] in
      if containsAllDataOf w duplicate vhd then
        (mkGraph (JsSet.delete (_path vhd) (vhds g))
                 (JsMap.set (footer_uuid duplicate) duplicate (vhdById g))
                 (vhdParents g) (vhdChildren g),
         [warn; LogWarn ("should delete " ++ _path vhd)%string []])
      else if containsAllDataOf w vhd duplicate then
        (mkGraph (JsSet.delete (_path duplicate) (vhds g))
                 (JsMap.set (footer_uuid vhd) vhd (vhdById g))
                 (vhdParents g) (vhdChildren g),
         [warn; LogWarn ("should delete " ++ _path duplicate)%string []])
      else
        (mkGraph (vhds g) (JsMap.set (footer_uuid vhd) vhd (vhdById g))
                 (vhdParents g) (vhdChildren g),
         [warn; LogWarn "same ids but different content" []])
  end.

(** Lines 238-245: the [catch] of the callback. *)
Definition checkFailed (remove : bool) (g : Graph) (p : path) (error : JsError)
  : Graph * trace :=
  (mkGraph (JsSet.delete p (vhds g)) (vhdById g) (vhdParents g) (vhdChildren g),
   LogWarn "VHD check error" [("path", AStr p); ("error", AErr error)]
   :: match error_code error with
      | Some code =>
          if String.eqb code "ERR_ASSERTION" && remove
          then [LogInfo "deleting broken VHD" [("path", AStr p)];
                Call (OpVhdUnlink p)]
          else []
      | None => []
      end).

(** Lines 204-245: what happens for one path once [openVhd] has settled. *)
Definition checkVhd (remove : bool) (interruptedVhds : JsMap.t path)
           (g : Graph) (p : path) : Graph * trace :=
  match openVhd w p (negb (JsMap.has p interruptedVhds)) with
  | OpenFailed code => checkFailed remove g p (ErrWithCode code)
  | Opened diskType uuid parentUnicodeName =>
      let vhd := mkVhd p diskType uuid parentUnicodeName in
      if N.eqb diskType (DIFFERENCING w) then
        let parent := resolve w ["/"; dirname w p; parentUnicodeName] in
        let g1 := mkGraph (vhds g) (vhdById g)
                          (JsMap.set p parent (vhdParents g)) (vhdChildren g) in
        match JsMap.get parent (vhdChildren g1) with
        | Some child1 =>
            checkFailed remove g1 p (ErrMultipleChildren parent child1 p)
        | None =>
            dedupe (mkGraph (vhds g1) (vhdById g1) (vhdParents g1)
                            (JsMap.set parent p (vhdChildren g1))) vhd
        end
      else dedupe g vhd
  end.

Definition checkVhds (remove : bool) (interruptedVhds : JsMap.t path)
           (vhds0 : JsSet.t) : Graph * trace :=
  let opens :=
    map (fun p => Call (OpOpenVhd p (Some (negb (JsMap.has p interruptedVhds)))))
        vhds0 in
  let (g, t) :=
    foldT (checkVhd remove interruptedVhds) (mkGraph vhds0 [] [] [])
          (asyncOrder (completion w) vhds0) in
  (g, opens ++ t).

(** ** Lines 248-263: merge states of missing VHDs *)

Definition checkMergeState (remove : bool) (vhds : JsSet.t)
           (interruptedVhds : JsMap.t path) (interruptedVhd : path)
  : JsMap.t path * trace :=
  if JsSet.has interruptedVhd vhds then (interruptedVhds, [])
  else
    let statePath := JsMap.get interruptedVhd interruptedVhds in
    (JsMap.delete interruptedVhd interruptedVhds,
     LogWarn "orphan merge state"
             [("mergeStatePath", AOpt statePath);
              ("missingVhdPath", AStr interruptedVhd)]
     :: if remove
        then [LogInfo "deleting orphan merge state" [("statePath", AOpt statePath)];
              Call (OpUnlink (js_key statePath))]
        else []).

Definition checkMergeStates (remove : bool) (vhds : JsSet.t)
           (interruptedVhds : JsMap.t path) : JsMap.t path * trace :=
  foldT (checkMergeState remove vhds) interruptedVhds (JsMap.keys interruptedVhds).

(** ** Lines 124-181: [checkAliases] *)

Definition checkAlias (remove : bool) (aliasFound : list string) (alias : path)
  : list string * trace :=
  let target := resolveVhdAlias w alias in
  if negb (isVhdFile w target) then
    (aliasFound,
     Call (OpResolveAlias alias)
     :: LogWarn "alias references non VHD target"
                [("alias", AStr alias); ("target", AStr target)]
     :: if remove
        then [LogInfo "removing alias and non VHD target"
                      [("alias", AStr alias); ("target", AStr target)];
              Call (OpUnlink target);
              Call (OpUnlink alias)]
        else [])
  else if aliasTargetOpens w target then
    (aliasFound ++ [resolve w ["/"; target]],
     [Call (OpResolveAlias alias); Call (OpOpenVhd target None)])
  else
    (aliasFound,
     Call (OpResolveAlias alias)
     :: Call (OpOpenVhd target None)
     :: LogWarn "missing or broken alias target"
                [("alias", AStr alias); ("target", AStr target)]
     :: if remove
        then Call (OpVhdUnlink alias)
             :: match aliasUnlinkError w alias with
                | None => []
                | Some code =>
                    if match code with
                       | Some c => String.eqb c "ENOENT"
                       | None => false
                       end
                    then []
                    else [LogWarn "error deleting alias target"
                                  [("alias", AStr alias); ("target", AStr target);
                                   ("error", AErr (ErrWithCode code))]]
                end
        else []).

Definition checkUnaliased (remove : bool) (aliasFound : list string) (p : path)
  : trace :=
  if existsb (String.eqb p) aliasFound then []
  else
    LogWarn "no alias references VHD" [("path", AStr p)]
    :: if remove
       then [LogInfo "deleting unused VHD" [("path", AStr p)]; Call (OpVhdUnlink p)]
       else [].

Definition checkAliases (remove : bool) (aliasPaths : list path)
           (targetDataRepository : path) : trace :=
  let (aliasFound, t) := foldT (checkAlias remove) [] aliasPaths in
  t ++ Call (OpList targetDataRepository)
    :: flat_map (checkUnaliased remove aliasFound)
                (handler_list_prepend w targetDataRepository).

(** Lines 267-269. *)
Definition checkAllAliases (remove : bool) (aliases : JsMap.t (list path)) : trace :=
  flat_map (fun dir =>
              checkAliases remove
                (match JsMap.get dir aliases with Some l => l | None => [] end)
                (slash dir "data"))
           (JsMap.keys aliases).

(** ** Lines 271-307: VHDs with missing ancestors *)

Record Pruning := mkPruning {
  p_vhds : JsSet.t;
  p_vhdParents : JsMap.t path
}.

Definition inspect {A} (a : A) : {b : A | a = b} := exist _ a eq_refl.

(** Lines 287-295, after the recursive call has returned. *)
Definition orphanCheck (remove : bool) (vhdPath parent : path)
           (r : Pruning * trace) : Pruning * trace :=
  let (st, t) := r in
  if JsSet.has parent (p_vhds st) then (st, t)
  else
    (mkPruning (JsSet.delete vhdPath (p_vhds st)) (p_vhdParents st),
     t ++ LogWarn "parent VHD is missing"
                  [("parent", AStr parent); ("child", AStr vhdPath)]
       :: if remove
          then [LogInfo "deleting orphan VHD" [("path", AStr vhdPath)];
                Call (OpVhdUnlink vhdPath)]
          else []).

Equations? deleteIfOrphan (remove : bool) (st : Pruning) (vhdPath : path)
  : Pruning * trace by wf (length (p_vhdParents st)) lt :=
deleteIfOrphan remove st vhdPath
  with inspect (JsMap.get vhdPath (p_vhdParents st)) := {
  | exist _ None _ => (st, [])
  | exist _ (Some parent) Hparent =>
      orphanCheck remove vhdPath parent
        (deleteIfOrphan remove
           (mkPruning (p_vhds st) (JsMap.delete vhdPath (p_vhdParents st)))
           parent) }.
Proof.
  clear deleteIfOrphan. simpl.
  induction (p_vhdParents st) as [|[k v] m IH]; simpl in *; [discriminate|].
  destruct (String.eqb vhdPath k); simpl.
  - clear IH Hparent. induction m as [|[k' v'] m IH]; simpl; [lia|].
    destruct (negb (String.eqb vhdPath k')); simpl; lia.
  - apply IH in Hparent. lia.
Qed.

(** [for (const child in vhdParents)]: the keys as they were when the loop
    started, a key deleted in the meantime being skipped. *)
Definition pruneStep (remove : bool) (st : Pruning) (child : path)
  : Pruning * trace :=
  if JsMap.has child (p_vhdParents st) then deleteIfOrphan remove st child
  else (st, []).

Definition pruneOrphans (remove : bool) (vhds : JsSet.t)
           (vhdParents : JsMap.t path) : Pruning * trace :=
  foldT (pruneStep remove) (mkPruning vhds vhdParents) (JsMap.keys vhdParents).

(** ** Lines 309-385: metadata records against the surviving files *)

Record Entries := mkEntries {
  e_jsons : JsSet.t;
  e_xvas : JsSet.t;
  e_xvaSums : list path
}.

Definition classify (st : Entries) (p : path) : Entries :=
  if isMetadataFile w p then mkEntries (JsSet.add p (e_jsons st)) (e_xvas st) (e_xvaSums st)
  else if isXvaFile w p then mkEntries (e_jsons st) (JsSet.add p (e_xvas st)) (e_xvaSums st)
  else if isXvaSumFile w p then mkEntries (e_jsons st) (e_xvas st) (e_xvaSums st ++ [p])
  else st.

Definition checkXva (p : path) : trace :=
  if isValidXva w p then [] else [LogWarn "XVA might be broken" [("path", AStr p)]].

Record Refs := mkRefs {
  jsons : JsSet.t;
  unusedVhds : JsSet.t;
  unusedXvas : JsSet.t;
  vhdsToJSons : JsMap.t path
}.

Definition linkedVhdsOf (vmDir : path) (metadata : Metadata) : list path :=
  map (fun kv => resolve w ["/"; vmDir; snd kv]) (md_vhds metadata).

(** Lines 355-359 and 378-382. *)
Definition incompleteBackup (remove : bool) (st : Refs) (json : path) (warning : Event)
  : Refs * trace :=
  if remove
  then (mkRefs (JsSet.delete json (jsons st)) (unusedVhds st) (unusedXvas st)
               (vhdsToJSons st),
        [warning;
         LogInfo "deleting incomplete backup" [("path", AStr json)];
         Call (OpUnlink json)])
  else (st, [warning]).

Definition checkMetadata (remove : bool) (vmDir : path) (vhds xvas : JsSet.t)
           (st : Refs) (json : path) : Refs * trace :=
  match readMetadata w json with
  | None =>
      (mkRefs (JsSet.delete json (jsons st)) (unusedVhds st) (unusedXvas st)
              (vhdsToJSons st),
       [LogWarn "failed to read backup metadata" [("path", AStr json)]])
  | Some metadata =>
      match mode metadata with
      | ModeFull =>
          let linkedXva := resolve w ["/"; vmDir; xva metadata] in
          if JsSet.has linkedXva xvas then
            (mkRefs (jsons st) (unusedVhds st)
                    (JsSet.delete linkedXva (unusedXvas st)) (vhdsToJSons st), [])
          else
            incompleteBackup remove st json
              (LogWarn "the XVA linked to the backup is missing"
                       [("backup", AStr json); ("xva", AStr linkedXva)])
      | ModeDelta =>
          let linkedVhds := linkedVhdsOf vmDir metadata in
          let missingVhds := filter (fun p => negb (JsSet.has p vhds)) linkedVhds in
          match missingVhds with
          | [] =>
              (mkRefs (jsons st)
                      (fold_left (fun s p => JsSet.delete p s) linkedVhds (unusedVhds st))
                      (unusedXvas st)
                      (fold_left (fun m p => JsMap.set p json m) linkedVhds
                                 (vhdsToJSons st)), [])
          | _ :: _ =>
              incompleteBackup remove st json
                (LogWarn "some VHDs linked to the backup are missing"
                         [("backup", AStr json); ("missingVhds", AList missingVhds)])
          end
      | ModeOther => (st, [])
      end
  end.

Definition checkMetadatas (remove : bool) (vmDir : path) (vhds : JsSet.t)
           (entries : Entries) : Refs * trace :=
  let (st, t) :=
    foldT (checkMetadata remove vmDir vhds (e_xvas entries))
          (mkRefs (e_jsons entries) vhds (e_xvas entries) [])
          (asyncOrder (completion w) (e_jsons entries)) in
  (st, map (fun json => Call (OpReadFile json)) (e_jsons entries) ++ t).

(** ** Lines 387-441: the chains to merge *)

(** A chain is an array of paths; [vhdChildren[parent]] may put [undefined]
    in one. *)
Definition chain := list (option path).

Record Chains := mkChains {
  vhdChainsToMerge : JsMap.t (option chain);   (* a key may hold [undefined] *)
  toCheck : JsSet.t
}.

(** Lines 420-424. *)
Definition unusedVhd (remove : bool) (vhd : path) : trace :=
  LogWarn "unused VHD" [("path", AStr vhd)]
  :: if remove
     then [LogInfo "deleting unused VHD" [("path", AStr vhd)]; Call (OpVhdUnlink vhd)]
     else [].

(** The recursion follows [vhdChildren] and does not end on a cycle of
    unused VHDs: [fuel] is the depth of the call stack, [None] the
    [RangeError] of its exhaustion. *)
Fixpoint getUsedChildChainOrDelete (fuel : nat) (remove : bool)
         (unusedVhds : JsSet.t) (vhdChildren : JsMap.t path)
         (st : Chains) (vhd : path) : option (option chain * Chains * trace) :=
  match fuel with
  | O => None
  | S fuel' =>
      match JsMap.get vhd (vhdChainsToMerge st) with
      | Some chain =>
          Some (chain,
                mkChains (JsMap.delete vhd (vhdChainsToMerge st)) (toCheck st), [])
      | None =>
          if negb (JsSet.has vhd unusedVhds) then Some (Some [Some vhd], st, [])
          else
            let st1 := mkChains (vhdChainsToMerge st) (JsSet.delete vhd (toCheck st)) in
            match JsMap.get vhd vhdChildren with
            | Some child =>
                match getUsedChildChainOrDelete fuel' remove unusedVhds vhdChildren
                                                st1 child with
                | None => None
                | Some (Some chain, st2, t) => Some (Some (Some vhd :: chain), st2, t)
                | Some (None, st2, t) => Some (None, st2, t ++ unusedVhd remove vhd)
                end
            | None => Some (None, st1, unusedVhd remove vhd)
            end
      end
  end.

(** Lines 427-429: [toCheck.forEach], which skips an element deleted before
    its turn.  The first component is [None] when a call overflowed. *)
Fixpoint forEachToCheck (fuel : nat) (remove : bool) (unusedVhds : JsSet.t)
         (vhdChildren : JsMap.t path) (st : Chains) (l : list path)
  : option Chains * trace :=
  match l with
  | [] => (Some st, [])
  | vhd :: l' =>
      if JsSet.has vhd (toCheck st) then
        match getUsedChildChainOrDelete fuel remove unusedVhds vhdChildren st vhd with
        | None => (None, [])
        | Some (chain, st1, t1) =>
            let (r, t2) :=
              forEachToCheck fuel remove unusedVhds vhdChildren
                (mkChains (JsMap.set vhd chain (vhdChainsToMerge st1)) (toCheck st1))
                l' in
            (r, t1 ++ t2)
        end
      else forEachToCheck fuel remove unusedVhds vhdChildren st l'
  end.

Definition usageChains (fuel : nat) (remove : bool) (unusedVhds : JsSet.t)
           (vhdChildren : JsMap.t path) : option Chains * trace :=
  forEachToCheck fuel remove unusedVhds vhdChildren (mkChains [] unusedVhds) unusedVhds.

(** Lines 431-434. *)
Definition interruptedChain (vhdChildren : JsMap.t path) (parent : path) : chain :=
  [JsMap.get parent vhdChildren; Some parent].

Definition mergeInterrupted (interruptedVhds : JsMap.t path)
           (vhdChildren : JsMap.t path) (m : JsMap.t (option chain))
  : JsMap.t (option chain) :=
  fold_left (fun m parent => JsMap.set parent (Some (interruptedChain vhdChildren parent)) m)
            (JsMap.keys interruptedVhds) m.

(** Lines 436-440. *)
Definition collectChains (m : JsMap.t (option chain)) : list chain :=
  flat_map (fun c => match c with Some c => [c] | None => [] end) (JsMap.values m).

(** [vhdChainsToMerge] when the loop of line 436 starts. *)
Definition chainsByAncestor (fuel : nat) (remove : bool) (unusedVhds : JsSet.t)
           (vhdChildren : JsMap.t path) (interruptedVhds : JsMap.t path)
  : option (JsMap.t (option chain)) * trace :=
  match usageChains fuel remove unusedVhds vhdChildren with
  | (None, t) => (None, t)
  | (Some st, t) =>
      (Some (mergeInterrupted interruptedVhds vhdChildren (vhdChainsToMerge st)), t)
  end.

(** [toMerge] *)
Definition chainsToMerge (fuel : nat) (remove : bool) (unusedVhds : JsSet.t)
           (vhdChildren : JsMap.t path) (interruptedVhds : JsMap.t path)
  : option (list chain) * trace :=
  match chainsByAncestor fuel remove unusedVhds vhdChildren interruptedVhds with
  | (None, t) => (None, t)
  | (Some m, t) => (Some (collectChains m), t)
  end.

(** ** Lines 51-84: [mergeVhdChain] *)

(** The result is the merged size, [None] for [undefined]; the promise is
    rejected when the assertion on the length fails. *)
Definition mergeVhdChain (remove merge : bool) (chain : chain)
  : Settled (option Z) * trace :=
  if (2 <=? length chain)%nat then
    match chain with
    | parent :: children =>
        if merge then
          (Fulfilled (mergeVhd w parent children),
           [LogInfo "will merge children into parent"
                    [("children", AChain children); ("parent", AOpt parent)];
            Call (OpMergeVhd parent children remove)])
        else (Fulfilled None, [])
    | [] => (Rejected, [])
    end
  else (Rejected, []).

(** Lines 443-452: [doMerge]. *)
Record Merging := mkMerging {
  metadataWithMergedVhd : JsMap.t bool;
  merge_ok : bool
}.

Definition mergeChain (remove merge : bool) (vhdsToJSons : JsMap.t path)
           (st : Merging) (chain : chain) : Merging * trace :=
  match mergeVhdChain remove merge chain with
  | (Rejected, t) => (mkMerging (metadataWithMergedVhd st) false, t)
  | (Fulfilled None, t) => (st, t)
  | (Fulfilled (Some _), t) =>
      let metadataPath := JsMap.get (js_key (hd None chain)) vhdsToJSons in
      (mkMerging (JsMap.set (js_key metadataPath) true (metadataWithMergedVhd st))
                 (merge_ok st), t)
  end.

Definition doMerge (remove merge : bool) (vhdsToJSons : JsMap.t path)
           (toMerge : list chain) : Merging * trace :=
  foldT (mergeChain remove merge vhdsToJSons) (mkMerging [] true) toMerge.

(** Lines 457-473. *)
Definition unusedXva (remove : bool) (p : path) : trace :=
  LogWarn "unused XVA" [("path", AStr p)]
  :: if remove
     then [LogInfo "deleting unused XVA" [("path", AStr p)]; Call (OpUnlink p)]
     else [].

(** [path.slice(0, -'.checksum'.length)] *)
Definition without_checksum (p : path) : string :=
  substring 0 (String.length p - 9) p.

Definition unusedXvaSum (remove : bool) (xvas : JsSet.t) (p : path) : trace :=
  if JsSet.has (without_checksum p) xvas then []
  else
    LogInfo "unused XVA checksum" [("path", AStr p)]
    :: if remove
       then [LogInfo "deleting unused XVA checksum" [("path", AStr p)];
             Call (OpUnlink p)]
       else [].

(** ** Lines 20-33: [computeVhdsSize] *)

Definition shouldComputeVhdsSize (vhds : list SizeProbe) : bool :=
  forallb (fun vhd => match vhd with ProbeVhdFile _ => true | _ => false end) vhds.

Fixpoint sum_sizes (vhds : list SizeProbe) : option Z :=
  match vhds with
  | [] => Some 0%Z
  | ProbeVhdFile (Some z) :: vhds' =>
      match sum_sizes vhds' with Some s => Some (z + s)%Z | None => None end
  | _ :: _ => None
  end.

(** [Rejected] when a VHD cannot be opened or sized, [Fulfilled None] when
    the size is not computed. *)
Definition computeVhdsSize (vhdPaths : list path) : Settled (option Z) * trace :=
  let vhds := map (probeSize w) vhdPaths in
  let opens := map (fun vhdPath => Call (OpOpenVhd vhdPath None)) vhdPaths in
  if existsb (fun vhd => match vhd with ProbeFailed => true | _ => false end) vhds
  then (Rejected, opens)
  else if shouldComputeVhdsSize vhds then
    match sum_sizes vhds with
    | Some s => (Fulfilled (Some s), opens)
    | None => (Rejected, opens)
    end
  else (Fulfilled None, opens).

(** ** Lines 479-524: sizes recorded in the metadata *)

(** [size !== fileSystemSize] *)
Definition size_differs (a b : option Z) : bool :=
  match a, b with
  | Some x, Some y => negb (Z.eqb x y)
  | None, None => false
  | _, _ => true
  end.

(** Lines 515-523. *)
Definition updateSize (fixMetadata merged : bool) (metadataPath : path)
           (metadata : Metadata) (fileSystemSize : option Z) : trace :=
  if (merged || fixMetadata) && size_differs (size metadata) fileSystemSize then
    Call (OpWriteFile metadataPath fileSystemSize)
    :: if writeFileFails w metadataPath
       then [LogWarn "failed to update backup size in metadata"
                     [("path", AStr metadataPath)]]
       else []
  else [].

Definition failedSize (metadataPath : path) : Event :=
  LogWarn "failed to get backup size" [("backup", AStr metadataPath)].

(** One record; the boolean is [false] when the callback throws, which
    only the second [JSON.parse] can make it do. *)
Definition checkSize (fixMetadata : bool) (vmDir : path)
           (metadataWithMergedVhd : JsMap.t bool) (metadataPath : path)
  : bool * trace :=
  match readMetadata w metadataPath with
  | None => (false, [Call (OpReadFile metadataPath)])
  | Some metadata =>
      let merged := JsMap.has metadataPath metadataWithMergedVhd in
      (true,
       Call (OpReadFile metadataPath)
       :: match mode metadata with
          | ModeFull =>
              let linkedXva := resolve w ["/"; vmDir; xva metadata] in
              Call (OpGetSize linkedXva)
              :: match getSize w linkedXva with
                 | None => [failedSize metadataPath]
                 | Some fileSystemSize =>
                     updateSize fixMetadata merged metadataPath metadata
                                (Some fileSystemSize)
                 end
          | ModeDelta =>
              match computeVhdsSize (linkedVhdsOf vmDir metadata) with
              | (Rejected, t) => t ++ [failedSize metadataPath]
              | (Fulfilled None, t) => t
              | (Fulfilled (Some fileSystemSize), t) =>
                  t ++ (if negb merged
                           && size_differs (Some fileSystemSize) (size metadata)
                        then [LogWarn "incorrect backup size in metadata"
                                      [("path", AStr metadataPath);
                                       ("actual", ASize (size metadata));
                                       ("expected", ASize (Some fileSystemSize))]]
                        else [])
                    ++ updateSize fixMetadata merged metadataPath metadata
                                  (Some fileSystemSize)
              end
          | ModeOther => updateSize fixMetadata merged metadataPath metadata None
          end)
  end.

Definition checkSizes (fixMetadata : bool) (vmDir : path)
           (metadataWithMergedVhd : JsMap.t bool) (jsons : JsSet.t) : bool * trace :=
  foldT (fun ok metadataPath =>
           let (ok', t) := checkSize fixMetadata vmDir metadataWithMergedVhd metadataPath in
           (ok && ok', t))
        true jsons.

(** ** Lines 187-530: [cleanVm] *)

Record Summary := mkSummary { summary_merge : bool }.

(** Everything one invocation computes, stage after stage. *)
Record Run := mkRun {
  run_listing : Listing;
  run_graph : Graph;
  run_interruptedVhds : JsMap.t path;
  run_vhds : JsSet.t;
  run_refs : Refs;
  run_toMerge : option (list chain);
  run_merging : Merging;
  run_trace : trace;
  run_result : option Summary
}.

Definition runCleanVm (fuel : nat) (opts : Options) (vmDir : path) : Run :=
  let (listing, t_list) := listVhds vmDir in
  let (graph, t_open) :=
    checkVhds (remove opts) (l_interruptedVhds listing) (l_vhds listing) in
  let (interruptedVhds, t_states) :=
    checkMergeStates (remove opts) (vhds graph) (l_interruptedVhds listing) in
  let t_aliases := checkAllAliases (remove opts) (l_aliases listing) in
  let (pruned, t_orphans) :=
    pruneOrphans (remove opts) (vhds graph) (vhdParents graph) in
  let vhds := p_vhds pruned in
  let entries :=
    fold_left classify (handler_list_prepend w vmDir) (mkEntries [] [] []) in
  let t_entries :=
    Call (OpList vmDir)
    :: map (fun p => Call (OpIsValidXva p)) (e_xvas entries)
    ++ flat_map checkXva (e_xvas entries) in
  let (refs, t_refs) := checkMetadatas (remove opts) vmDir vhds entries in
  let t_before :=
    t_list ++ t_open ++ t_states ++ t_aliases ++ t_orphans ++ t_entries ++ t_refs in
  match chainsToMerge fuel (remove opts) (unusedVhds refs) (vhdChildren graph)
                      interruptedVhds with
  | (None, t_chains) =>
      mkRun listing graph interruptedVhds vhds refs None (mkMerging [] true)
            (t_before ++ t_chains) None
  | (Some toMerge, t_chains) =>
      let (merging, t_merge) :=
        doMerge (remove opts) (merge opts) (vhdsToJSons refs) toMerge in
      let t_unused :=
        flat_map (unusedXva (remove opts)) (unusedXvas refs)
        ++ flat_map (unusedXvaSum (remove opts) (e_xvas entries)) (e_xvaSums entries) in
      if merge_ok merging then
        let (ok, t_sizes) :=
          checkSizes (fixMetadata opts) vmDir (metadataWithMergedVhd merging)
                     (jsons refs) in
        mkRun listing graph interruptedVhds vhds refs (Some toMerge) merging
              (t_before ++ t_chains ++ t_merge ++ t_unused ++ t_sizes)
              (if ok
               then Some (mkSummary (negb (Nat.eqb (length toMerge) 0)))
               else None)
      else
        mkRun listing graph interruptedVhds vhds refs (Some toMerge) merging
              (t_before ++ t_chains ++ t_merge ++ t_unused) None
  end.

(** The value [cleanVm] resolves to, [None] when it rejects, and what it
    asked of its collaborators. *)
Definition cleanVm (fuel : nat) (opts : Options) (vmDir : path)
  : option Summary * trace :=
  let r := runCleanVm fuel opts vmDir in (run_result r, run_trace r).

End Stages.

(** * The tree view

    The second module of the file, the [Tree] component: lines 545-551 and
    630-659.  A React element is the data it is made from; [Label] and
    [Node] are the elements and nodes that the component is given and hands
    on, [truthy] is the truth value JS gives to a node. *)

Section TreeView.

Variables (Label Node : Type).
Variable truthy : Node -> bool.

(** [children], [to] and [tooltip] are optional. *)
#[warnings="-register-all"]
Inductive ItemType :=
| mkItem (children : option (list ItemType)) (id : string) (label : Label)
         (to : option string) (tooltip : option Node).

Definition item_id (item : ItemType) : string :=
  match item with mkItem _ id _ _ _ => id end.

(** The [label] of a [TreeItem]: the label, or the label in a [Tooltip]. *)
Inductive LabelProp :=
| LabelOnly (label : Label)
| InTooltip (title : Node) (label : Label).

(** A [TreeItem] element; its children are [null] or an array. *)
#[warnings="-register-all"]
Inductive TreeItemElement :=
| TreeItem (key nodeId : string) (ContentProps_to : option string)
           (label : LabelProp) (children : option (list TreeItemElement)).

Fixpoint renderItem (item : ItemType) : TreeItemElement :=
  match item with
  | mkItem children id label to tooltip =>
      TreeItem id id to
               (match tooltip with
                | Some t => if truthy t then InTooltip t label else LabelOnly label
                | None => LabelOnly label
                end)
               (match children with
                | Some l => Some (map renderItem l)
                | None => None
                end)
  end.

Record TreeViewElement := mkTreeView {
  defaultExpanded : list string;
  multiSelect : bool;
  selected : option (list (option string));
  tv_children : list TreeItemElement
}.

(** [None] is the [TypeError] of [collection[0].id] on an empty
    collection. *)
Definition Tree (collection : list ItemType)
           (defaultSelectedNodes : option (list (option string)))
  : option TreeViewElement :=
  match collection with
  | [] => None
  | first :: _ =>
      Some (mkTreeView [item_id first] true defaultSelectedNodes
                       (map renderItem collection))
  end.

(** The identifiers of a tree, with their nesting. *)
#[warnings="-register-all"]
Inductive IdTree :=
| IdNode (id : string) (children : option (list IdTree)).

Fixpoint item_ids (item : ItemType) : IdTree :=
  match item with
  | mkItem children id _ _ _ =>
      IdNode id (match children with
                 | Some l => Some (map item_ids l)
                 | None => None
                 end)
  end.

Fixpoint node_ids (e : TreeItemElement) : IdTree :=
  match e with
  | TreeItem _ nodeId _ _ children =>
      IdNode nodeId (match children with
                     | Some l => Some (map node_ids l)
                     | None => None
                     end)
  end.

Definition element_key (e : TreeItemElement) : string :=
  match e with TreeItem key _ _ _ _ => key end.

End TreeView.

Arguments mkItem {Label Node} children id label to tooltip.
Arguments item_id {Label Node} item.
Arguments LabelOnly {Label Node} label.
Arguments InTooltip {Label Node} title label.
Arguments TreeItem {Label Node} key nodeId ContentProps_to label children.
Arguments renderItem {Label Node} truthy item.
Arguments mkTreeView {Label Node} defaultExpanded multiSelect selected tv_children.
Arguments defaultExpanded {Label Node} t.
Arguments multiSelect {Label Node} t.
Arguments selected {Label Node} t.
Arguments tv_children {Label Node} t.
Arguments Tree {Label Node} truthy collection defaultSelectedNodes.
Arguments item_ids {Label Node} item.
Arguments node_ids {Label Node} e.
Arguments element_key {Label Node} e.

(** * Specification *)

(** ** Orders of completion *)

(** The place of [x] in [l]. *)
Fixpoint position (x : string) (l : list string) : nat :=
  match l with
  | [] => O
  | y :: l' => if String.eqb x y then O else S (position x l')
  end.

(** ** Changes of the repository *)

(** The events of [t] that change the repository occur only under [b]. *)
Definition gated (b : bool) (t : trace) : Prop :=
  Forall (fun e => mutates e = true -> b = true) t.

Ltac gated_step :=
  match goal with
  | |- Forall _ [] => constructor
  | |- Forall _ (_ :: _) =>
      constructor; [simpl; solve [discriminate | reflexivity | auto] |]
  | |- Forall _ (_ ++ _) => apply Forall_app; split
  | |- Forall _ (if ?b then _ else _) => destruct b eqn:?
  | |- Forall _ (match ?x with _ => _ end) => destruct x eqn:?
  | |- Forall _ (snd (if ?b then _ else _)) => destruct b eqn:?; simpl
  | |- Forall _ (snd (match ?x with _ => _ end)) => destruct x eqn:?; simpl
  end.

Ltac gated_auto := unfold gated; simpl; repeat gated_step.

(** ** The graph of the VHDs *)

Section GraphSpec.

Variable w : World.
Variable interruptedVhds : JsMap.t path.

(** The VHD that [openVhd] yields for a path, and the parent it names. *)
Definition vhdOf (p : path) : option Vhd :=
  match openVhd w p (negb (JsMap.has p interruptedVhds)) with
  | Opened diskType uuid parentUnicodeName =>
      Some (mkVhd p diskType uuid parentUnicodeName)
  | OpenFailed _ => None
  end.

Definition parentOf (p : path) : option path :=
  match vhdOf p with
  | Some vhd =>
      if N.eqb (footer_diskType vhd) (DIFFERENCING w)
      then Some (resolve w ["/"; dirname w p; header_parentUnicodeName vhd])
      else None
  | None => None
  end.

(** No other VHD of [l] names the parent that [x] names. *)
Definition only_child (l : list path) (x : path) : Prop :=
  forall p q, In p l -> p <> x -> parentOf p = Some q -> parentOf x <> Some q.

(** What the stage keeps true of its dictionaries once the VHDs of [l] have
    been handled: the VHD kept for a UUID has that UUID and is what
    [openVhd] gave for its path, and a registered child is a VHD of [l] that
    names the parent it is registered under. *)
Definition graph_inv (l : list path) (g : Graph) : Prop :=
  (forall k d, JsMap.get k (vhdById g) = Some d ->
               footer_uuid d = k /\ vhdOf (_path d) = Some d)
  /\ (forall k v, JsMap.get k (vhdChildren g) = Some v ->
                  In v l /\ parentOf v = Some k).

(** The registered children are VHDs of [l] that have been opened. *)
Definition children_opened (l : list path) (g : Graph) : Prop :=
  forall k v, JsMap.get k (vhdChildren g) = Some v ->
              In v l
              /\ exists dt uuid pname,
                   openVhd w v (negb (JsMap.has v interruptedVhds))
                   = Opened dt uuid pname.

End GraphSpec.

(** What the VHDs other than [a] and [b] leave untouched of the VHDs [a]
    and [b] and of the index under their UUID [u]. *)
Definition pair_status (a b : path) (u : string) (g g' : Graph) : Prop :=
  JsMap.get u (vhdById g') = JsMap.get u (vhdById g)
  /\ (In a (vhds g') <-> In a (vhds g))
  /\ (In b (vhds g') <-> In b (vhds g)).

(** ** The chains of unused VHDs *)

(** The dictionary of chains has one entry per key, and no chain of it is
    shorter than two. *)
Definition chains_inv (m : JsMap.t (option chain)) : Prop :=
  NoDup (JsMap.keys m) /\ forall k c, In (k, Some c) m -> 2 <= length c.

(** [UsageChain U ch v l]: [l] starts at [v], goes from each VHD to its
    registered child as long as the VHD is unused, and ends with the first
    VHD that is not. *)
Inductive UsageChain (U : JsSet.t) (ch : JsMap.t path) : path -> list path -> Prop :=
| usage_end v : ~ In v U -> UsageChain U ch v [v]
| usage_step v child l :
    In v U -> JsMap.get v ch = Some child -> UsageChain U ch child l ->
    UsageChain U ch v (v :: l).

(** [Garbage U ch v]: the walk from [v] stays among the unused VHDs and
    ends at one that has no registered child. *)
Inductive Garbage (U : JsSet.t) (ch : JsMap.t path) : path -> Prop :=
| garbage_leaf v : In v U -> JsMap.get v ch = None -> Garbage U ch v
| garbage_step v child :
    In v U -> JsMap.get v ch = Some child -> Garbage U ch child -> Garbage U ch v.

(** The walk from [v] ends within [n] calls. *)
Fixpoint walk_ends (U : JsSet.t) (ch : JsMap.t path) (n : nat) (v : path) : bool :=
  match n with
  | O => false
  | S n' =>
      if negb (JsSet.has v U) then true
      else match JsMap.get v ch with
           | Some child => walk_ends U ch n' child
           | None => true
           end
  end.

Section ChainSpec.

Variable remove : bool.
Variable U : JsSet.t.               (* unusedVhds *)
Variable ch : JsMap.t path.         (* vhdChildren *)

(** How an unused VHD that has had its turn is accounted for: it is garbage
    and, under [remove], unlinked; or the walk from it is the end of a chain
    of the dictionary [M] or of the chain [r] that is being returned. *)
Definition covered (M : JsMap.t (option chain)) (r : option chain) (t : trace)
           (v : path) : Prop :=
  (Garbage U ch v /\ (remove = true -> In (Call (OpVhdUnlink v)) t))
  \/ exists l pre,
       UsageChain U ch v l
       /\ ((exists k, JsMap.get k M = Some (Some (map Some (pre ++ l))))
           \/ r = Some (map Some (pre ++ l))).

(** A chain of the dictionary is the walk from its key, and a key that
    holds [undefined] is garbage. *)
Definition chains_sound (M : JsMap.t (option chain)) : Prop :=
  (forall k c, JsMap.get k M = Some (Some c) ->
               exists l, c = map Some l /\ UsageChain U ch k l)
  /\ (forall k, JsMap.get k M = Some None -> Garbage U ch k).

(** The unused VHDs that have had their turn, those of [pending] apart, are
    accounted for. *)
Definition all_covered (st : Chains) (r : option chain) (t : trace)
           (pending : list path) : Prop :=
  forall v, In v U -> ~ In v (toCheck st) -> ~ In v pending ->
            covered (vhdChainsToMerge st) r t v.

Definition only_garbage_unlinked (t : trace) : Prop :=
  forall o, In (Call o) t -> exists p, o = OpVhdUnlink p /\ Garbage U ch p /\ remove = true.

(** A key of the dictionary has had its turn, and is an unused VHD. *)
Definition keys_done (st : Chains) : Prop :=
  forall k x, JsMap.get k (vhdChainsToMerge st) = Some x ->
              ~ In k (toCheck st) /\ In k U.

End ChainSpec.

(** ** VHDs with missing ancestors *)

(** [Ancestor P a v]: [a] is reached from [v] by one or more steps along the
    registered parents. *)
Inductive Ancestor (P : JsMap.t path) : path -> path -> Prop :=
| ancestor_parent v a : JsMap.get v P = Some a -> Ancestor P a v
| ancestor_step v q a : JsMap.get v P = Some q -> Ancestor P a q -> Ancestor P a v.

(** An ancestor of [v] is absent from the active set. *)
Definition Orphan (P : JsMap.t path) (V : JsSet.t) (v : path) : Prop :=
  exists a, Ancestor P a v /\ ~ In a V.

(** No VHD is its own ancestor. *)
Definition Acyclic (P : JsMap.t path) : Prop := forall v, ~ Ancestor P v v.

Section OrphanSpec.

Variable remove : bool.
Variable V : JsSet.t.          (* the active set when the stage starts *)
Variable P : JsMap.t path.     (* vhdParents when the stage starts *)

(** The state of the walk: the VHDs of [pending] are those whose call has
    not returned yet. *)
Record prune_inv (st : Pruning) (t : trace) (pending : list path) : Prop := {
  inv_parents : forall v q, JsMap.get v (p_vhdParents st) = Some q ->
                            JsMap.get v P = Some q;
  inv_done : forall v, JsMap.get v (p_vhdParents st) = None -> ~ In v pending ->
                       (In v (p_vhds st) <-> In v V /\ ~ Orphan P V v);
  inv_gone : forall v, JsMap.get v (p_vhdParents st) = None -> ~ In v pending ->
                       ~ In v (p_vhds st) -> In v V -> Orphan P V v;
  inv_untouched : forall v, JsMap.get v (p_vhdParents st) <> None \/ In v pending ->
                            (In v (p_vhds st) <-> In v V);
  inv_unlinked : forall v, In (Call (OpVhdUnlink v)) t <->
                           remove = true /\ Orphan P V v
                           /\ JsMap.get v (p_vhdParents st) = None /\ ~ In v pending;
  inv_calls : forall o, In (Call o) t -> exists v, o = OpVhdUnlink v
}.

End OrphanSpec.

(** ** Further notions *)

(** What the options allow a run to ask for: [remove] the deletions,
    [merge] the merges, which are given the [remove] of the run, and [merge]
    or [fixMetadata] the writes of records. *)
Definition allowed (opts : Options) (e : Event) : Prop :=
  match e with
  | Call (OpUnlink _) | Call (OpVhdUnlink _) => remove opts = true
  | Call (OpMergeVhd _ _ r) => merge opts = true /\ r = remove opts
  | Call (OpWriteFile _ _) => merge opts = true \/ fixMetadata opts = true
  | _ => True
  end.

(** The only changes of [t] are deletions, and they occur under [b]. *)
Definition deletes_under (b : bool) (e : Event) : Prop :=
  match e with
  | Call (OpUnlink _) | Call (OpVhdUnlink _) => b = true
  | Call (OpMergeVhd _ _ _) | Call (OpWriteFile _ _) => False
  | _ => True
  end.

Section LinksSpec.

Variable remove : bool.
Variable V : JsSet.t.          (* the active set when the stage starts *)
Variable P : JsMap.t path.     (* vhdParents when the stage starts *)

(** What the walk keeps true whatever the parent links are, cycles
    included: it only removes VHDs, each VHD it removes or unlinks has an
    ancestor that is absent, and a VHD whose own parent is absent is removed
    once its call has returned. *)
Record links_inv (st : Pruning) (t : trace) (pending : list path) : Prop := {
  li_parents : forall v q, JsMap.get v (p_vhdParents st) = Some q ->
                           JsMap.get v P = Some q;
  li_subset : forall v, In v (p_vhds st) -> In v V;
  li_removed : forall v, In v V -> ~ In v (p_vhds st) -> Orphan P V v;
  li_direct : forall v q, JsMap.get v P = Some q -> ~ In q V ->
                          JsMap.get v (p_vhdParents st) = None -> ~ In v pending ->
                          ~ In v (p_vhds st);
  li_unlinked : forall v, In (Call (OpVhdUnlink v)) t ->
                          remove = true /\ Orphan P V v /\ ~ In v (p_vhds st)
}.

End LinksSpec.

(** The alias's target is a VHD file that opens. *)
Definition alias_valid (w : World) (alias : path) : bool :=
  isVhdFile w (resolveVhdAlias w alias) && aliasTargetOpens w (resolveVhdAlias w alias).

(** A valid alias of [aliasPaths] has [p] as its target. *)
Definition referenced (w : World) (aliasPaths : list path) (p : path) : Prop :=
  exists alias, In alias aliasPaths /\ alias_valid w alias = true
                /\ resolve w ["/"; resolveVhdAlias w alias] = p.

(** The directories of the virtual disks: the entries of the entries of
    [vdis]. *)
Definition vdiDirs (w : World) (vmDir : path) : list path :=
  flat_map (handler_list_prepend w) (handler_list_prepend w (slash vmDir "vdis")).

(** [st'] is [st] with the VHDs of [Q], the merge states of [K] and the
    aliases of [L] added. *)
Definition grows (Q : path -> Prop) (K : path -> path -> Prop)
           (L : path -> list path -> Prop) (st st' : Listing) : Prop :=
  (forall p, In p (l_vhds st') <-> In p (l_vhds st) \/ Q p)
  /\ (forall k v, JsMap.get k (l_interruptedVhds st') = Some v ->
                  JsMap.get k (l_interruptedVhds st) = Some v \/ K k v)
  /\ (forall k, In k (JsMap.keys (l_interruptedVhds st'))
                <-> In k (JsMap.keys (l_interruptedVhds st)) \/ exists v, K k v)
  /\ (forall d l, JsMap.get d (l_aliases st') = Some l ->
                  JsMap.get d (l_aliases st) = Some l \/ L d l)
  /\ (NoDup (l_vhds st) -> NoDup (l_vhds st')).

(** What [listVhds] takes from the directory [vdiDir]. *)
Definition vhd_of_dir (w : World) (vdiDir : path) (p : path) : Prop :=
  exists file, In file (handler_list w vdiDir)
               /\ isVhdFile w file = true
               /\ INTERRUPTED_VHDS_REG_exec file = None
               /\ p = slash vdiDir file.

Definition state_of_dir (w : World) (vdiDir : path) (k v : path) : Prop :=
  exists file name, In file (handler_list w vdiDir)
                    /\ INTERRUPTED_VHDS_REG_exec file = Some name
                    /\ k = slash vdiDir name /\ v = slash vdiDir file.

Definition aliases_of_dir (w : World) (vdiDir : path) (d : path) (l : list path) : Prop :=
  d = vdiDir
  /\ l = map (slash vdiDir)
             (filter (fun file =>
                        isVhdAlias w file
                        && (isVhdFile w file
                            || match INTERRUPTED_VHDS_REG_exec file with
                               | Some _ => true
                               | None => false
                               end))
                     (handler_list w vdiDir)).

Section RecordSpec.

Variable w : World.
Variable vmDir : path.
Variable V : JsSet.t.     (* the active VHDs *)
Variable X : JsSet.t.     (* the XVAs of the directory *)

(** The record [json] is a delta backup all of whose VHDs are active, and
    [v] is one of them. *)
Definition links_vhd (json v : path) : Prop :=
  exists md, readMetadata w json = Some md /\ mode md = ModeDelta
             /\ (forall p, In p (linkedVhdsOf w vmDir md) -> In p V)
             /\ In v (linkedVhdsOf w vmDir md).

(** The record [json] is a full backup of the XVA [x]. *)
Definition links_xva (json x : path) : Prop :=
  exists md, readMetadata w json = Some md /\ mode md = ModeFull
             /\ resolve w ["/"; vmDir; xva md] = x.

(** The record [json] is a full backup whose XVA is missing, or a delta
    backup one of whose VHDs is not active. *)
Definition incomplete (json : path) : Prop :=
  exists md, readMetadata w json = Some md
             /\ ((mode md = ModeFull /\ ~ In (resolve w ["/"; vmDir; xva md]) X)
                 \/ (mode md = ModeDelta
                     /\ exists p, In p (linkedVhdsOf w vmDir md) /\ ~ In p V)).

End RecordSpec.

(** Lines 309-323: the entries of the directory of the VM, sorted. *)
Definition entriesOf (w : World) (vmDir : path) : Entries :=
  fold_left (classify w) (handler_list_prepend w vmDir) (mkEntries [] [] []).

(** The size found for a record: the size of the XVA of a full backup, the
    sum of the sizes of the VHDs of a delta backup when it is computed, and
    [undefined] for a record of another mode. *)
Definition measured (w : World) (vmDir : path) (md : Metadata) (z : option Z) : Prop :=
  match mode md with
  | ModeFull =>
      exists s, getSize w (resolve w ["/"; vmDir; xva md]) = Some s /\ z = Some s
  | ModeDelta =>
      exists s, fst (computeVhdsSize w (linkedVhdsOf w vmDir md)) = Fulfilled (Some s)
                /\ z = Some s
  | ModeOther => z = None
  end.

Definition is_merge (e : Event) : bool :=
  match e with
  | Call (OpMergeVhd _ _ _) => true
  | _ => false
  end.

(** The call of [mergeVhd] that [mergeVhdChain] makes for a chain: the
    first element is the parent, the others are the children. *)
Definition merge_of (remove : bool) (c : chain) : Event :=
  Call (OpMergeVhd (hd None c) (tl c) remove).

(** [VhdAbstract.unlink] is not called. *)
Definition keeps_vhds (e : Event) : Prop :=
  match e with
  | Call (OpVhdUnlink _) => False
  | _ => True
  end.

(** The arguments of a log entry name the file [p]. *)
Definition names (p : path) (args : list (string * LogArg)) : Prop :=
  exists k a, In (k, a) args
              /\ (a = AStr p \/ exists o, a = AOpt o /\ js_key o = p).

(** A log entry of [t], a warning or an information, names [p]. *)
Definition logged (p : path) (t : trace) : Prop :=
  exists msg args,
    (In (LogWarn msg args) t \/ In (LogInfo msg args) t) /\ names p args.

(** Every file that [t] deletes is named by a log entry of [t]. *)
Definition announced (t : trace) : Prop :=
  forall p, In (Call (OpUnlink p)) t \/ In (Call (OpVhdUnlink p)) t -> logged p t.

(** * Example repositories *)

Definition ends_with (suffix s : string) : bool :=
  (String.length suffix <=? String.length s)%nat
  && String.eqb (substring (String.length s - String.length suffix)
                           (String.length suffix) s) suffix.

Fixpoint drop_last_component (reversed : list ascii) : list ascii :=
  match reversed with
  | [] => []
  | c :: r => if Ascii.eqb c "/" then r else drop_last_component r
  end.

(** [dirname] and [resolve] of Node on paths that are already normal. *)
Definition posix_dirname (p : string) : string :=
  string_of_list_ascii (rev (drop_last_component (rev (list_ascii_of_string p)))).

Definition posix_resolve (segments : list string) : string :=
  fold_left (fun acc seg =>
               if String.prefix "/" seg then seg
               else if String.eqb acc "/" then ("/" ++ seg)%string
               else slash acc seg)
            segments EmptyString.

Definition lookup {V} (default : V) (table : list (string * V)) (k : string) : V :=
  match JsMap.get k table with Some v => v | None => default end.

(** A repository given by its directories, what [openVhd] finds in each
    VHD, which VHD contains all the data of which, the metadata records, the
    sizes after the merges, and the order in which callbacks complete. *)
Definition repository
           (dirs : list (path * list string))
           (disks : list (path * OpenResult))
           (contains : list (path * path))
           (records : list (path * Metadata))
           (sizes : list (path * SizeProbe))
           (ranks : list (string * nat)) : World :=
  mkWorld
    (lookup [] dirs)
    (fun dir => map (slash dir) (lookup [] dirs dir))
    (fun p => JsMap.get p records)
    (fun _ => None)
    (fun _ => false)
    (ends_with ".json")
    (ends_with ".vhd")
    (ends_with ".xva")
    (ends_with ".xva.checksum")
    (ends_with ".alias.vhd")
    (fun p => p)
    4%N
    (fun p _ => lookup (OpenFailed None) disks p)
    (fun a b => existsb (fun ab => String.eqb (fst ab) (_path a)
                                   && String.eqb (snd ab) (_path b)) contains)
    (fun _ => true)
    (fun _ => None)
    (lookup ProbeFailed sizes)
    (fun _ _ => Some 150%Z)
    (fun _ => true)
    posix_dirname
    posix_resolve
    (lookup 0 ranks).

Definition vdi_dirs (files : list string) : list (path * list string) :=
  [("/vm/vdis", ["job"]); ("/vm/vdis/job", ["vdi"]); ("/vm/vdis/job/vdi", files)].

Definition vdi (file : string) : path := slash "/vm/vdis/job/vdi" file.

(** A base VHD that no record uses, and its child, which the record
    [/vm/b.json] uses and whose size the record gives as 100. *)
Definition merged_repository : World :=
  repository
    (("/vm", ["b.json"; "vdis"]) :: vdi_dirs ["A.vhd"; "B.vhd"])
    [(vdi "A.vhd", Opened 3 "uuid-a" EmptyString);
     (vdi "B.vhd", Opened 4 "uuid-b" "A.vhd")]
    []
    [("/vm/b.json",
      mkMetadata ModeDelta (Some 100%Z) EmptyString [("0", "vdis/job/vdi/B.vhd")])]
    [(vdi "B.vhd", ProbeVhdFile (Some 150%Z))]
    [].


(** Two differencing VHDs with the same parent, each used by a record. *)
Definition forked_repository : World :=
  repository
    (("/vm", ["b.json"; "c.json"; "vdis"]) :: vdi_dirs ["A.vhd"; "B.vhd"; "C.vhd"])
    [(vdi "A.vhd", Opened 3 "uuid-a" EmptyString);
     (vdi "B.vhd", Opened 4 "uuid-b" "A.vhd");
     (vdi "C.vhd", Opened 4 "uuid-c" "A.vhd")]
    []
    [("/vm/b.json",
      mkMetadata ModeDelta (Some 100%Z) EmptyString [("0", "vdis/job/vdi/B.vhd")]);
     ("/vm/c.json",
      mkMetadata ModeDelta (Some 100%Z) EmptyString [("0", "vdis/job/vdi/C.vhd")])]
    []
    [].

(** Four differencing VHDs: [A.vhd] names [B.vhd] as its parent, [B.vhd]
    names [C.vhd], [C.vhd] and [E.vhd] name [A.vhd].  They are opened in the
    order B, E, A, C, and a record uses [A.vhd] and [E.vhd]. *)
Definition cyclic_repository : World :=
  repository
    (("/vm", ["a.json"; "vdis"]) :: vdi_dirs ["A.vhd"; "B.vhd"; "C.vhd"; "E.vhd"])
    [(vdi "A.vhd", Opened 4 "uuid-a" "B.vhd");
     (vdi "B.vhd", Opened 4 "uuid-b" "C.vhd");
     (vdi "C.vhd", Opened 4 "uuid-c" "A.vhd");
     (vdi "E.vhd", Opened 4 "uuid-e" "A.vhd")]
    []
    [("/vm/a.json",
      mkMetadata ModeDelta None EmptyString
                 [("0", "vdis/job/vdi/A.vhd"); ("1", "vdis/job/vdi/E.vhd")])]
    []
    [(vdi "B.vhd", 0); (vdi "E.vhd", 1); (vdi "A.vhd", 2); (vdi "C.vhd", 3)].

(** Two VHDs with one UUID, the first of which contains all the data of the
    second. *)
Definition duplicated_repository : World :=
  repository
    (("/vm", ["vdis"]) :: vdi_dirs ["X.vhd"; "Y.vhd"])
    [(vdi "X.vhd", Opened 3 "uuid" EmptyString);
     (vdi "Y.vhd", Opened 3 "uuid" EmptyString)]
    [(vdi "X.vhd", vdi "Y.vhd")]
    []
    []
    [].

(** Two VHDs that no record uses, each of which names the other as its
    parent. *)
Definition looped_repository : World :=
  repository
    (("/vm", ["vdis"]) :: vdi_dirs ["A.vhd"; "B.vhd"])
    [(vdi "A.vhd", Opened 4 "uuid-a" "B.vhd");
     (vdi "B.vhd", Opened 4 "uuid-b" "A.vhd")]
    []
    []
    []
    [].

(** A record whose mode is neither [full] nor [delta], and which gives a
    size. *)
Definition unknown_repository : World :=
  repository
    [("/vm", ["u.json"])]
    []
    []
    [("/vm/u.json", mkMetadata ModeOther (Some 7%Z) EmptyString [])]
    []
    [].

(** A base VHD with the state of an interrupted merge, and its child, which
    a record uses. *)
Definition interrupted_repository : World :=
  repository
    (("/vm", ["b.json"; "vdis"]) :: vdi_dirs ["A.vhd"; "B.vhd"; ".A.vhd.merge.json"])
    [(vdi "A.vhd", Opened 3 "uuid-a" EmptyString);
     (vdi "B.vhd", Opened 4 "uuid-b" "A.vhd")]
    []
    [("/vm/b.json",
      mkMetadata ModeDelta (Some 100%Z) EmptyString [("0", "vdis/job/vdi/B.vhd")])]
    [(vdi "B.vhd", ProbeVhdFile (Some 150%Z))]
    [].

(** A collection of one item with two children. *)
Definition sample_collection : list (ItemType nat nat) :=
  [mkItem
          (Some [mkItem None "ida" 1 None None;
                 mkItem (Some []) "idb" 2 (Some "/b") (Some 0)])
          "idA" 0 (Some "/routeA") (Some 5)].

(** * Properties *)

(** ** Sets, maps and folds *)

Lemma set_has_In x s : JsSet.has x s = true <-> In x s.
Proof.
  unfold JsSet.has. rewrite existsb_exists. split.
  - intros (y & Hy & E). apply String.eqb_eq in E. now subst.
  - intros H. exists x. split; [assumption | apply String.eqb_refl].
Qed.

Lemma set_has_not_In x s : JsSet.has x s = false <-> ~ In x s.
Proof.
  rewrite <- set_has_In. destruct (JsSet.has x s); split; congruence.
Qed.

Lemma set_delete_In x y s : In y (JsSet.delete x s) <-> In y s /\ y <> x.
Proof.
  unfold JsSet.delete. rewrite filter_In, negb_true_iff, String.eqb_neq.
  split; intros [H1 H2]; split; auto.
Qed.

Lemma set_delete_NoDup x s : NoDup s -> NoDup (JsSet.delete x s).
Proof. apply NoDup_filter. Qed.

Lemma set_add_In x y s : In y (JsSet.add x s) <-> In y s \/ y = x.
Proof.
  unfold JsSet.add. destruct (JsSet.has x s) eqn:E.
  - apply set_has_In in E. split; [auto | intros [H | ->]; assumption].
  - rewrite in_app_iff. simpl. intuition congruence.
Qed.

Lemma set_add_NoDup x s : NoDup s -> NoDup (JsSet.add x s).
Proof.
  intros H. unfold JsSet.add. destruct (JsSet.has x s) eqn:E; [assumption|].
  apply set_has_not_In in E.
  apply NoDup_app; [assumption | repeat constructor; simpl; tauto | ].
  intros a Ha [<- | []]. contradiction.
Qed.

Section MapFacts.

Context {V : Type}.
Implicit Types (m : JsMap.t V) (k : string) (v : V).

Lemma map_get_In k v m : JsMap.get k m = Some v -> In (k, v) m.
Proof.
  induction m as [|[k' v'] m IH]; simpl; [discriminate|].
  destruct (String.eqb k k') eqn:E.
  - apply String.eqb_eq in E. intros [= ->]. subst. now left.
  - intros H. right. now apply IH.
Qed.

Lemma map_get_key k v m : JsMap.get k m = Some v -> In k (JsMap.keys m).
Proof.
  intros H. apply map_get_In in H. apply (in_map fst) in H. exact H.
Qed.

Lemma map_get_None k m : JsMap.get k m = None <-> ~ In k (JsMap.keys m).
Proof.
  induction m as [|[k' v'] m IH]; simpl; [tauto|].
  destruct (String.eqb k k') eqn:E.
  - apply String.eqb_eq in E. subst. split; [discriminate | tauto].
  - apply String.eqb_neq in E. rewrite IH. split; [intros H [H'|H']|]; auto.
Qed.

Lemma map_In_get k v m : NoDup (JsMap.keys m) -> In (k, v) m -> JsMap.get k m = Some v.
Proof.
  induction m as [|[k' v'] m IH]; simpl; [tauto|].
  intros Hnd [[= -> ->] | Hin].
  - now rewrite String.eqb_refl.
  - inversion Hnd as [|? ? Hk Hnd']; subst.
    destruct (String.eqb k k') eqn:E.
    + apply String.eqb_eq in E. subst. exfalso. apply Hk.
      apply (in_map fst) in Hin. exact Hin.
    + now apply IH.
Qed.

Lemma map_has_get k m : JsMap.has k m = true <-> exists v, JsMap.get k m = Some v.
Proof.
  unfold JsMap.has. destruct (JsMap.get k m); split; try discriminate; eauto.
  intros [v [=]].
Qed.

Lemma map_has_key k m : JsMap.has k m = true <-> In k (JsMap.keys m).
Proof.
  unfold JsMap.has. destruct (JsMap.get k m) eqn:E.
  - split; [intros _; eapply map_get_key; eassumption | reflexivity].
  - apply map_get_None in E. split; [discriminate | contradiction].
Qed.

Lemma map_get_set_same k v m : JsMap.get k (JsMap.set k v m) = Some v.
Proof.
  induction m as [|[k' v'] m IH]; simpl.
  - now rewrite String.eqb_refl.
  - destruct (String.eqb k k') eqn:E; simpl.
    + now rewrite String.eqb_refl.
    + now rewrite E.
Qed.

Lemma map_get_set_other k k' v m :
  k <> k' -> JsMap.get k (JsMap.set k' v m) = JsMap.get k m.
Proof.
  intros Hne. induction m as [|[k0 v0] m IH]; simpl.
  - apply String.eqb_neq in Hne. now rewrite Hne.
  - destruct (String.eqb k' k0) eqn:E; simpl.
    + apply String.eqb_eq in E. subst k0.
      apply String.eqb_neq in Hne. now rewrite Hne.
    + now rewrite IH.
Qed.

Lemma map_get_delete_same k m : JsMap.get k (JsMap.delete k m) = None.
Proof.
  induction m as [|[k' v'] m IH]; simpl; [reflexivity|].
  destruct (String.eqb k k') eqn:E; simpl; [assumption|]. now rewrite E.
Qed.

Lemma map_get_delete_other k k' m :
  k <> k' -> JsMap.get k (JsMap.delete k' m) = JsMap.get k m.
Proof.
  intros Hne. induction m as [|[k0 v0] m IH]; simpl; [reflexivity|].
  destruct (String.eqb k' k0) eqn:E; simpl.
  - apply String.eqb_eq in E. subst k0.
    apply String.eqb_neq in Hne. now rewrite Hne.
  - now rewrite IH.
Qed.

Lemma map_keys_set k v m :
  JsMap.keys (JsMap.set k v m)
  = if JsMap.has k m then JsMap.keys m else JsMap.keys m ++ [k].
Proof.
  unfold JsMap.has.
  induction m as [|[k' v'] m IH]; simpl; [reflexivity|].
  destruct (String.eqb k k') eqn:E; simpl.
  - apply String.eqb_eq in E. now subst.
  - rewrite IH. now destruct (JsMap.get k m).
Qed.

Lemma map_set_NoDup k v m : NoDup (JsMap.keys m) -> NoDup (JsMap.keys (JsMap.set k v m)).
Proof.
  intros H. rewrite map_keys_set. destruct (JsMap.has k m) eqn:E; [assumption|].
  assert (Hk : ~ In k (JsMap.keys m)).
  { rewrite <- map_has_key. congruence. }
  apply NoDup_app; [assumption | repeat constructor; simpl; tauto | ].
  intros a Ha [<- | []]. contradiction.
Qed.

Lemma map_keys_delete k k' m :
  In k (JsMap.keys (JsMap.delete k' m)) <-> In k (JsMap.keys m) /\ k <> k'.
Proof.
  rewrite <- !map_has_key. unfold JsMap.has.
  destruct (String.eqb k k') eqn:E.
  - apply String.eqb_eq in E. subst. rewrite map_get_delete_same.
    split; [discriminate | tauto].
  - apply String.eqb_neq in E. rewrite map_get_delete_other by assumption.
    tauto.
Qed.

Lemma map_delete_NoDup k m : NoDup (JsMap.keys m) -> NoDup (JsMap.keys (JsMap.delete k m)).
Proof.
  induction m as [|[k' v'] m IH]; simpl; [auto|].
  intros Hnd. inversion Hnd as [|? ? Hk Hnd']; subst.
  destruct (String.eqb k k'); simpl; [auto|].
  constructor; [|auto].
  intros Hin. apply Hk. now apply (map_keys_delete k' k m).
Qed.

End MapFacts.

Lemma foldT_app {A S} (f : S -> A -> S * trace) s l1 l2 :
  foldT f s (l1 ++ l2)
  = (fst (foldT f (fst (foldT f s l1)) l2),
     snd (foldT f s l1) ++ snd (foldT f (fst (foldT f s l1)) l2)).
Proof.
  revert s. induction l1 as [|a l1 IH]; intros s; simpl.
  - now destruct (foldT f s l2).
  - destruct (f s a) as [s1 t1]. rewrite IH.
    destruct (foldT f s1 l1) as [s2 t2]. simpl.
    now rewrite app_assoc.
Qed.

(** An invariant of the state and a property of the events carry over a
    fold. *)
Lemma foldT_ind {A S} (f : S -> A -> S * trace) (I : S -> Prop) (P : Event -> Prop) l :
  (forall s a, In a l -> I s -> I (fst (f s a)) /\ Forall P (snd (f s a))) ->
  forall s, I s -> I (fst (foldT f s l)) /\ Forall P (snd (foldT f s l)).
Proof.
  induction l as [|a l IH]; intros Hf s Hs; simpl.
  - split; [assumption | constructor].
  - destruct (Hf s a (or_introl eq_refl) Hs) as [H1 H2].
    destruct (f s a) as [s1 t1]. simpl in *.
    destruct (IH (fun s a Ha => Hf s a (or_intror Ha)) s1 H1) as [H3 H4].
    destruct (foldT f s1 l) as [s2 t2]. simpl in *.
    split; [assumption | now apply Forall_app].
Qed.

Lemma foldT_events {A S} (f : S -> A -> S * trace) (P : Event -> Prop) l s :
  (forall s a, Forall P (snd (f s a))) -> Forall P (snd (foldT f s l)).
Proof.
  intros Hf.
  apply (foldT_ind f (fun _ => True) P l); [|exact I].
  intros s' a _ _. split; [exact I | apply Hf].
Qed.

(** ** The order of completion is a permutation *)

Lemma insert_by_perm rank x l : Permutation (x :: l) (insert_by rank x l).
Proof.
  induction l as [|y l IH]; simpl; [reflexivity|].
  destruct (Nat.leb (rank x) (rank y)); [reflexivity|].
  rewrite perm_swap. now constructor.
Qed.

Lemma asyncOrder_perm rank l : Permutation l (asyncOrder rank l).
Proof.
  unfold asyncOrder. induction l as [|x l IH]; simpl; [constructor|].
  rewrite <- insert_by_perm. now constructor.
Qed.

Lemma asyncOrder_In rank l x : In x (asyncOrder rank l) <-> In x l.
Proof.
  split; apply Permutation_in;
    [apply Permutation_sym|]; apply asyncOrder_perm.
Qed.

Lemma asyncOrder_NoDup rank l : NoDup l -> NoDup (asyncOrder rank l).
Proof. apply Permutation_NoDup, asyncOrder_perm. Qed.

(** Every order of the items is the order of completion of some world. *)
Lemma insert_by_In rank x l y : In y (insert_by rank x l) <-> y = x \/ In y l.
Proof.
  split.
  - intros H. apply (Permutation_in _ (Permutation_sym (insert_by_perm rank x l))) in H.
    destruct H; auto.
  - intros H. apply (Permutation_in _ (insert_by_perm rank x l)).
    destruct H; [left | right]; auto.
Qed.

Lemma insert_by_sorted rank x l :
  StronglySorted (fun a b => rank a < rank b) l ->
  (forall y, In y l -> rank x <> rank y) ->
  StronglySorted (fun a b => rank a < rank b) (insert_by rank x l).
Proof.
  induction 1 as [|y l Hl IH Hy]; intros Hx; simpl.
  - repeat constructor.
  - destruct (Nat.leb_spec (rank x) (rank y)) as [Hle | Hlt].
    + assert (Hxy : rank x < rank y).
      { specialize (Hx y (or_introl eq_refl)). lia. }
      constructor; [now constructor|].
      constructor; [assumption|].
      rewrite Forall_forall in *. intros z Hz. specialize (Hy z Hz). lia.
    + constructor.
      * apply IH. intros z Hz. apply Hx. now right.
      * apply Forall_forall. intros z Hz. apply insert_by_In in Hz.
        destruct Hz as [-> | Hz]; [assumption|].
        rewrite Forall_forall in Hy. now apply Hy.
Qed.

Lemma sorted_unique rank (l1 : list string) : forall l2,
  StronglySorted (fun a b => rank a < rank b) l1 ->
  StronglySorted (fun a b => rank a < rank b) l2 ->
  (forall x, In x l1 <-> In x l2) ->
  l1 = l2.
Proof.
  induction l1 as [|a l1 IH]; intros l2 H1 H2 Hin.
  - destruct l2 as [|b l2]; [reflexivity|].
    exfalso. apply (Hin b). now left.
  - destruct l2 as [|b l2]; [exfalso; apply (Hin a); now left|].
    inversion H1 as [|? ? H1' Ha]; subst. inversion H2 as [|? ? H2' Hb]; subst.
    rewrite Forall_forall in Ha, Hb.
    assert (a = b).
    { destruct (proj1 (Hin a) (or_introl eq_refl)) as [E | Hab]; [now symmetry|].
      destruct (proj2 (Hin b) (or_introl eq_refl)) as [E | Hba]; [assumption|].
      specialize (Ha b Hba). specialize (Hb a Hab). lia. }
    subst b. f_equal. apply IH; try assumption.
    intros x. split; intros Hx.
    + destruct (proj1 (Hin x) (or_intror Hx)) as [<- | H]; [|assumption].
      specialize (Ha a Hx). lia.
    + destruct (proj2 (Hin x) (or_intror Hx)) as [<- | H]; [|assumption].
      specialize (Hb a Hx). lia.
Qed.

Lemma sorted_among {A} (R R' : A -> A -> Prop) l :
  StronglySorted R l ->
  (forall a b, In a l -> In b l -> R a b -> R' a b) ->
  StronglySorted R' l.
Proof.
  induction 1 as [|z l Hl IH Hz]; intros Hmono; constructor.
  - apply IH. intros a b Ha Hb. apply Hmono; now right.
  - rewrite Forall_forall in *. intros b Hb.
    apply Hmono; [now left | now right | now apply Hz].
Qed.

Lemma position_sorted l :
  NoDup l -> StronglySorted (fun a b => position a l < position b l) l.
Proof.
  induction 1 as [|y l Hy Hl IH]; [constructor|].
  constructor.
  - apply (sorted_among _ _ l IH). intros a b Ha Hb Hlt. simpl.
    destruct (String.eqb a y) eqn:Ea; [apply String.eqb_eq in Ea; now subst|].
    destruct (String.eqb b y) eqn:Eb; [apply String.eqb_eq in Eb; now subst|].
    lia.
  - apply Forall_forall. intros b Hb. simpl. rewrite String.eqb_refl.
    destruct (String.eqb b y) eqn:Eb; [|lia].
    apply String.eqb_eq in Eb. now subst.
Qed.

Lemma position_injective l a b :
  In a l -> In b l -> position a l = position b l -> a = b.
Proof.
  induction l as [|y l IH]; simpl; [tauto|].
  intros Ha Hb.
  destruct (String.eqb a y) eqn:Ea; destruct (String.eqb b y) eqn:Eb.
  - apply String.eqb_eq in Ea, Eb. congruence.
  - discriminate.
  - discriminate.
  - apply String.eqb_neq in Ea, Eb. intros H.
    apply IH; [destruct Ha | destruct Hb |]; congruence.
Qed.

Lemma asyncOrder_any l order :
  NoDup l -> Permutation l order ->
  asyncOrder (fun x => position x order) l = order.
Proof.
  intros Hnd Hperm.
  assert (Hnd' : NoDup order) by (eapply Permutation_NoDup; eassumption).
  apply sorted_unique with (rank := fun x => position x order).
  - assert (Hin : forall x, In x l -> In x order)
      by (intros x; now apply Permutation_in).
    clear Hperm. unfold asyncOrder.
    induction Hnd as [|x l Hx Hnd IH]; simpl; [constructor|].
    apply insert_by_sorted.
    + apply IH. intros y Hy. apply Hin. now right.
    + intros y Hy E.
      assert (Hy' : In y l).
      { apply (asyncOrder_In (fun x => position x order)). exact Hy. }
      apply position_injective in E; [congruence | |]; apply Hin; [now left | now right].
  - now apply position_sorted.
  - intros x. rewrite asyncOrder_In. split; apply Permutation_in;
      [assumption | now apply Permutation_sym].
Qed.

(** ** Merge states of missing VHDs (lines 248-263) *)

Lemma checkMergeStates_get remove V l : forall (m : JsMap.t path) k,
  JsMap.get k (fst (foldT (checkMergeState remove V) m l))
  = if existsb (String.eqb k) l && negb (JsSet.has k V) then None else JsMap.get k m.
Proof.
  induction l as [|a l IH]; intros m k; simpl; [reflexivity|].
  unfold checkMergeState at 1.
  destruct (JsSet.has a V) eqn:Ha; simpl.
  - specialize (IH m k).
    destruct (foldT (checkMergeState remove V) m l) as [m' t']. simpl in *.
    rewrite IH. destruct (String.eqb k a) eqn:E; simpl; [|reflexivity].
    apply String.eqb_eq in E. subst a. rewrite Ha. simpl.
    now destruct (existsb (String.eqb k) l).
  - specialize (IH (JsMap.delete a m) k).
    destruct (foldT (checkMergeState remove V) (JsMap.delete a m) l) as [m' t'].
    simpl in *. rewrite IH.
    destruct (String.eqb k a) eqn:E; simpl.
    + apply String.eqb_eq in E. subst a. rewrite Ha. simpl.
      rewrite map_get_delete_same. now destruct (existsb (String.eqb k) l).
    + apply String.eqb_neq in E. now rewrite map_get_delete_other.
Qed.

Lemma checkMergeStates_calls remove V l : forall (m : JsMap.t path) o,
  NoDup l ->
  In (Call o) (snd (foldT (checkMergeState remove V) m l)) <->
  remove = true /\
  exists k, In k l /\ ~ In k V /\ o = OpUnlink (js_key (JsMap.get k m)).
Proof.
  induction l as [|a l IH]; intros m o Hnd; simpl.
  - split; [tauto | intros (_ & k & [] & _)].
  - inversion Hnd as [|? ? Ha Hnd']; subst.
    unfold checkMergeState at 1.
    destruct (JsSet.has a V) eqn:HaV; simpl.
    + specialize (IH m o Hnd').
      destruct (foldT (checkMergeState remove V) m l) as [m' t']. simpl in *.
      rewrite IH. apply set_has_In in HaV.
      split; intros (Hr & k & Hk & HkV & Ho); (split; [assumption|]);
        exists k; repeat split; auto.
      destruct Hk as [-> | Hk]; [contradiction | assumption].
    + specialize (IH (JsMap.delete a m) o Hnd').
      destruct (foldT (checkMergeState remove V) (JsMap.delete a m) l) as [m' t'].
      simpl in *. apply set_has_not_In in HaV.
      split.
      * intros [[=] | H].
        apply in_app_iff in H. destruct H as [H | H].
        -- destruct remove; simpl in H; [|contradiction].
           destruct H as [[=] | [[= <-] | []]].
           split; [reflexivity|]. exists a. auto.
        -- apply IH in H. destruct H as (Hr & k & Hk & HkV & Ho).
           split; [assumption|]. exists k. repeat split; auto.
           rewrite map_get_delete_other in Ho; [assumption|].
           intros ->. contradiction.
      * intros (Hr & k & [<- | Hk] & HkV & Ho); right; apply in_app_iff.
        -- left. subst. simpl. auto.
        -- right. apply IH. split; [assumption|]. exists k. repeat split; auto.
           rewrite map_get_delete_other; [assumption|].
           intros ->. contradiction.
Qed.

Lemma mergeInterrupted_get ch l : forall (m : JsMap.t (option chain)) k,
  JsMap.get k
    (fold_left (fun m parent => JsMap.set parent (Some (interruptedChain ch parent)) m) l m)
  = if existsb (String.eqb k) l then Some (Some (interruptedChain ch k))
    else JsMap.get k m.
Proof.
  induction l as [|a l IH]; intros m k; simpl; [reflexivity|].
  rewrite IH. destruct (String.eqb k a) eqn:E; simpl.
  - apply String.eqb_eq in E. subst a.
    rewrite map_get_set_same. now destruct (existsb (String.eqb k) l).
  - apply String.eqb_neq in E. now rewrite map_get_set_other.
Qed.

Lemma existsb_eqb_In k l : existsb (String.eqb k) l = true <-> In k l.
Proof. exact (set_has_In k l). Qed.

(** C9.  A merge state whose VHD is no longer in the active set is taken out
    of [interruptedVhds], so that the loop of lines 432-434 does not force a
    chain for it, and its file is unlinked exactly when [remove] is set; a
    merge state whose VHD is still active is kept; the stage issues no other
    call. *)
Theorem orphan_merge_states_removed (remove : bool) (V : JsSet.t) (I : JsMap.t path) :
  NoDup (JsMap.keys I) ->
  (forall k statePath,
      JsMap.get k I = Some statePath -> ~ In k V ->
      JsMap.get k (fst (checkMergeStates remove V I)) = None
      /\ (forall ch m,
             JsMap.get k (mergeInterrupted (fst (checkMergeStates remove V I)) ch m)
             = JsMap.get k m)
      /\ (In (Call (OpUnlink statePath)) (snd (checkMergeStates remove V I))
          <-> remove = true))
  /\ (forall k statePath,
         JsMap.get k I = Some statePath -> In k V ->
         JsMap.get k (fst (checkMergeStates remove V I)) = Some statePath)
  /\ (forall o,
         In (Call o) (snd (checkMergeStates remove V I)) ->
         remove = true
         /\ exists k statePath,
              JsMap.get k I = Some statePath /\ ~ In k V /\ o = OpUnlink statePath).
Proof.
  intros Hnd. unfold checkMergeStates.
  assert (Hcalls : forall o,
             In (Call o) (snd (foldT (checkMergeState remove V) I (JsMap.keys I))) ->
             remove = true
             /\ exists k statePath,
                  JsMap.get k I = Some statePath /\ ~ In k V /\ o = OpUnlink statePath).
  { intros o Ho. apply checkMergeStates_calls in Ho; [|assumption].
    destruct Ho as (Hr & k & Hk & HkV & ->). split; [assumption|].
    apply map_has_key, map_has_get in Hk. destruct Hk as [sp Hsp].
    exists k, sp. rewrite Hsp. auto. }
  split; [|split].
  - intros k sp Hget HkV.
    assert (Hnone : JsMap.get k (fst (foldT (checkMergeState remove V) I (JsMap.keys I)))
                    = None).
    { rewrite checkMergeStates_get.
      assert (E1 : existsb (String.eqb k) (JsMap.keys I) = true).
      { apply existsb_eqb_In. eapply map_get_key. eassumption. }
      apply set_has_not_In in HkV. now rewrite E1, HkV. }
    split; [assumption | split].
    + intros ch m. unfold mergeInterrupted. rewrite mergeInterrupted_get.
      destruct (existsb _ _) eqn:E; [|reflexivity].
      apply existsb_eqb_In, map_get_None in E; [contradiction | assumption].
    + split.
      * intros H. now apply Hcalls in H.
      * intros Hr. apply checkMergeStates_calls; [assumption|].
        split; [assumption|]. exists k. rewrite Hget. simpl.
        repeat split; auto. eapply map_get_key. eassumption.
  - intros k sp Hget HkV. rewrite checkMergeStates_get.
    apply set_has_In in HkV. rewrite HkV. simpl.
    now rewrite andb_false_r.
  - exact Hcalls.
Qed.

Lemma foldT_In_inv {A S} (f : S -> A -> S * trace) l e : forall s,
  In e (snd (foldT f s l)) -> exists s' a, In a l /\ In e (snd (f s' a)).
Proof.
  induction l as [|a l IH]; intros s; simpl; [tauto|].
  destruct (f s a) as [s1 t1] eqn:E1.
  specialize (IH s1). destruct (foldT f s1 l) as [s2 t2]. simpl in *.
  intros H. apply in_app_iff in H. destruct H as [H | H].
  - exists s, a. rewrite E1. auto.
  - destruct (IH H) as (s' & a' & Ha' & He). exists s', a'. auto.
Qed.

Lemma foldT_In_intro {A S} (f : S -> A -> S * trace) l e a :
  In a l -> (forall s, In e (snd (f s a))) -> forall s, In e (snd (foldT f s l)).
Proof.
  intros Ha Hf. induction l as [|b l IH]; intros s; simpl; [contradiction|].
  destruct (f s b) as [s1 t1] eqn:E1.
  destruct Ha as [-> | Ha].
  - specialize (Hf s). rewrite E1 in Hf. simpl in Hf.
    destruct (foldT f s1 l). simpl. apply in_app_iff. now left.
  - specialize (IH Ha s1). destruct (foldT f s1 l). simpl in *.
    apply in_app_iff. now right.
Qed.

(** What one step establishes and every step keeps holds at the end. *)
Lemma foldT_after {A S} (f : S -> A -> S * trace) (Q : S -> Prop) l a :
  In a l ->
  (forall s, Q (fst (f s a))) ->
  (forall s b, Q s -> Q (fst (f s b))) ->
  forall s, Q (fst (foldT f s l)).
Proof.
  intros Ha Hest Hkeep.
  assert (Hall : forall l s, Q s -> Q (fst (foldT f s l))).
  { clear Ha. intros l'. induction l' as [|b l' IH]; intros s Hs; simpl; [assumption|].
    specialize (Hkeep s b Hs). destruct (f s b) as [s1 t1].
    specialize (IH s1 Hkeep). now destruct (foldT f s1 l'). }
  induction l as [|b l IH]; intros s; simpl; [contradiction|].
  destruct Ha as [-> | Ha].
  - specialize (Hest s). destruct (f s a) as [s1 t1].
    specialize (Hall l s1 Hest). now destruct (foldT f s1 l).
  - destruct (f s b) as [s1 t1]. specialize (IH Ha s1).
    now destruct (foldT f s1 l).
Qed.

Lemma foldT_split_fst {A S} (f : S -> A -> S * trace) s l1 a l2 :
  fst (foldT f s (l1 ++ a :: l2))
  = fst (foldT f (fst (f (fst (foldT f s l1)) a)) l2).
Proof.
  rewrite foldT_app. simpl.
  destruct (f (fst (foldT f s l1)) a) as [s1 t1]. simpl.
  now destruct (foldT f s1 l2).
Qed.

Lemma foldT_split_snd {A S} (f : S -> A -> S * trace) s l1 a l2 e :
  In e (snd (f (fst (foldT f s l1)) a)) -> In e (snd (foldT f s (l1 ++ a :: l2))).
Proof.
  intros H. rewrite foldT_app. simpl. apply in_app_iff. right.
  destruct (f (fst (foldT f s l1)) a) as [s1 t1]. simpl in *.
  destruct (foldT f s1 l2). simpl. apply in_app_iff. now left.
Qed.

Lemma foldT_keeps {A S} (f : S -> A -> S * trace) (Q : S -> Prop) l :
  (forall s b, Q s -> Q (fst (f s b))) -> forall s, Q s -> Q (fst (foldT f s l)).
Proof.
  intros Hkeep. induction l as [|b l IH]; intros s Hs; simpl; [assumption|].
  specialize (Hkeep s b Hs). destruct (f s b) as [s1 t1].
  specialize (IH s1 Hkeep). now destruct (foldT f s1 l).
Qed.

(** ** Opening the VHDs (lines 203-246) *)

Section OpenStage.

Variable w : World.
Variable remove : bool.
Variable interruptedVhds : JsMap.t path.

Local Abbreviation flag p := (negb (JsMap.has p interruptedVhds)).

Lemma dedupe_calls g vhd o : ~ In (Call o) (snd (dedupe w g vhd)).
Proof.
  unfold dedupe. destruct (JsMap.get _ _); simpl; [|tauto].
  repeat (match goal with |- context [if ?b then _ else _] => destruct b end);
    simpl; intuition discriminate.
Qed.

Lemma checkFailed_calls g p error o :
  In (Call o) (snd (checkFailed remove g p error)) ->
  o = OpVhdUnlink p /\ remove = true /\ error_code error = Some "ERR_ASSERTION".
Proof.
  unfold checkFailed. simpl. intros [[=] | H].
  destruct (error_code error) as [code|]; [|contradiction].
  destruct (String.eqb code "ERR_ASSERTION") eqn:E; simpl in H; [|contradiction].
  destruct remove; simpl in H; [|contradiction].
  apply String.eqb_eq in E. subst.
  destruct H as [[=] | [[= <-] | []]]. auto.
Qed.

Lemma checkVhd_calls g a o :
  In (Call o) (snd (checkVhd w remove interruptedVhds g a)) ->
  o = OpVhdUnlink a /\ remove = true
  /\ openVhd w a (flag a) = OpenFailed (Some "ERR_ASSERTION").
Proof.
  unfold checkVhd.
  destruct (openVhd w a _) as [dt uuid pname | code].
  - destruct (N.eqb dt (DIFFERENCING w)).
    + simpl. destruct (JsMap.get _ (vhdChildren g)).
      * intros H. apply checkFailed_calls in H. simpl in H.
        destruct H as (_ & _ & [=]).
      * intros H. now apply dedupe_calls in H.
    + intros H. now apply dedupe_calls in H.
  - intros H. apply checkFailed_calls in H. simpl in H.
    destruct H as (Ho & Hr & Hcode). subst o code. auto.
Qed.

Lemma dedupe_vhds_subset g vhd x :
  In x (vhds (fst (dedupe w g vhd))) -> In x (vhds g).
Proof.
  unfold dedupe. destruct (JsMap.get _ _); simpl; [|tauto].
  repeat (match goal with |- context [if ?b then _ else _] => destruct b end);
    simpl; rewrite ?set_delete_In; tauto.
Qed.

Lemma checkVhd_vhds_subset g a x :
  In x (vhds (fst (checkVhd w remove interruptedVhds g a))) -> In x (vhds g).
Proof.
  unfold checkVhd.
  destruct (openVhd w a _) as [dt uuid pname | code].
  - destruct (N.eqb dt (DIFFERENCING w)).
    + simpl. destruct (JsMap.get _ (vhdChildren g)).
      * simpl. rewrite set_delete_In. tauto.
      * intros H. now apply dedupe_vhds_subset in H.
    + apply dedupe_vhds_subset.
  - simpl. rewrite set_delete_In. tauto.
Qed.

Lemma checkVhd_failed_absent g p code :
  openVhd w p (flag p) = OpenFailed code ->
  ~ In p (vhds (fst (checkVhd w remove interruptedVhds g p))).
Proof.
  unfold checkVhd. intros ->. simpl. rewrite set_delete_In. tauto.
Qed.

(** C7.  Every VHD of the listing is opened once, and the check of the
    second footer is switched off exactly for the VHDs that have a merge
    state.  A VHD that cannot be opened is not in the active set afterwards;
    it is unlinked exactly when the error code is ERR_ASSERTION and [remove]
    is set, so after any other failure its file is not touched; the stage
    issues no other call. *)
Theorem open_failure_handling (vhds0 : JsSet.t) :
  (forall p checkSecondFooter,
      In (Call (OpOpenVhd p checkSecondFooter))
         (snd (checkVhds w remove interruptedVhds vhds0))
      <-> In p vhds0
          /\ checkSecondFooter = Some (negb (JsMap.has p interruptedVhds)))
  /\ (forall p code,
         In p vhds0 ->
         openVhd w p (negb (JsMap.has p interruptedVhds)) = OpenFailed code ->
         ~ In p (vhds (fst (checkVhds w remove interruptedVhds vhds0)))
         /\ (In (Call (OpVhdUnlink p)) (snd (checkVhds w remove interruptedVhds vhds0))
             <-> code = Some "ERR_ASSERTION" /\ remove = true))
  /\ (forall o,
         In (Call o) (snd (checkVhds w remove interruptedVhds vhds0)) ->
         (exists p, In p vhds0
                    /\ o = OpOpenVhd p (Some (negb (JsMap.has p interruptedVhds))))
         \/ (exists p, In p vhds0 /\ o = OpVhdUnlink p /\ remove = true
                       /\ openVhd w p (negb (JsMap.has p interruptedVhds))
                          = OpenFailed (Some "ERR_ASSERTION"))).
Proof.
  unfold checkVhds.
  destruct (foldT (checkVhd w remove interruptedVhds) (mkGraph vhds0 [] [] [])
                  (asyncOrder (completion w) vhds0)) as [g t] eqn:Efold.
  simpl.
  assert (Ht : forall o, In (Call o) t ->
             exists p, In p vhds0 /\ o = OpVhdUnlink p /\ remove = true
                       /\ openVhd w p (flag p) = OpenFailed (Some "ERR_ASSERTION")).
  { intros o Ho. replace t with (snd (foldT (checkVhd w remove interruptedVhds)
                    (mkGraph vhds0 [] [] []) (asyncOrder (completion w) vhds0)))
      in Ho by now rewrite Efold.
    apply foldT_In_inv in Ho. destruct Ho as (s' & a & Ha & Ho).
    apply asyncOrder_In in Ha. apply checkVhd_calls in Ho.
    exists a. tauto. }
  split; [|split].
  - intros p c. rewrite in_app_iff, in_map_iff. split.
    + intros [(q & [= -> <-] & Hq) | H]; [auto|].
      apply Ht in H. destruct H as (q & _ & [=] & _).
    + intros [Hp ->]. left. exists p. auto.
  - intros p code Hp Hopen. split.
    + replace g with (fst (foldT (checkVhd w remove interruptedVhds)
                    (mkGraph vhds0 [] [] []) (asyncOrder (completion w) vhds0)))
        by now rewrite Efold.
      apply foldT_after with (a := p).
      * now apply asyncOrder_In.
      * intros s. eapply checkVhd_failed_absent. eassumption.
      * intros s b Hs H. apply Hs. eapply checkVhd_vhds_subset. eassumption.
    + rewrite in_app_iff, in_map_iff. split.
      * intros [(q & [=] & _) | H].
        apply Ht in H. destruct H as (q & _ & [= <-] & Hr & Hq).
        rewrite Hopen in Hq. injection Hq as Hcode. auto.
      * intros [-> Hr]. right.
        replace t with (snd (foldT (checkVhd w remove interruptedVhds)
                    (mkGraph vhds0 [] [] []) (asyncOrder (completion w) vhds0)))
          by now rewrite Efold.
        apply foldT_In_intro with (a := p); [now apply asyncOrder_In|].
        intros s. unfold checkVhd. rewrite Hopen, Hr. simpl. auto.
  - intros o. rewrite in_app_iff, in_map_iff.
    intros [(q & [= <-] & Hq) | H]; [left; eauto|].
    right. apply Ht in H. exact H.
Qed.

End OpenStage.

(** ** The chains to merge (lines 387-441) *)

Lemma map_In_set {V} k v k' v' (m : JsMap.t V) :
  In (k', v') (JsMap.set k v m) -> (k', v') = (k, v) \/ In (k', v') m.
Proof.
  induction m as [|[k0 v0] m IH]; simpl.
  - intros [H | []]. now left.
  - destruct (String.eqb k k0); simpl.
    + intros [H | H]; [now left | now right; right].
    + intros [H | H]; [now right; left|].
      destruct (IH H); [now left | now right; right].
Qed.

Lemma map_In_delete {V} k k' v' (m : JsMap.t V) :
  In (k', v') (JsMap.delete k m) -> In (k', v') m.
Proof. unfold JsMap.delete. rewrite filter_In. tauto. Qed.

Lemma collectChains_In (m : JsMap.t (option chain)) c :
  In c (collectChains m) <-> exists k, In (k, Some c) m.
Proof.
  unfold collectChains, JsMap.values. rewrite in_flat_map. split.
  - intros (x & Hx & Hc). apply in_map_iff in Hx.
    destruct Hx as ([k v] & <- & Hkv). simpl in Hc.
    destruct v as [c'|]; [|contradiction].
    destruct Hc as [<- | []]. now exists k.
  - intros (k & Hk). exists (Some c). split; [|now left].
    apply in_map_iff. now exists (k, Some c).
Qed.

Lemma chains_inv_set k (r : option chain) m :
  chains_inv m ->
  (forall c, r = Some c -> 2 <= length c) ->
  chains_inv (JsMap.set k r m).
Proof.
  intros [Hnd Hlen] Hr. split; [now apply map_set_NoDup|].
  intros k' c H. apply map_In_set in H. destruct H as [[= -> <-] | H].
  - now apply Hr.
  - eapply Hlen. eassumption.
Qed.

Lemma chains_inv_delete k m : chains_inv m -> chains_inv (JsMap.delete k m).
Proof.
  intros [Hnd Hlen]. split; [now apply map_delete_NoDup|].
  intros k' c H. apply map_In_delete in H. eapply Hlen. eassumption.
Qed.

Section ChainStage.

Variable remove : bool.
Variable U : JsSet.t.               (* unusedVhds *)
Variable ch : JsMap.t path.         (* vhdChildren *)

Lemma getUsedChildChainOrDelete_length fuel : forall st vhd r st' t,
  getUsedChildChainOrDelete fuel remove U ch st vhd = Some (r, st', t) ->
  chains_inv (vhdChainsToMerge st) ->
  chains_inv (vhdChainsToMerge st')
  /\ forall c, r = Some c -> 1 <= length c /\ (In vhd U -> 2 <= length c).
Proof.
  induction fuel as [|fuel IH]; intros st vhd r st' t; simpl; [discriminate|].
  destruct (JsMap.get vhd (vhdChainsToMerge st)) as [stored|] eqn:Eget.
  - intros [= <- <- <-] Hinv. simpl. split; [now apply chains_inv_delete|].
    intros c ->. apply map_get_In in Eget. apply (proj2 Hinv) in Eget. lia.
  - destruct (JsSet.has vhd U) eqn:EU; simpl.
    + destruct (JsMap.get vhd ch) as [child|].
      * destruct (getUsedChildChainOrDelete fuel remove U ch _ child)
          as [[[[c'|] st2] t2]|] eqn:Erec; [| |discriminate].
        -- intros [= <- <- <-] Hinv.
           destruct (IH _ _ _ _ _ Erec Hinv) as [Hinv' Hc].
           split; [assumption|]. intros c [= <-].
           destruct (Hc c' eq_refl) as [H1 _]. simpl. lia.
        -- intros [= <- <- <-] Hinv.
           destruct (IH _ _ _ _ _ Erec Hinv) as [Hinv' _].
           split; [assumption | discriminate].
      * intros [= <- <- <-] Hinv. simpl. split; [assumption | discriminate].
    + intros [= <- <- <-] Hinv. split; [assumption|].
      intros c [= <-]. simpl. split; [lia|].
      intros H. apply set_has_not_In in EU. contradiction.
Qed.

Lemma forEachToCheck_inv fuel l : forall st st' t,
  (forall vhd, In vhd l -> In vhd U) ->
  forEachToCheck fuel remove U ch st l = (Some st', t) ->
  chains_inv (vhdChainsToMerge st) ->
  chains_inv (vhdChainsToMerge st').
Proof.
  induction l as [|vhd l IH]; intros st st' t Hl; simpl.
  - intros [= <- <-]. auto.
  - assert (Hl' : forall v, In v l -> In v U) by (intros v Hv; apply Hl; now right).
    destruct (JsSet.has vhd (toCheck st)).
    + destruct (getUsedChildChainOrDelete fuel remove U ch st vhd)
        as [[[r st1] t1]|] eqn:Erec; [|discriminate].
      destruct (forEachToCheck fuel remove U ch _ l) as [r2 t2] eqn:Erest.
      intros [= -> <-] Hinv.
      destruct (getUsedChildChainOrDelete_length _ _ _ _ _ _ Erec Hinv) as [Hinv1 Hr].
      eapply IH; [assumption | eassumption |]. simpl.
      apply chains_inv_set; [assumption|].
      intros c Hc. apply Hr; [assumption | apply Hl; now left].
    + intros H. eapply IH; eassumption.
Qed.

Lemma mergeInterrupted_inv I m :
  chains_inv m -> chains_inv (mergeInterrupted I ch m).
Proof.
  unfold mergeInterrupted. generalize (JsMap.keys I). intros l. revert m.
  induction l as [|a l IH]; intros m Hinv; simpl; [assumption|].
  apply IH. apply chains_inv_set; [assumption|].
  intros c [= <-]. simpl. lia.
Qed.

Lemma chainsByAncestor_inv fuel I m t :
  chainsByAncestor fuel remove U ch I = (Some m, t) -> chains_inv m.
Proof.
  unfold chainsByAncestor, usageChains.
  destruct (forEachToCheck fuel remove U ch _ U) as [[st|] t'] eqn:E; [|discriminate].
  intros [= <- <-]. apply mergeInterrupted_inv.
  eapply forEachToCheck_inv; [|eassumption|]; [auto|].
  simpl. split; [constructor | intros k c []].
Qed.

(** C4.  For every VHD that still has a merge state when the chains are
    computed, the dictionary of chains holds under that VHD the two-element
    chain [[vhdChildren[parent], parent]], whatever chain the walk over the
    unused VHDs had left there, and this chain is in [toMerge]. *)
Theorem interrupted_chain_forced fuel (I : JsMap.t path) m t parent :
  chainsByAncestor fuel remove U ch I = (Some m, t) ->
  In parent (JsMap.keys I) ->
  JsMap.get parent m = Some (Some [JsMap.get parent ch; Some parent])
  /\ (forall c, In (parent, Some c) m -> c = [JsMap.get parent ch; Some parent])
  /\ (forall toMerge,
         fst (chainsToMerge fuel remove U ch I) = Some toMerge ->
         In [JsMap.get parent ch; Some parent] toMerge).
Proof.
  intros Hm Hparent.
  assert (Hinv : chains_inv m) by (eapply chainsByAncestor_inv; eassumption).
  assert (Hget : JsMap.get parent m = Some (Some [JsMap.get parent ch; Some parent])).
  { revert Hm. unfold chainsByAncestor.
    destruct (usageChains fuel remove U ch) as [[st|] t']; [|discriminate].
    intros [= <- <-]. unfold mergeInterrupted. rewrite mergeInterrupted_get.
    apply existsb_eqb_In in Hparent. now rewrite Hparent. }
  split; [assumption | split].
  - intros c Hc. apply map_In_get in Hc; [|apply Hinv]. congruence.
  - intros toMerge. unfold chainsToMerge. rewrite Hm. simpl. intros [= <-].
    apply collectChains_In. exists parent. now apply map_get_In.
Qed.

End ChainStage.

Lemma toMerge_lengths fuel remove U ch I toMerge t :
  chainsToMerge fuel remove U ch I = (Some toMerge, t) ->
  Forall (fun c => 2 <= length c) toMerge.
Proof.
  unfold chainsToMerge.
  destruct (chainsByAncestor fuel remove U ch I) as [[m|] t'] eqn:E; [|discriminate].
  intros [= <- <-]. apply chainsByAncestor_inv in E.
  apply Forall_forall. intros c Hc.
  apply collectChains_In in Hc. destruct Hc as [k Hk].
  now apply (proj2 E) in Hk.
Qed.

(** C10.  No chain of [toMerge], whether it comes from the walk over the
    unused VHDs or from a merge state, is shorter than two, so that the
    assertion of [mergeVhdChain] holds for each of them. *)
Theorem toMerge_chains_length (w : World) fuel remove merge U ch I toMerge t :
  chainsToMerge fuel remove U ch I = (Some toMerge, t) ->
  Forall (fun c => 2 <= length c
                   /\ fst (mergeVhdChain w remove merge c) <> Rejected) toMerge.
Proof.
  intros H. apply toMerge_lengths in H. revert H.
  apply Forall_impl. intros c Hc. split; [assumption|].
  unfold mergeVhdChain.
  destruct (Nat.leb_spec 2 (length c)) as [_ | Hlt]; [|lia].
  destruct c as [|parent children]; [simpl in Hc; lia|].
  destruct merge; simpl; discriminate.
Qed.

(** ** VHDs with missing ancestors: unfolding and induction *)

Lemma map_delete_length {V} k v (m : JsMap.t V) :
  JsMap.get k m = Some v -> length (JsMap.delete k m) < length m.
Proof.
  assert (Hle : forall m' : JsMap.t V, length (JsMap.delete k m') <= length m').
  { intros m'. unfold JsMap.delete. apply filter_length_le. }
  induction m as [|[k' v'] m IH]; simpl; [discriminate|].
  destruct (String.eqb k k'); simpl.
  - intros _. specialize (Hle m). lia.
  - intros H. apply IH in H. lia.
Qed.

Lemma deleteIfOrphan_eq remove st vhdPath :
  deleteIfOrphan remove st vhdPath
  = match JsMap.get vhdPath (p_vhdParents st) with
    | None => (st, [])
    | Some parent =>
        orphanCheck remove vhdPath parent
          (deleteIfOrphan remove
             (mkPruning (p_vhds st) (JsMap.delete vhdPath (p_vhdParents st)))
             parent)
    end.
Proof.
  funelim (deleteIfOrphan remove st vhdPath);
    match goal with H : JsMap.get _ _ = _ |- _ => rewrite H end; reflexivity.
Qed.

Lemma deleteIfOrphan_induction remove (P : Pruning -> path -> Pruning * trace -> Prop) :
  (forall st vhdPath,
      JsMap.get vhdPath (p_vhdParents st) = None -> P st vhdPath (st, [])) ->
  (forall st vhdPath parent,
      JsMap.get vhdPath (p_vhdParents st) = Some parent ->
      let st1 := mkPruning (p_vhds st) (JsMap.delete vhdPath (p_vhdParents st)) in
      P st1 parent (deleteIfOrphan remove st1 parent) ->
      P st vhdPath (orphanCheck remove vhdPath parent (deleteIfOrphan remove st1 parent))) ->
  forall st vhdPath, P st vhdPath (deleteIfOrphan remove st vhdPath).
Proof.
  intros Hnone Hsome st.
  remember (length (p_vhdParents st)) as n eqn:En. revert st En.
  induction n as [n IH] using lt_wf_ind. intros st En vhdPath.
  rewrite deleteIfOrphan_eq.
  destruct (JsMap.get vhdPath (p_vhdParents st)) as [parent|] eqn:E.
  - apply Hsome; [assumption|].
    eapply IH; [|reflexivity]. subst n. simpl.
    eapply map_delete_length. eassumption.
  - now apply Hnone.
Qed.

(** ** Every change of the repository is asked for *)

Lemma gated_app b t1 t2 : gated b t1 -> gated b t2 -> gated b (t1 ++ t2).
Proof. intros H1 H2. apply Forall_app. now split. Qed.

Lemma gated_flat_map {A} b (f : A -> trace) l :
  (forall a, gated b (f a)) -> gated b (flat_map f l).
Proof.
  intros H. apply Forall_forall. intros e He. apply in_flat_map in He.
  destruct He as (a & _ & He). specialize (H a).
  unfold gated in H. rewrite Forall_forall in H. now apply H.
Qed.

Lemma gated_foldT {A S} b (f : S -> A -> S * trace) l s :
  (forall s a, gated b (snd (f s a))) -> gated b (snd (foldT f s l)).
Proof. apply foldT_events. Qed.

Lemma gated_quiet b t : (forall e, In e t -> mutates e = false) -> gated b t.
Proof.
  intros H. apply Forall_forall. intros e He Hm. rewrite (H e He) in Hm. discriminate.
Qed.

Lemma gated_weaken b b' t : (b = true -> b' = true) -> gated b t -> gated b' t.
Proof.
  intros Hb. apply Forall_impl. auto.
Qed.

Section Gates.

Variable w : World.

Lemma listVhds_gated b vmDir : gated b (snd (listVhds w vmDir)).
Proof.
  apply gated_quiet. unfold listVhds.
  destruct (foldT (listJobDir w) _ _) as [st t] eqn:E. simpl.
  intros e [<- | He]; [reflexivity|].
  replace t with (snd (foldT (listJobDir w) (mkListing [] [] [])
                             (handler_list_prepend w (slash vmDir "vdis")))) in He
    by now rewrite E.
  apply foldT_In_inv in He. destruct He as (s1 & jobDir & _ & He).
  unfold listJobDir in He.
  destruct (foldT (listVdiDir w) s1 _) as [st' t'] eqn:E'. simpl in He.
  destruct He as [<- | He]; [reflexivity|].
  replace t' with (snd (foldT (listVdiDir w) s1 (handler_list_prepend w jobDir))) in He
    by now rewrite E'.
  apply foldT_In_inv in He. destruct He as (s2 & vdiDir & _ & He).
  simpl in He. destruct He as [<- | []]. reflexivity.
Qed.

Lemma checkVhds_gated remove I vhds0 : gated remove (snd (checkVhds w remove I vhds0)).
Proof.
  unfold checkVhds.
  destruct (foldT (checkVhd w remove I) _ _) as [g t] eqn:E. simpl.
  apply gated_app.
  - apply gated_quiet. intros e He. apply in_map_iff in He.
    destruct He as (p & <- & _). reflexivity.
  - replace t with (snd (foldT (checkVhd w remove I) (mkGraph vhds0 [] [] [])
                               (asyncOrder (completion w) vhds0)))
      by now rewrite E.
    apply gated_foldT. intros s a. apply Forall_forall. intros e He Hm.
    destruct e as [o| |]; try discriminate.
    apply checkVhd_calls in He. tauto.
Qed.

Lemma checkMergeStates_gated remove V I :
  gated remove (snd (checkMergeStates remove V I)).
Proof.
  apply gated_foldT. intros s a. unfold checkMergeState.
  destruct remove; gated_auto.
Qed.

Lemma checkAliases_gated remove aliasPaths dir :
  gated remove (snd (foldT (checkAlias w remove) [] aliasPaths))
  /\ gated remove (checkAliases w remove aliasPaths dir).
Proof.
  assert (H : gated remove (snd (foldT (checkAlias w remove) [] aliasPaths))).
  { apply gated_foldT. intros s a. unfold checkAlias.
    destruct remove; gated_auto. }
  split; [assumption|].
  unfold checkAliases. destruct (foldT (checkAlias w remove) [] aliasPaths) as [found t].
  simpl in H. apply gated_app; [assumption|].
  constructor; [discriminate|].
  apply gated_flat_map. intros p. unfold checkUnaliased.
  destruct remove; gated_auto.
Qed.

Lemma checkAllAliases_gated remove aliases :
  gated remove (checkAllAliases w remove aliases).
Proof.
  apply gated_flat_map. intros dir. apply checkAliases_gated.
Qed.

Lemma deleteIfOrphan_gated remove st vhdPath :
  gated remove (snd (deleteIfOrphan remove st vhdPath)).
Proof.
  apply (deleteIfOrphan_induction remove (fun _ _ r => gated remove (snd r))).
  - intros. constructor.
  - intros st0 v parent _ st1 IH. unfold orphanCheck.
    destruct (deleteIfOrphan remove st1 parent) as [st2 t2]. simpl in IH.
    destruct (JsSet.has parent (p_vhds st2)); simpl; [assumption|].
    apply gated_app; [assumption|]. destruct remove; gated_auto.
Qed.

Lemma pruneOrphans_gated remove V P : gated remove (snd (pruneOrphans remove V P)).
Proof.
  apply gated_foldT. intros s a. unfold pruneStep.
  destruct (JsMap.has a (p_vhdParents s)); [apply deleteIfOrphan_gated | constructor].
Qed.

Lemma checkMetadatas_gated remove vmDir V entries :
  gated remove (snd (checkMetadatas w remove vmDir V entries)).
Proof.
  unfold checkMetadatas.
  destruct (foldT (checkMetadata w remove vmDir V (e_xvas entries)) _ _)
    as [st t] eqn:E. simpl.
  apply gated_app.
  - apply gated_quiet. intros e He. apply in_map_iff in He.
    destruct He as (p & <- & _). reflexivity.
  - replace t with (snd (foldT (checkMetadata w remove vmDir V (e_xvas entries))
                               (mkRefs (e_jsons entries) V (e_xvas entries) [])
                               (asyncOrder (completion w) (e_jsons entries))))
      by now rewrite E.
    apply gated_foldT. intros s a. unfold checkMetadata, incompleteBackup.
    destruct remove; gated_auto.
Qed.

Lemma unusedVhd_gated remove vhd : gated remove (unusedVhd remove vhd).
Proof. unfold unusedVhd. destruct remove; gated_auto. Qed.

Lemma getUsedChildChainOrDelete_gated fuel remove U ch : forall st vhd r st' t,
  getUsedChildChainOrDelete fuel remove U ch st vhd = Some (r, st', t) ->
  gated remove t.
Proof.
  induction fuel as [|fuel IH]; intros st vhd r st' t; simpl; [discriminate|].
  destruct (JsMap.get vhd (vhdChainsToMerge st)).
  - intros [= <- <- <-]. constructor.
  - destruct (negb (JsSet.has vhd U)).
    + intros [= <- <- <-]. constructor.
    + destruct (JsMap.get vhd ch) as [child|].
      * destruct (getUsedChildChainOrDelete fuel remove U ch _ child)
          as [[[[c'|] st2] t2]|] eqn:Erec; [| |discriminate];
          intros [= <- <- <-]; apply IH in Erec; [assumption|].
        apply gated_app; [assumption | apply unusedVhd_gated].
      * intros [= <- <- <-]. apply unusedVhd_gated.
Qed.

Lemma forEachToCheck_gated fuel remove U ch l : forall st,
  gated remove (snd (forEachToCheck fuel remove U ch st l)).
Proof.
  induction l as [|vhd l IH]; intros st; simpl; [constructor|].
  destruct (JsSet.has vhd (toCheck st)); [|apply IH].
  destruct (getUsedChildChainOrDelete fuel remove U ch st vhd)
    as [[[r st1] t1]|] eqn:Erec; [|constructor].
  specialize (IH (mkChains (JsMap.set vhd r (vhdChainsToMerge st1)) (toCheck st1))).
  destruct (forEachToCheck fuel remove U ch _ l) as [r2 t2]. simpl in *.
  apply gated_app; [|assumption].
  eapply getUsedChildChainOrDelete_gated. eassumption.
Qed.

Lemma chainsToMerge_gated fuel remove U ch I :
  gated remove (snd (chainsToMerge fuel remove U ch I)).
Proof.
  unfold chainsToMerge, chainsByAncestor, usageChains.
  pose proof (forEachToCheck_gated fuel remove U ch U (mkChains [] U)) as H.
  destruct (forEachToCheck fuel remove U ch _ U) as [[st|] t]; exact H.
Qed.

Lemma mergeVhdChain_gated remove merge c :
  gated merge (snd (mergeVhdChain w remove merge c)).
Proof.
  unfold mergeVhdChain. destruct merge; gated_auto.
Qed.

Lemma doMerge_gated remove merge J toMerge :
  gated merge (snd (doMerge w remove merge J toMerge)).
Proof.
  apply gated_foldT. intros s c. unfold mergeChain.
  pose proof (mergeVhdChain_gated remove merge c) as H.
  destruct (mergeVhdChain w remove merge c) as [[[z|]|] t]; exact H.
Qed.

(** Without [merge] no record is marked as merged. *)
Lemma doMerge_unmerged remove J toMerge :
  metadataWithMergedVhd (fst (doMerge w remove false J toMerge)) = [].
Proof.
  unfold doMerge.
  apply (foldT_ind (mergeChain w remove false J)
                   (fun st => metadataWithMergedVhd st = []) (fun _ => True));
    [|reflexivity].
  intros s c _ Hs. split; [|apply Forall_forall; auto].
  unfold mergeChain, mergeVhdChain.
  destruct (Nat.leb 2 (length c)); [destruct c|]; simpl; assumption.
Qed.

Lemma unused_files_gated remove xvas unusedXvas xvaSums :
  gated remove (flat_map (unusedXva remove) unusedXvas
                ++ flat_map (unusedXvaSum remove xvas) xvaSums).
Proof.
  apply gated_app; apply gated_flat_map; intros p;
    unfold unusedXva, unusedXvaSum; destruct remove; gated_auto.
Qed.

Lemma computeVhdsSize_gated b l : gated b (snd (computeVhdsSize w l)).
Proof.
  apply gated_quiet. intros e He.
  assert (H : In e (map (fun vhdPath => Call (OpOpenVhd vhdPath None)) l)).
  { unfold computeVhdsSize in He.
    repeat (match type of He with
            | context [if ?b then _ else _] => destruct b
            | context [match ?x with _ => _ end] => destruct x
            end); exact He. }
  apply in_map_iff in H. destruct H as (p & <- & _). reflexivity.
Qed.

Lemma checkSizes_gated fixMetadata vmDir mm jsons :
  (forall k, JsMap.has k mm = false) ->
  gated fixMetadata (snd (checkSizes w fixMetadata vmDir mm jsons)).
Proof.
  intros Hmm. apply gated_foldT. intros s a.
  destruct (checkSize w fixMetadata vmDir mm a) as [ok t] eqn:E. simpl.
  revert E. unfold checkSize, updateSize. rewrite Hmm. simpl.
  destruct (readMetadata w a) as [md|]; intros [= <- <-]; [|gated_auto].
  constructor; [discriminate|].
  destruct (mode md).
  - constructor; [discriminate|]. destruct fixMetadata; gated_auto.
  - pose proof (computeVhdsSize_gated fixMetadata (linkedVhdsOf w vmDir md)) as H.
    destruct (computeVhdsSize w (linkedVhdsOf w vmDir md)) as [[[z|]|] t]; simpl in H.
    + apply gated_app; [assumption|]. destruct fixMetadata; gated_auto.
    + assumption.
    + apply gated_app; [assumption | gated_auto].
  - destruct fixMetadata; gated_auto.
Qed.

End Gates.

(** ** The run as a whole *)

Section WholeRun.

Variable w : World.

Lemma checkMetadata_jsons_subset remove vmDir V X st json x :
  In x (jsons (fst (checkMetadata w remove vmDir V X st json))) -> In x (jsons st).
Proof.
  unfold checkMetadata, incompleteBackup.
  destruct (readMetadata w json) as [md|]; simpl; [|rewrite set_delete_In; tauto].
  destruct (mode md); simpl; try tauto.
  - destruct (JsSet.has _ X); simpl; [tauto|].
    destruct remove; simpl; [rewrite set_delete_In|]; tauto.
  - destruct (filter _ _); simpl; [tauto|].
    destruct remove; simpl; [rewrite set_delete_In|]; tauto.
Qed.

(** The records that are left after lines 338-385 have been parsed. *)
Lemma checkMetadatas_readable remove vmDir V entries json :
  In json (jsons (fst (checkMetadatas w remove vmDir V entries))) ->
  readMetadata w json <> None.
Proof.
  unfold checkMetadatas.
  destruct (foldT (checkMetadata w remove vmDir V (e_xvas entries)) _ _)
    as [st t] eqn:E. simpl.
  intros Hin Hnone.
  assert (Hsub : In json (e_jsons entries)).
  { revert Hin.
    replace st with (fst (foldT (checkMetadata w remove vmDir V (e_xvas entries))
                            (mkRefs (e_jsons entries) V (e_xvas entries) [])
                            (asyncOrder (completion w) (e_jsons entries))))
      by now rewrite E.
    intros Hin. destruct (in_dec string_dec json (e_jsons entries)) as [|Hout];
      [assumption|]. exfalso. revert Hin.
    apply (foldT_ind (checkMetadata w remove vmDir V (e_xvas entries))
                     (fun st => ~ In json (jsons st)) (fun _ => True)); [|assumption].
    intros s a _ Hs. split; [|apply Forall_forall; auto].
    intros H. apply Hs. eapply checkMetadata_jsons_subset. eassumption. }
  revert Hin.
  replace st with (fst (foldT (checkMetadata w remove vmDir V (e_xvas entries))
                          (mkRefs (e_jsons entries) V (e_xvas entries) [])
                          (asyncOrder (completion w) (e_jsons entries))))
    by now rewrite E.
  apply foldT_after with (a := json).
  - now apply asyncOrder_In.
  - intros s. unfold checkMetadata. rewrite Hnone. simpl.
    rewrite set_delete_In. tauto.
  - intros s b Hs H. apply Hs. eapply checkMetadata_jsons_subset. eassumption.
Qed.

Lemma checkSizes_ok fixMetadata vmDir mm jsons :
  (forall json, In json jsons -> readMetadata w json <> None) ->
  fst (checkSizes w fixMetadata vmDir mm jsons) = true.
Proof.
  intros H. unfold checkSizes.
  apply (foldT_ind _ (fun ok => ok = true) (fun _ => True)); [|reflexivity].
  intros ok json Hjson ->. split; [|apply Forall_forall; auto].
  unfold checkSize. specialize (H json Hjson).
  destruct (readMetadata w json); [reflexivity | congruence].
Qed.

Lemma doMerge_ok remove merge J toMerge :
  Forall (fun c => 2 <= length c) toMerge ->
  merge_ok (fst (doMerge w remove merge J toMerge)) = true.
Proof.
  intros H. unfold doMerge.
  apply (foldT_ind _ (fun st => merge_ok st = true) (fun _ => True)); [|reflexivity].
  intros st c Hc Hst. split; [|apply Forall_forall; auto].
  rewrite Forall_forall in H. specialize (H c Hc).
  unfold mergeChain, mergeVhdChain.
  destruct (Nat.leb_spec 2 (length c)) as [_|]; [|lia].
  destruct c as [|parent children]; [simpl in H; lia|].
  destruct merge; [destruct (mergeVhd w parent children)|]; simpl; assumption.
Qed.

(** C1.  With [remove], [merge] and [fixMetadata] all unset, no stage of
    [cleanVm], [checkAliases] included, asks for a deletion, a write or a
    merge (the only place where files are renamed); the summary is returned
    whenever the walk over the unused VHDs has returned, and its [merge] flag
    is set exactly when [toMerge] holds a chain. *)
Theorem audit_run_is_read_only (fuel : nat) (vmDir : path) :
  read_only (snd (cleanVm w fuel (mkOptions false false false) vmDir))
  /\ (forall s,
         fst (cleanVm w fuel (mkOptions false false false) vmDir) = Some s ->
         (summary_merge s = true <->
          exists toMerge c,
            run_toMerge (runCleanVm w fuel (mkOptions false false false) vmDir)
            = Some toMerge /\ In c toMerge))
  /\ (run_toMerge (runCleanVm w fuel (mkOptions false false false) vmDir) <> None ->
      fst (cleanVm w fuel (mkOptions false false false) vmDir) <> None).
Proof.
  unfold cleanVm, runCleanVm. simpl.
  pose proof (listVhds_gated w false vmDir) as Hlist.
  destruct (listVhds w vmDir) as [listing t_list]. simpl in Hlist.
  pose proof (checkVhds_gated w false (l_interruptedVhds listing) (l_vhds listing))
    as Hopen.
  destruct (checkVhds w false _ _) as [graph t_open]. simpl in Hopen.
  pose proof (checkMergeStates_gated false (vhds graph) (l_interruptedVhds listing))
    as Hstates.
  destruct (checkMergeStates false _ _) as [interrupted t_states]. simpl in Hstates.
  pose proof (checkAllAliases_gated w false (l_aliases listing)) as Haliases.
  pose proof (pruneOrphans_gated false (vhds graph) (vhdParents graph)) as Horphans.
  destruct (pruneOrphans false _ _) as [pruned t_orphans]. simpl in Horphans.
  set (entries := fold_left (classify w) (handler_list_prepend w vmDir)
                            (mkEntries [] [] [])).
  pose proof (checkMetadatas_gated w false vmDir (p_vhds pruned) entries) as Hrefs.
  pose proof (checkMetadatas_readable false vmDir (p_vhds pruned) entries) as Hread.
  destruct (checkMetadatas w false vmDir _ entries) as [refs t_refs].
  simpl in Hrefs, Hread.
  assert (Hentries : gated false
            (Call (OpList vmDir)
             :: map (fun p => Call (OpIsValidXva p)) (e_xvas entries)
             ++ flat_map (checkXva w) (e_xvas entries))).
  { apply gated_quiet. intros e [<- | He]; [reflexivity|].
    apply in_app_iff in He. destruct He as [He | He].
    - apply in_map_iff in He. destruct He as (p & <- & _). reflexivity.
    - apply in_flat_map in He. destruct He as (p & _ & He).
      unfold checkXva in He. destruct (isValidXva w p); [contradiction|].
      destruct He as [<- | []]. reflexivity. }
  pose proof (chainsToMerge_gated fuel false (unusedVhds refs) (vhdChildren graph)
                                  interrupted) as Hchains.
  pose proof (toMerge_lengths fuel false (unusedVhds refs) (vhdChildren graph)
                              interrupted) as Hlen.
  destruct (chainsToMerge fuel false _ _ interrupted) as [[toMerge|] t_chains];
    simpl in Hchains.
  - specialize (Hlen toMerge t_chains eq_refl).
    pose proof (doMerge_gated w false false (vhdsToJSons refs) toMerge) as Hmerge.
    pose proof (doMerge_unmerged w false (vhdsToJSons refs) toMerge) as Hunmerged.
    pose proof (doMerge_ok false false (vhdsToJSons refs) toMerge Hlen) as Hok.
    destruct (doMerge w false false _ toMerge) as [merging t_merge].
    simpl in Hmerge, Hunmerged, Hok. rewrite Hok, Hunmerged.
    pose proof (checkSizes_gated w false vmDir [] (jsons refs) (fun _ => eq_refl))
      as Hsizes.
    pose proof (checkSizes_ok false vmDir [] (jsons refs) Hread) as Hsok.
    destruct (checkSizes w false vmDir [] (jsons refs)) as [ok t_sizes].
    simpl in Hsizes, Hsok. subst ok. simpl.
    pose proof (unused_files_gated false (e_xvas entries) (unusedXvas refs)
                                   (e_xvaSums entries)) as Hunused.
    split; [|split].
    + assert (G : gated false
                ((t_list ++ t_open ++ t_states
                  ++ checkAllAliases w false (l_aliases listing) ++ t_orphans
                  ++ (Call (OpList vmDir)
                      :: map (fun p => Call (OpIsValidXva p)) (e_xvas entries)
                      ++ flat_map (checkXva w) (e_xvas entries)) ++ t_refs)
                 ++ t_chains ++ t_merge
                 ++ (flat_map (unusedXva false) (unusedXvas refs)
                     ++ flat_map (unusedXvaSum false (e_xvas entries))
                                 (e_xvaSums entries)) ++ t_sizes)).
      { repeat (first [assumption | apply gated_app]). }
      revert G. apply Forall_impl. intros e He.
      destruct (mutates e); [specialize (He eq_refl); discriminate | reflexivity].
    + intros s [= <-]. simpl. rewrite negb_true_iff, Nat.eqb_neq. split.
      * intros Hne. destruct toMerge as [|c l]; [contradiction|].
        exists (c :: l), c. split; [reflexivity | now left].
      * intros (l & c & [= <-] & Hc) H0.
        destruct toMerge; [contradiction | discriminate].
    + discriminate.
  - simpl. split; [|split].
    + assert (G : gated false
                ((t_list ++ t_open ++ t_states
                  ++ checkAllAliases w false (l_aliases listing) ++ t_orphans
                  ++ (Call (OpList vmDir)
                      :: map (fun p => Call (OpIsValidXva p)) (e_xvas entries)
                      ++ flat_map (checkXva w) (e_xvas entries)) ++ t_refs)
                 ++ t_chains)).
      { repeat (first [assumption | apply gated_app]). }
      revert G. apply Forall_impl. intros e He.
      destruct (mutates e); [specialize (He eq_refl); discriminate | reflexivity].
    + discriminate.
    + congruence.
Qed.

End WholeRun.

(** ** Which records [doMerge] marks as merged *)

Section MergedRecords.

Variable w : World.

Lemma fold_delete_In l : forall (s : JsSet.t) x,
  In x (fold_left (fun s p => JsSet.delete p s) l s) <-> In x s /\ ~ In x l.
Proof.
  induction l as [|a l IH]; intros s x; simpl; [tauto|].
  rewrite IH, set_delete_In. intuition congruence.
Qed.

Lemma fold_set_get l json : forall (m : JsMap.t path) k,
  JsMap.get k (fold_left (fun m p => JsMap.set p json m) l m)
  = if existsb (String.eqb k) l then Some json else JsMap.get k m.
Proof.
  induction l as [|a l IH]; intros m k; simpl; [reflexivity|].
  rewrite IH. destruct (String.eqb k a) eqn:E; simpl.
  - apply String.eqb_eq in E. subst a. rewrite map_get_set_same.
    now destruct (existsb (String.eqb k) l).
  - apply String.eqb_neq in E. now rewrite map_get_set_other.
Qed.

(** A VHD that is still unused after lines 338-385 has no record. *)
Lemma unused_vhd_has_no_record remove vmDir V entries p :
  In p (unusedVhds (fst (checkMetadatas w remove vmDir V entries))) ->
  JsMap.get p (vhdsToJSons (fst (checkMetadatas w remove vmDir V entries))) = None.
Proof.
  unfold checkMetadatas.
  destruct (foldT (checkMetadata w remove vmDir V (e_xvas entries)) _ _)
    as [st t] eqn:E. simpl.
  replace st with (fst (foldT (checkMetadata w remove vmDir V (e_xvas entries))
                          (mkRefs (e_jsons entries) V (e_xvas entries) [])
                          (asyncOrder (completion w) (e_jsons entries))))
    by now rewrite E.
  revert p.
  apply (foldT_keeps (checkMetadata w remove vmDir V (e_xvas entries))
           (fun st => forall p, In p (unusedVhds st) ->
                                JsMap.get p (vhdsToJSons st) = None));
    [|reflexivity].
  intros s json Hs p. unfold checkMetadata, incompleteBackup.
  destruct (readMetadata w json) as [md|]; simpl; [|apply Hs].
  destruct (mode md); simpl.
  - destruct (JsSet.has _ (e_xvas entries)); simpl; [apply Hs|].
    destruct remove; simpl; apply Hs.
  - destruct (filter _ _); simpl.
    + rewrite fold_delete_In, fold_set_get. intros [Hp Hout].
      destruct (existsb (String.eqb p) (linkedVhdsOf w vmDir md)) eqn:Ex.
      * apply existsb_eqb_In in Ex. contradiction.
      * now apply Hs.
    + destruct remove; simpl; apply Hs.
  - apply Hs.
Qed.

(** When every chain starts with a VHD that has no record, [doMerge] marks
    no record: the only key it sets is ['undefined']. *)
Lemma doMerge_marks_nothing remove merge J toMerge k :
  (forall c, In c toMerge ->
             exists v : path, @hd (option path) None c = Some v /\ JsMap.get v J = None) ->
  JsMap.has k (metadataWithMergedVhd (fst (doMerge w remove merge J toMerge))) = true ->
  k = "undefined".
Proof.
  intros Hheads. unfold doMerge. revert k.
  apply (foldT_ind (mergeChain w remove merge J)
           (fun st => forall k, JsMap.has k (metadataWithMergedVhd st) = true ->
                                k = "undefined")
           (fun _ => True)).
  - intros st c Hc Hst. split; [|apply Forall_forall; auto].
    destruct (Hheads c Hc) as (v & Hv & HJ).
    unfold mergeChain. rewrite Hv. cbn [js_key]. rewrite HJ. cbn [js_key].
    destruct (mergeVhdChain w remove merge c) as [[[z|]|] t]; cbn [fst metadataWithMergedVhd];
      try assumption.
    intros k Hk.
    apply map_has_get in Hk. destruct Hk as [x Hk].
    destruct (String.eqb k "undefined") eqn:E; [now apply String.eqb_eq in E|].
    apply String.eqb_neq in E. rewrite map_get_set_other in Hk by assumption.
    apply Hst. apply map_has_get. eauto.
  - intros k [=].
Qed.

End MergedRecords.

(** ** The size recorded for a merged backup (lines 443-452 and 479-524) *)

(** C6.  In [merged_repository] the unused base [A.vhd] is merged into its
    child [B.vhd], which the record [/vm/b.json] uses.  [doMerge] looks for
    the record of the merged chain under [chain[0]], the unused ancestor,
    which no record uses, so that the record of [B.vhd] is not marked as
    merged: its size, 100, differs from the size found, 150, a warning says
    so, and the record is not written. *)
Theorem merged_record_size_not_updated :
  fst (cleanVm merged_repository 10 (mkOptions false true true) "/vm")
  = Some (mkSummary true)
  /\ run_toMerge (runCleanVm merged_repository 10 (mkOptions false true true) "/vm")
     = Some [[Some (vdi "A.vhd"); Some (vdi "B.vhd")]]
  /\ In (Call (OpMergeVhd (Some (vdi "A.vhd")) [Some (vdi "B.vhd")] true))
        (snd (cleanVm merged_repository 10 (mkOptions false true true) "/vm"))
  /\ metadataWithMergedVhd
       (run_merging (runCleanVm merged_repository 10 (mkOptions false true true) "/vm"))
     = [("undefined", true)]
  /\ In (LogWarn "incorrect backup size in metadata"
                 [("path", AStr "/vm/b.json"); ("actual", ASize (Some 100%Z));
                  ("expected", ASize (Some 150%Z))])
        (snd (cleanVm merged_repository 10 (mkOptions false true true) "/vm"))
  /\ forall new_size,
       ~ In (Call (OpWriteFile "/vm/b.json" new_size))
            (snd (cleanVm merged_repository 10 (mkOptions false true true) "/vm")).
Proof.
  repeat split; try (vm_compute; reflexivity).
  - vm_compute. do 9 right. left. reflexivity.
  - vm_compute. do 12 right. left. reflexivity.
  - intros new_size H. vm_compute in H.
    repeat (destruct H as [H | H]; [discriminate|]). exact H.
Qed.

(** ** Several children of one parent (lines 206-217 and 238-245) *)

Section GraphStage.

Variable w : World.
Variable remove : bool.
Variable interruptedVhds : JsMap.t path.

Local Abbreviation flag p := (negb (JsMap.has p interruptedVhds)).
Local Abbreviation step := (checkVhd w remove interruptedVhds).
Local Abbreviation children_opened := (children_opened w interruptedVhds).

Lemma dedupe_links g vhd :
  vhdChildren (fst (dedupe w g vhd)) = vhdChildren g
  /\ vhdParents (fst (dedupe w g vhd)) = vhdParents g.
Proof.
  unfold dedupe. destruct (JsMap.get _ _); simpl; [|auto].
  repeat (match goal with |- context [if ?b then _ else _] => destruct b end);
    simpl; auto.
Qed.

(** A child, once registered, stays the registered child. *)
Lemma checkVhd_children_stable g a q c :
  JsMap.get q (vhdChildren g) = Some c ->
  JsMap.get q (vhdChildren (fst (step g a))) = Some c.
Proof.
  intros Hq. unfold checkVhd.
  destruct (openVhd w a _) as [dt uuid pname | code]; [|assumption].
  destruct (N.eqb dt (DIFFERENCING w)).
  - simpl. destruct (JsMap.get (resolve w _) (vhdChildren g)) eqn:Eparent;
      [simpl; assumption|].
    rewrite (proj1 (dedupe_links _ _)). simpl.
    rewrite map_get_set_other; [assumption|]. congruence.
  - now rewrite (proj1 (dedupe_links _ _)).
Qed.

Lemma checkVhd_children_opened l g a :
  In a l -> children_opened l g -> children_opened l (fst (step g a)).
Proof.
  intros Ha Hg k v. unfold checkVhd.
  destruct (openVhd w a _) as [dt uuid pname | code] eqn:Eopen; [|apply Hg].
  destruct (N.eqb dt (DIFFERENCING w)).
  - simpl. destruct (JsMap.get (resolve w _) (vhdChildren g)) eqn:Eparent;
      [simpl; apply Hg|].
    rewrite (proj1 (dedupe_links _ _)). simpl.
    destruct (String.eqb k (resolve w ["/"; dirname w a; pname])) eqn:Ek.
    + apply String.eqb_eq in Ek. subst k. rewrite map_get_set_same.
      intros [= <-]. split; [assumption|]. eauto.
    + apply String.eqb_neq in Ek. rewrite map_get_set_other by assumption. apply Hg.
  - rewrite (proj1 (dedupe_links _ _)). apply Hg.
Qed.

Lemma children_opened_fold l : forall g,
  children_opened l g -> children_opened l (fst (foldT step g l)).
Proof.
  intros g Hg.
  apply (foldT_ind step (children_opened l) (fun _ => True)); [|assumption].
  intros s a Ha Hs. split; [now apply checkVhd_children_opened | apply Forall_forall; auto].
Qed.

Lemma children_opened_weaken l l' g :
  (forall x, In x l -> In x l') -> children_opened l g -> children_opened l' g.
Proof.
  intros Hl Hg k v Hk. destruct (Hg k v Hk) as [H1 H2]. auto.
Qed.

(** C8, as the code has it.  When a differencing VHD is opened and its
    parent has a registered child already, the conflict is logged as a
    'VHD check error' that carries the parent and both children; the VHD
    opened second is removed from the active set, the one opened first stays
    the registered child of the parent, and this stage unlinks neither.  A
    differencing VHD that meets no conflict is the registered child of its
    parent. *)
Theorem second_child_is_dropped (vhds0 : JsSet.t) p diskType uuid parentUnicodeName :
  NoDup vhds0 ->
  In p vhds0 ->
  openVhd w p (negb (JsMap.has p interruptedVhds))
  = Opened diskType uuid parentUnicodeName ->
  diskType = DIFFERENCING w ->
  ~ In (Call (OpVhdUnlink p)) (snd (checkVhds w remove interruptedVhds vhds0))
  /\ (JsMap.get (resolve w ["/"; dirname w p; parentUnicodeName])
                (vhdChildren (fst (checkVhds w remove interruptedVhds vhds0)))
      = Some p
      \/ exists child1,
           child1 <> p
           /\ In child1 vhds0
           /\ JsMap.get (resolve w ["/"; dirname w p; parentUnicodeName])
                        (vhdChildren (fst (checkVhds w remove interruptedVhds vhds0)))
              = Some child1
           /\ ~ In p (vhds (fst (checkVhds w remove interruptedVhds vhds0)))
           /\ In (LogWarn "VHD check error"
                          [("path", AStr p);
                           ("error",
                            AErr (ErrMultipleChildren
                                    (resolve w ["/"; dirname w p; parentUnicodeName])
                                    child1 p))])
                 (snd (checkVhds w remove interruptedVhds vhds0))
           /\ ~ In (Call (OpVhdUnlink child1))
                   (snd (checkVhds w remove interruptedVhds vhds0))).
Proof.
  intros Hnd Hp Hopen Hdiff.
  set (q := resolve w ["/"; dirname w p; parentUnicodeName]).
  assert (Hnounlink : forall v dt u pn,
             openVhd w v (flag v) = Opened dt u pn ->
             ~ In (Call (OpVhdUnlink v)) (snd (checkVhds w remove interruptedVhds vhds0))).
  { intros v dt u pn Hv H. unfold checkVhds in H.
    destruct (foldT (checkVhd w remove interruptedVhds) _ _) as [g t] eqn:E.
    simpl in H. apply in_app_iff in H. destruct H as [H | H].
    - apply in_map_iff in H. destruct H as (x & [=] & _).
    - replace t with (snd (foldT (checkVhd w remove interruptedVhds)
                        (mkGraph vhds0 [] [] []) (asyncOrder (completion w) vhds0)))
        in H by now rewrite E.
      apply foldT_In_inv in H. destruct H as (s' & a & _ & H).
      apply checkVhd_calls in H. destruct H as ([= <-] & _ & H).
      congruence. }
  split; [eapply Hnounlink; eassumption|].
  unfold checkVhds.
  destruct (foldT (checkVhd w remove interruptedVhds) _ _) as [g t] eqn:E. simpl.
  assert (Eg : g = fst (foldT step (mkGraph vhds0 [] [] [])
                              (asyncOrder (completion w) vhds0)))
    by (now rewrite E).
  assert (Et : t = snd (foldT step (mkGraph vhds0 [] [] [])
                              (asyncOrder (completion w) vhds0)))
    by (now rewrite E).
  assert (Hunlink : forall v dt u pn,
             openVhd w v (flag v) = Opened dt u pn ->
             ~ In (Call (OpVhdUnlink v))
                  (map (fun p => Call (OpOpenVhd p (Some (negb (JsMap.has p interruptedVhds)))))
                       vhds0 ++ t)).
  { intros v dt u pn Hv. specialize (Hnounlink v dt u pn Hv).
    unfold checkVhds in Hnounlink. rewrite E in Hnounlink. exact Hnounlink. }
  clear E Hnounlink.
  pose proof (asyncOrder_NoDup (completion w) vhds0 Hnd) as Hnd'.
  assert (Hsub : forall x, In x (asyncOrder (completion w) vhds0) -> In x vhds0)
    by (intros x; apply asyncOrder_In).
  apply (asyncOrder_In (completion w)) in Hp.
  apply in_split in Hp. destruct Hp as (l1 & l2 & Hsplit).
  rewrite Hsplit in Eg, Et, Hnd', Hsub.
  set (g1 := fst (foldT step (mkGraph vhds0 [] [] []) l1)) in *.
  assert (Hg1 : children_opened l1 g1).
  { apply children_opened_fold. intros k v [=]. }
  rewrite foldT_split_fst in Eg. fold g1 in Eg.
  assert (Hstep : step g1 p
                  = match JsMap.get q (vhdChildren g1) with
                    | Some child1 =>
                        checkFailed remove
                          (mkGraph (vhds g1) (vhdById g1)
                                   (JsMap.set p q (vhdParents g1)) (vhdChildren g1))
                          p (ErrMultipleChildren q child1 p)
                    | None =>
                        dedupe w (mkGraph (vhds g1) (vhdById g1)
                                          (JsMap.set p q (vhdParents g1))
                                          (JsMap.set q p (vhdChildren g1)))
                               (mkVhd p diskType uuid parentUnicodeName)
                    end).
  { unfold checkVhd. rewrite Hopen, Hdiff, N.eqb_refl. reflexivity. }
  destruct (JsMap.get q (vhdChildren g1)) as [child1|] eqn:Eq.
  - right. exists child1.
    destruct (Hg1 q child1 Eq) as [Hc1 (dt1 & u1 & pn1 & Hc1open)].
    split; [|split; [|split; [|split; [|split]]]].
    + intros ->. apply NoDup_remove_2 in Hnd'. apply Hnd'.
      apply in_app_iff. now left.
    + apply Hsub, in_app_iff. now left.
    + subst g. apply foldT_keeps.
      * intros s b. apply checkVhd_children_stable.
      * rewrite Hstep. exact Eq.
    + subst g. apply foldT_keeps.
      * intros s b Hs H. apply Hs. eapply checkVhd_vhds_subset. eassumption.
      * rewrite Hstep. simpl. rewrite set_delete_In. tauto.
    + apply in_app_iff. right. subst t. apply foldT_split_snd. fold g1.
      rewrite Hstep. simpl. now left.
    + eapply Hunlink. eassumption.
  - left. subst g. apply foldT_keeps.
    + intros s b. apply checkVhd_children_stable.
    + rewrite Hstep, (proj1 (dedupe_links _ _)). simpl. apply map_get_set_same.
Qed.

End GraphStage.

(** ** Two VHDs with one UUID (lines 218-236) *)

Section Duplicates.

Variable w : World.
Variable remove : bool.
Variable interruptedVhds : JsMap.t path.

Local Abbreviation step := (checkVhd w remove interruptedVhds).
Local Abbreviation vhd_of := (vhdOf w interruptedVhds).
Local Abbreviation parent_of := (parentOf w interruptedVhds).
Local Abbreviation inv := (graph_inv w interruptedVhds).

Lemma vhdOf_path p v : vhd_of p = Some v -> _path v = p.
Proof.
  unfold vhdOf. destruct (openVhd w p _); [|discriminate].
  now intros [= <-].
Qed.

Lemma graph_inv_weaken l l' g :
  (forall x, In x l -> In x l') -> inv l g -> inv l' g.
Proof.
  intros Hl [H1 H2]. split; [assumption|].
  intros k v Hk. destruct (H2 k v Hk). auto.
Qed.

(** What [dedupe] does to the active set and to the index. *)
Lemma dedupe_cases g vhd :
  match JsMap.get (footer_uuid vhd) (vhdById g) with
  | None =>
      vhds (fst (dedupe w g vhd)) = vhds g
      /\ vhdById (fst (dedupe w g vhd)) = JsMap.set (footer_uuid vhd) vhd (vhdById g)
      /\ snd (dedupe w g vhd) = []
  | Some duplicate =>
      if containsAllDataOf w duplicate vhd then
        vhds (fst (dedupe w g vhd)) = JsSet.delete (_path vhd) (vhds g)
        /\ vhdById (fst (dedupe w g vhd))
           = JsMap.set (footer_uuid duplicate) duplicate (vhdById g)
      else if containsAllDataOf w vhd duplicate then
        vhds (fst (dedupe w g vhd)) = JsSet.delete (_path duplicate) (vhds g)
        /\ vhdById (fst (dedupe w g vhd)) = JsMap.set (footer_uuid vhd) vhd (vhdById g)
      else
        vhds (fst (dedupe w g vhd)) = vhds g
        /\ vhdById (fst (dedupe w g vhd)) = JsMap.set (footer_uuid vhd) vhd (vhdById g)
        /\ In (LogWarn "same ids but different content" []) (snd (dedupe w g vhd))
  end.
Proof.
  unfold dedupe. destruct (JsMap.get _ _) as [duplicate|]; [|simpl; auto].
  destruct (containsAllDataOf w duplicate vhd); [simpl; auto|].
  destruct (containsAllDataOf w vhd duplicate); simpl; auto.
Qed.

(** A VHD that opens and meets no conflict goes through [dedupe]. *)
Lemma checkVhd_opened g p v :
  vhd_of p = Some v ->
  (forall q, parent_of p = Some q -> JsMap.get q (vhdChildren g) = None) ->
  exists g0,
    step g p = dedupe w g0 v /\ vhds g0 = vhds g /\ vhdById g0 = vhdById g
    /\ (forall k c, JsMap.get k (vhdChildren g0) = Some c ->
                    JsMap.get k (vhdChildren g) = Some c
                    \/ (c = p /\ parent_of p = Some k)).
Proof.
  unfold parentOf, vhdOf, checkVhd.
  destruct (openVhd w p _) as [dt uuid pname|]; [|discriminate].
  intros [= <-]. simpl.
  destruct (N.eqb dt (DIFFERENCING w)).
  - intros Hq. rewrite (Hq _ eq_refl). eexists. split; [reflexivity|]. simpl.
    repeat split. intros k c.
    destruct (String.eqb k (resolve w ["/"; dirname w p; pname])) eqn:Ek.
    + apply String.eqb_eq in Ek. subst k. rewrite map_get_set_same.
      intros [= <-]. now right.
    + apply String.eqb_neq in Ek. rewrite map_get_set_other by assumption. now left.
  - intros _. exists g. repeat split. now left.
Qed.

(** A VHD that does not go through [dedupe] only leaves the active set. *)
Lemma checkVhd_rejected g p :
  (vhd_of p = None
   \/ exists q c, parent_of p = Some q /\ JsMap.get q (vhdChildren g) = Some c) ->
  vhds (fst (step g p)) = JsSet.delete p (vhds g)
  /\ vhdById (fst (step g p)) = vhdById g
  /\ vhdChildren (fst (step g p)) = vhdChildren g.
Proof.
  unfold parentOf, vhdOf, checkVhd.
  destruct (openVhd w p _) as [dt uuid pname|]; simpl.
  - intros [[=] | (q & c & Hq & Hc)].
    destruct (N.eqb dt (DIFFERENCING w)); [|discriminate].
    injection Hq as <-. rewrite Hc. simpl. auto.
  - auto.
Qed.

Lemma checkVhd_dichotomy g p :
  (exists v, vhd_of p = Some v
             /\ forall q, parent_of p = Some q -> JsMap.get q (vhdChildren g) = None)
  \/ (vhd_of p = None
      \/ exists q c, parent_of p = Some q /\ JsMap.get q (vhdChildren g) = Some c).
Proof.
  destruct (vhd_of p) as [v|] eqn:Ev; [|now right; left].
  destruct (parent_of p) as [q|] eqn:Eq.
  - destruct (JsMap.get q (vhdChildren g)) as [c|] eqn:Ec.
    + right. right. eauto.
    + left. exists v. split; [reflexivity|]. now intros q' [= <-].
  - left. exists v. split; [reflexivity | discriminate].
Qed.

Lemma checkVhd_inv l g p : In p l -> inv l g -> inv l (fst (step g p)).
Proof.
  intros Hp [Hid Hch].
  destruct (checkVhd_dichotomy g p) as [(v & Hv & Hfree) | Hrej].
  - destruct (checkVhd_opened g p v Hv Hfree) as (g0 & -> & _ & Hid0 & Hch0).
    split.
    + intros k d.
      pose proof (dedupe_cases g0 v) as Hc. rewrite Hid0 in Hc.
      assert (Hset : forall d0, footer_uuid d0 = footer_uuid d0 ->
                 (footer_uuid d0 = footer_uuid d0 /\ vhd_of (_path d0) = Some d0) ->
                 JsMap.get k (JsMap.set (footer_uuid d0) d0 (vhdById g)) = Some d ->
                 footer_uuid d = k /\ vhd_of (_path d) = Some d).
      { intros d0 _ Hd0.
        destruct (String.eqb k (footer_uuid d0)) eqn:Ek.
        - apply String.eqb_eq in Ek. subst k. rewrite map_get_set_same.
          now intros [= <-].
        - apply String.eqb_neq in Ek. rewrite map_get_set_other by assumption.
          apply Hid. }
      assert (Hv' : footer_uuid v = footer_uuid v /\ vhd_of (_path v) = Some v).
      { split; [reflexivity|]. now rewrite (vhdOf_path p v Hv). }
      destruct (JsMap.get (footer_uuid v) (vhdById g)) as [dup|] eqn:Edup.
      * destruct (containsAllDataOf w dup v).
        -- destruct Hc as [_ ->]. apply Hset; [reflexivity|].
           destruct (Hid _ _ Edup). split; [reflexivity | assumption].
        -- destruct (containsAllDataOf w v dup).
           ++ destruct Hc as [_ ->]. now apply Hset.
           ++ destruct Hc as (_ & -> & _). now apply Hset.
      * destruct Hc as (_ & -> & _). now apply Hset.
    + intros k c. rewrite (proj1 (dedupe_links w g0 v)). intros Hk.
      destruct (Hch0 k c Hk) as [Hold | [-> Hpar]]; [now apply Hch | auto].
  - destruct (checkVhd_rejected g p Hrej) as (_ & Hid' & Hch').
    split; [now rewrite Hid' | now rewrite Hch'].
Qed.

Section Pair.

Variables (a b : path) (va vb : Vhd) (u : string) (S : list path).
Hypothesis Ha : vhd_of a = Some va.
Hypothesis Hb : vhd_of b = Some vb.
Hypothesis Hua : footer_uuid va = u.
Hypothesis Hub : footer_uuid vb = u.
Hypothesis Hothers :
  forall p v, In p S -> p <> a -> p <> b -> vhd_of p = Some v -> footer_uuid v <> u.

Local Abbreviation pair_status := (pair_status a b u).

Lemma pair_status_refl g : pair_status g g.
Proof. repeat split; auto. Qed.

Lemma pair_status_trans g1 g2 g3 :
  pair_status g1 g2 -> pair_status g2 g3 -> pair_status g1 g3.
Proof.
  intros (H1 & H2 & H3) (H4 & H5 & H6). repeat split; try congruence; tauto.
Qed.

Lemma index_path_not k d x vx :
  vhd_of x = Some vx -> footer_uuid vx = u ->
  footer_uuid d = k -> vhd_of (_path d) = Some d -> k <> u -> _path d <> x.
Proof.
  intros Hx Hux Hk Hd Hne E. rewrite E in Hd. congruence.
Qed.

Lemma checkVhd_other l g p :
  inv l g -> In p S -> p <> a -> p <> b -> pair_status g (fst (step g p)).
Proof.
  intros [Hid Hch] HpS Hpa Hpb.
  destruct (checkVhd_dichotomy g p) as [(v & Hv & Hfree) | Hrej].
  - destruct (checkVhd_opened g p v Hv Hfree) as (g0 & -> & Hv0 & Hid0 & _).
    pose proof (Hothers p v HpS Hpa Hpb Hv) as Hu.
    pose proof (vhdOf_path p v Hv) as Hpath.
    pose proof (dedupe_cases g0 v) as Hc. rewrite Hid0, Hv0 in Hc.
    unfold pair_status.
    destruct (JsMap.get (footer_uuid v) (vhdById g)) as [dup|] eqn:Edup.
    + destruct (Hid _ _ Edup) as [Hdu Hdv].
      assert (Hda : _path dup <> a)
        by (eapply (index_path_not _ dup a va); eauto; congruence).
      assert (Hdb : _path dup <> b)
        by (eapply (index_path_not _ dup b vb); eauto; congruence).
      destruct (containsAllDataOf w dup v).
      * destruct Hc as [-> ->]. rewrite Hpath, !set_delete_In.
        rewrite map_get_set_other by congruence. intuition congruence.
      * destruct (containsAllDataOf w v dup).
        -- destruct Hc as [-> ->]. rewrite !set_delete_In.
           rewrite map_get_set_other by congruence. intuition congruence.
        -- destruct Hc as (-> & -> & _).
           rewrite map_get_set_other by congruence. tauto.
    + destruct Hc as (-> & -> & _).
      rewrite map_get_set_other by congruence. tauto.
  - unfold pair_status.
    destruct (checkVhd_rejected g p Hrej) as (-> & -> & _).
    rewrite !set_delete_In. intuition congruence.
Qed.

Lemma checkVhd_others L l : forall g,
  (forall p, In p l -> In p L /\ In p S /\ p <> a /\ p <> b) ->
  inv L g ->
  inv L (fst (foldT step g l)) /\ pair_status g (fst (foldT step g l)).
Proof.
  induction l as [|p l IH]; intros g Hl Hg; simpl.
  - split; [assumption | apply pair_status_refl].
  - destruct (Hl p (or_introl eq_refl)) as (HpL & HpS & Hpa & Hpb).
    pose proof (checkVhd_inv L g p HpL Hg) as Hg1.
    pose proof (checkVhd_other L g p Hg HpS Hpa Hpb) as Hs1.
    destruct (step g p) as [g1 t1]. simpl in *.
    destruct (IH g1 (fun x Hx => Hl x (or_intror Hx)) Hg1) as [Hg2 Hs2].
    destruct (foldT step g1 l) as [g2 t2]. simpl in *.
    split; [assumption | eapply pair_status_trans; eassumption].
Qed.

End Pair.

End Duplicates.

Section DuplicatePair.

Variable w : World.
Variable remove : bool.
Variable interruptedVhds : JsMap.t path.

Local Abbreviation step := (checkVhd w remove interruptedVhds).
Local Abbreviation vhd_of := (vhdOf w interruptedVhds).
Local Abbreviation parent_of := (parentOf w interruptedVhds).
Local Abbreviation inv := (graph_inv w interruptedVhds).
Local Abbreviation only_child := (only_child w interruptedVhds).

Lemma only_child_free L l g x :
  inv l g -> only_child L x -> (forall p, In p l -> In p L /\ p <> x) ->
  forall q, parent_of x = Some q -> JsMap.get q (vhdChildren g) = None.
Proof.
  intros [_ Hch] Honly Hl q Hq.
  destruct (JsMap.get q (vhdChildren g)) as [v|] eqn:E; [|reflexivity].
  destruct (Hch q v E) as [Hv Hpv]. destruct (Hl v Hv) as [HvL Hne].
  exfalso. exact (Honly v q HvL Hne Hpv Hq).
Qed.

(** The VHD handled first, [a], and the one handled second, [b]. *)
Lemma dedupe_in_order a b va vb u l1 l2 l3 vhds0 :
  NoDup (l1 ++ a :: l2 ++ b :: l3) ->
  vhd_of a = Some va -> vhd_of b = Some vb ->
  footer_uuid va = u -> footer_uuid vb = u ->
  (forall p v, In p (l1 ++ a :: l2 ++ b :: l3) -> p <> a -> p <> b ->
               vhd_of p = Some v -> footer_uuid v <> u) ->
  only_child (l1 ++ a :: l2 ++ b :: l3) a ->
  only_child (l1 ++ a :: l2 ++ b :: l3) b ->
  In a vhds0 -> In b vhds0 ->
  let r := foldT step (mkGraph vhds0 [] [] []) (l1 ++ a :: l2 ++ b :: l3) in
  if containsAllDataOf w va vb then
    In a (vhds (fst r)) /\ ~ In b (vhds (fst r))
    /\ JsMap.get u (vhdById (fst r)) = Some va
  else if containsAllDataOf w vb va then
    In b (vhds (fst r)) /\ ~ In a (vhds (fst r))
    /\ JsMap.get u (vhdById (fst r)) = Some vb
  else
    In a (vhds (fst r)) /\ In b (vhds (fst r))
    /\ JsMap.get u (vhdById (fst r)) = Some vb
    /\ In (LogWarn "same ids but different content" []) (snd r).
Proof.
  intros Hnd Ha Hb Hua Hub Hothers Honly_a Honly_b Hina Hinb.
  set (L := l1 ++ a :: l2 ++ b :: l3) in *.
  set (g0 := mkGraph vhds0 [] [] []).
  assert (Hnd_a : ~ In a (l1 ++ l2 ++ b :: l3)) by (apply NoDup_remove_2; exact Hnd).
  assert (Hnd_b : ~ In b ((l1 ++ a :: l2) ++ l3)).
  { apply NoDup_remove_2. rewrite <- app_assoc. exact Hnd. }
  assert (Hab : a <> b).
  { intros ->. apply Hnd_a. rewrite !in_app_iff. simpl. auto. }
  assert (Hsub1 : forall p, In p l1 -> In p L /\ p <> a /\ p <> b).
  { intros p Hp. split; [unfold L; rewrite in_app_iff; auto|]. split; intros ->.
    - apply Hnd_a. rewrite in_app_iff. auto.
    - apply Hnd_b. rewrite !in_app_iff. auto. }
  assert (Hsub2 : forall p, In p l2 -> In p L /\ p <> a /\ p <> b).
  { intros p Hp. split; [unfold L; rewrite !in_app_iff; simpl; rewrite in_app_iff; auto|].
    split; intros ->.
    - apply Hnd_a. rewrite !in_app_iff. auto.
    - apply Hnd_b. rewrite !in_app_iff. simpl. auto. }
  assert (Hsub3 : forall p, In p l3 -> In p L /\ p <> a /\ p <> b).
  { intros p Hp. split; [unfold L; rewrite !in_app_iff; simpl; rewrite in_app_iff;
                         simpl; auto|].
    split; intros ->.
    - apply Hnd_a. rewrite !in_app_iff. simpl. auto.
    - apply Hnd_b. rewrite !in_app_iff. auto. }
  (* the VHDs handled before [a] *)
  assert (Hinv0 : inv l1 g0).
  { split; intros k v [=]. }
  destruct (checkVhd_others w remove interruptedVhds a b va vb u L Ha Hb Hua Hub Hothers
              l1 l1 g0) as [Hinv1 (Hu1 & Ha1 & Hb1)]; [|assumption|].
  { intros p Hp. split; [assumption | apply Hsub1, Hp]. }
  set (g1 := fst (foldT step g0 l1)) in *.
  (* [a] *)
  assert (Hfree_a : forall q, parent_of a = Some q -> JsMap.get q (vhdChildren g1) = None).
  { eapply only_child_free; [exact Hinv1 | exact Honly_a |].
    intros p Hp. destruct (Hsub1 p Hp) as (H1 & H2 & _). auto. }
  destruct (checkVhd_opened w remove interruptedVhds g1 a va Ha Hfree_a)
    as (g1' & Hstep_a & Hv1' & Hid1' & _).
  assert (Eget_a : JsMap.get (footer_uuid va) (vhdById g1') = None).
  { rewrite Hid1', Hua, Hu1. reflexivity. }
  pose proof (dedupe_cases w g1' va) as Hca.
  rewrite Eget_a in Hca. rewrite Hid1', Hv1', Hua, <- Hstep_a in Hca.
  destruct Hca as (Hva2 & Hid2 & _).
  set (g2 := fst (step g1 a)) in *.
  assert (Hinv2 : inv (l1 ++ a :: l2) g2).
  { apply checkVhd_inv; [rewrite in_app_iff; simpl; auto|].
    eapply graph_inv_weaken; [|exact Hinv1].
    intros x Hx. rewrite in_app_iff. auto. }
  (* the VHDs handled between [a] and [b] *)
  destruct (checkVhd_others w remove interruptedVhds a b va vb u L Ha Hb Hua Hub Hothers
              (l1 ++ a :: l2) l2 g2) as [Hinv3 (Hu3 & Ha3 & Hb3)]; [|assumption|].
  { intros p Hp. split; [rewrite in_app_iff; simpl; auto | apply Hsub2, Hp]. }
  set (g3 := fst (foldT step g2 l2)) in *.
  (* [b] *)
  assert (Hfree_b : forall q, parent_of b = Some q -> JsMap.get q (vhdChildren g3) = None).
  { eapply only_child_free; [exact Hinv3 | exact Honly_b |].
    intros p Hp. split.
    - unfold L. rewrite in_app_iff in *. simpl in *. rewrite in_app_iff. tauto.
    - intros ->. apply Hnd_b. rewrite in_app_iff. auto. }
  destruct (checkVhd_opened w remove interruptedVhds g3 b vb Hb Hfree_b)
    as (g3' & Hstep_b & Hv3' & Hid3' & _).
  assert (Eget_b : JsMap.get (footer_uuid vb) (vhdById g3') = Some va).
  { rewrite Hid3', Hub, Hu3, Hid2. apply map_get_set_same. }
  pose proof (dedupe_cases w g3' vb) as Hcb.
  rewrite Eget_b in Hcb. rewrite Hid3', Hv3', <- Hstep_b in Hcb.
  set (g4 := fst (step g3 b)) in *.
  assert (Hinv4 : inv L g4).
  { apply checkVhd_inv; [unfold L; rewrite in_app_iff; simpl; rewrite in_app_iff;
                         simpl; auto|].
    eapply graph_inv_weaken; [|exact Hinv3].
    intros x Hx. unfold L. rewrite in_app_iff in *. simpl in *.
    rewrite in_app_iff. tauto. }
  (* the VHDs handled after [b] *)
  destruct (checkVhd_others w remove interruptedVhds a b va vb u L Ha Hb Hua Hub Hothers
              L l3 g4) as [_ (Hu5 & Ha5 & Hb5)]; [|assumption|].
  { intros p Hp. destruct (Hsub3 p Hp) as (H1 & H2 & H3). auto. }
  assert (Efst : fst (foldT step g0 L) = fst (foldT step g4 l3)).
  { unfold L. rewrite foldT_split_fst. fold g1; fold g2.
    rewrite foldT_split_fst. reflexivity. }
  assert (Esnd : forall e, In e (snd (step g3 b)) -> In e (snd (foldT step g0 L))).
  { intros e He. unfold L.
    replace (l1 ++ a :: l2 ++ b :: l3) with ((l1 ++ a :: l2) ++ b :: l3)
      by (rewrite <- app_assoc; reflexivity).
    apply foldT_split_snd.
    replace (fst (foldT step g0 (l1 ++ a :: l2))) with g3; [assumption|].
    unfold g3, g2, g1. now rewrite foldT_split_fst. }
  assert (Ha2 : In a (vhds g3)) by (rewrite Ha3, Hva2, Ha1; exact Hina).
  assert (Hb2 : In b (vhds g3)) by (rewrite Hb3, Hva2, Hb1; exact Hinb).
  pose proof (vhdOf_path w interruptedVhds a va Ha) as Hpa.
  pose proof (vhdOf_path w interruptedVhds b vb Hb) as Hpb.
  cbv zeta. rewrite Efst.
  destruct (containsAllDataOf w va vb).
  - destruct Hcb as [Hv4 Hid4]. rewrite Hpb in Hv4. split; [|split].
    + apply Ha5. rewrite Hv4. apply set_delete_In. auto.
    + intros H. apply Hb5 in H. rewrite Hv4 in H. apply set_delete_In in H. tauto.
    + rewrite Hu5, Hid4, Hua. apply map_get_set_same.
  - destruct (containsAllDataOf w vb va).
    + destruct Hcb as [Hv4 Hid4]. rewrite Hpa in Hv4. split; [|split].
      * apply Hb5. rewrite Hv4. apply set_delete_In. auto.
      * intros H. apply Ha5 in H. rewrite Hv4 in H. apply set_delete_In in H. tauto.
      * rewrite Hu5, Hid4, Hub. apply map_get_set_same.
    + destruct Hcb as (Hv4 & Hid4 & Hwarn). split; [|split; [|split]].
      * apply Ha5. now rewrite Hv4.
      * apply Hb5. now rewrite Hv4.
      * rewrite Hu5, Hid4, Hub. apply map_get_set_same.
      * apply Esnd. exact Hwarn.
Qed.

End DuplicatePair.

Lemma checkVhds_keeps_opened w remove interruptedVhds vhds0 v diskType uuid pname :
  openVhd w v (negb (JsMap.has v interruptedVhds)) = Opened diskType uuid pname ->
  ~ In (Call (OpVhdUnlink v)) (snd (checkVhds w remove interruptedVhds vhds0)).
Proof.
  intros Hv H. unfold checkVhds in H.
  destruct (foldT (checkVhd w remove interruptedVhds) _ _) as [g t] eqn:E.
  simpl in H. apply in_app_iff in H. destruct H as [H | H].
  - apply in_map_iff in H. destruct H as (x & [=] & _).
  - replace t with (snd (foldT (checkVhd w remove interruptedVhds)
                      (mkGraph vhds0 [] [] []) (asyncOrder (completion w) vhds0)))
      in H by now rewrite E.
    apply foldT_In_inv in H. destruct H as (s' & a & _ & H).
    apply checkVhd_calls in H. destruct H as ([= <-] & _ & H). congruence.
Qed.

Lemma checkVhds_fold w remove interruptedVhds vhds0 :
  checkVhds w remove interruptedVhds vhds0
  = (fst (foldT (checkVhd w remove interruptedVhds) (mkGraph vhds0 [] [] [])
                (asyncOrder (completion w) vhds0)),
     map (fun p => Call (OpOpenVhd p (Some (negb (JsMap.has p interruptedVhds))))) vhds0
     ++ snd (foldT (checkVhd w remove interruptedVhds) (mkGraph vhds0 [] [] [])
                   (asyncOrder (completion w) vhds0))).
Proof.
  unfold checkVhds. now destruct (foldT _ _ _).
Qed.


(** ** The chains of unused VHDs (lines 397-429) *)

Section UsageChains.

Variable remove : bool.
Variable U : JsSet.t.
Variable ch : JsMap.t path.

Local Abbreviation covered := (covered remove U ch).
Local Abbreviation chains_sound := (chains_sound U ch).
Local Abbreviation all_covered := (all_covered remove U ch).
Local Abbreviation only_garbage_unlinked := (only_garbage_unlinked remove U ch).
Local Abbreviation keys_done := (keys_done U).

Lemma usage_not_garbage v l : UsageChain U ch v l -> ~ Garbage U ch v.
Proof.
  induction 1 as [v Hv | v child l Hv Hc Hl IH]; intros Hg.
  - inversion Hg; contradiction.
  - inversion Hg as [? ? Hc' | ? child' ? Hc' Hg']; subst; [congruence|].
    rewrite Hc in Hc'. injection Hc' as <-. contradiction.
Qed.

Lemma usage_suffix v l x :
  UsageChain U ch v l -> In x l ->
  exists pre l', l = pre ++ l' /\ UsageChain U ch x l'.
Proof.
  induction 1 as [v Hv | v child l Hv Hc Hl IH]; intros Hx.
  - destruct Hx as [<- | []]. exists [], [v]. split; [reflexivity | now constructor].
  - destruct Hx as [<- | Hx].
    + exists [], (v :: l). split; [reflexivity | econstructor; eassumption].
    + destruct (IH Hx) as (pre & l' & -> & Hl'). exists (v :: pre), l'. auto.
Qed.

Lemma unusedVhd_events v :
  Garbage U ch v ->
  only_garbage_unlinked (unusedVhd remove v)
  /\ (remove = true -> In (Call (OpVhdUnlink v)) (unusedVhd remove v)).
Proof.
  intros Hg. unfold unusedVhd. split.
  - intros o [[=] | H]. destruct remove; [|contradiction].
    destruct H as [[=] | [[= <-] | []]]. eauto.
  - intros ->. simpl. auto.
Qed.

Lemma only_garbage_app t1 t2 :
  only_garbage_unlinked t1 -> only_garbage_unlinked t2 ->
  only_garbage_unlinked (t1 ++ t2).
Proof.
  intros H1 H2 o Ho. apply in_app_iff in Ho. destruct Ho; auto.
Qed.

Lemma covered_later M r t t' v : covered M r t v -> covered M r (t ++ t') v.
Proof.
  intros [[Hg Hu] | H]; [left | now right].
  split; [assumption|]. intros Hr. apply in_app_iff. auto.
Qed.

(** One call of [getUsedChildChainOrDelete]. *)
Lemma getUsedChildChainOrDelete_sound fuel : forall st vhd r st' t t0 pending,
  getUsedChildChainOrDelete fuel remove U ch st vhd = Some (r, st', t) ->
  chains_sound (vhdChainsToMerge st) ->
  all_covered st None t0 pending ->
  chains_sound (vhdChainsToMerge st')
  /\ all_covered st' r (t0 ++ t) pending
  /\ match r with
     | Some c => exists l, c = map Some l /\ UsageChain U ch vhd l
     | None => Garbage U ch vhd
     end
  /\ only_garbage_unlinked t
  /\ (forall x, In x (toCheck st') -> In x (toCheck st))
  /\ (forall k x, JsMap.get k (vhdChainsToMerge st') = Some x ->
                  JsMap.get k (vhdChainsToMerge st) = Some x)
  /\ (In vhd U -> JsMap.get vhd (vhdChainsToMerge st) = None ->
      ~ In vhd (toCheck st')).
Proof.
  induction fuel as [|fuel IH]; intros st vhd r st' t t0 pending; simpl; [discriminate|].
  destruct (JsMap.get vhd (vhdChainsToMerge st)) as [stored|] eqn:Eget.
  - (* the chain is in the dictionary *)
    intros [= <- <- <-] [Hs1 Hs2] Hcov. simpl.
    assert (Hsub : forall k x, JsMap.get k (JsMap.delete vhd (vhdChainsToMerge st)) = Some x ->
                               JsMap.get k (vhdChainsToMerge st) = Some x).
    { intros k x. destruct (String.eqb k vhd) eqn:Ek.
      - apply String.eqb_eq in Ek. subst k. rewrite map_get_delete_same. discriminate.
      - apply String.eqb_neq in Ek. now rewrite map_get_delete_other. }
    split; [|split; [|split; [|split; [|split; [|split]]]]].
    + split.
      * intros k c Hk. apply Hs1. now apply Hsub.
      * intros k Hk. apply Hs2. now apply Hsub.
    + intros v Hv HvT Hvp. rewrite app_nil_r.
      destruct (Hcov v Hv HvT Hvp) as [Hg | (l & pre & Hl & [[k Hk] | [=]])];
        [now left|].
      right. exists l, pre. split; [assumption|].
      destruct (String.eqb k vhd) eqn:Ek.
      * apply String.eqb_eq in Ek. subst k. right. congruence.
      * apply String.eqb_neq in Ek. left. exists k. simpl.
        now rewrite map_get_delete_other.
    + destruct stored as [c|]; [now apply Hs1 | now apply Hs2].
    + intros o [].
    + auto.
    + assumption.
    + intros _ [=].
  - destruct (JsSet.has vhd U) eqn:EU; simpl.
    + apply set_has_In in EU.
      set (st1 := mkChains (vhdChainsToMerge st) (JsSet.delete vhd (toCheck st))).
      assert (Hcov1 : forall t1, all_covered st None t1 pending ->
                                 all_covered st1 None t1 (vhd :: pending)).
      { intros t1 Hc v Hv HvT Hvp. simpl in *. apply Hc; [assumption| |tauto].
        rewrite set_delete_In in HvT. intros H. apply HvT. split; [assumption|].
        intros ->. tauto. }
      assert (HT1 : forall st2, (forall x, In x (toCheck st2) -> In x (toCheck st1)) ->
                    (forall x, In x (toCheck st2) -> In x (toCheck st))
                    /\ ~ In vhd (toCheck st2)).
      { intros st2 HT. split.
        - intros x Hx. apply HT in Hx. simpl in Hx. apply set_delete_In in Hx. tauto.
        - intros Hx. apply HT in Hx. simpl in Hx. apply set_delete_In in Hx. tauto. }
      destruct (JsMap.get vhd ch) as [child|] eqn:Echild.
      * destruct (getUsedChildChainOrDelete fuel remove U ch st1 child)
          as [[[[c'|] st2] t2]|] eqn:Erec; [| |discriminate].
        -- (* the child leads to a used VHD *)
           intros [= <- <- <-] Hs Hcov.
           destruct (IH _ _ _ _ _ t0 (vhd :: pending) Erec Hs (Hcov1 t0 Hcov))
             as (Hs' & Hcov' & (l & -> & Hl) & Hev & HT & HM & _).
           destruct (HT1 st2 HT) as [HT' Hout].
           split; [|split; [|split; [|split; [|split; [|split]]]]];
             try assumption.
           ++ intros v Hv HvT Hvp.
              destruct (String.eqb v vhd) eqn:Ev.
              ** apply String.eqb_eq in Ev. subst v. right.
                 exists (vhd :: l), []. split; [econstructor; eassumption | now right].
              ** apply String.eqb_neq in Ev.
                 destruct (Hcov' v Hv HvT) as [Hg | (l' & pre & Hl' & [Hk | E])].
                 --- simpl. intuition congruence.
                 --- now left.
                 --- right. exists l', pre. auto.
                 --- right. exists l', (vhd :: pre). split; [assumption|].
                     right. injection E as E. simpl. now rewrite E.
           ++ exists (vhd :: l). split; [reflexivity | econstructor; eassumption].
           ++ intros _ _. exact Hout.
        -- (* the child leads to garbage *)
           intros [= <- <- <-] Hs Hcov.
           destruct (IH _ _ _ _ _ t0 (vhd :: pending) Erec Hs (Hcov1 t0 Hcov))
             as (Hs' & Hcov' & Hg & Hev & HT & HM & _).
           destruct (HT1 st2 HT) as [HT' Hout].
           assert (Hgv : Garbage U ch vhd) by (eapply garbage_step; eassumption).
           destruct (unusedVhd_events vhd Hgv) as [Hev1 Hev2].
           split; [|split; [|split; [|split; [|split; [|split]]]]];
             try assumption.
           ++ intros v Hv HvT Hvp. rewrite app_assoc.
              destruct (String.eqb v vhd) eqn:Ev.
              ** apply String.eqb_eq in Ev. subst v. left. split; [assumption|].
                 intros Hr. apply in_app_iff. right. auto.
              ** apply String.eqb_neq in Ev. apply covered_later.
                 apply Hcov'; [assumption | assumption | simpl; intuition congruence].
           ++ now apply only_garbage_app.
           ++ intros _ _. exact Hout.
      * (* no child *)
        intros [= <- <- <-] Hs Hcov.
        assert (Hgv : Garbage U ch vhd) by (now apply garbage_leaf).
        destruct (unusedVhd_events vhd Hgv) as [Hev1 Hev2].
        destruct (HT1 st1 (fun x H => H)) as [HT' Hout].
        split; [|split; [|split; [|split; [|split; [|split]]]]];
          try assumption.
        -- intros v Hv HvT Hvp.
           destruct (String.eqb v vhd) eqn:Ev.
           ++ apply String.eqb_eq in Ev. subst v. left. split; [assumption|].
              intros Hr. apply in_app_iff. right. auto.
           ++ apply String.eqb_neq in Ev. apply covered_later.
              apply Hcov; [assumption| |assumption].
              simpl in HvT. rewrite set_delete_In in HvT. tauto.
        -- auto.
        -- intros _ _. exact Hout.
    + (* a VHD that is not unused *)
      apply set_has_not_In in EU.
      intros [= <- <- <-] Hs Hcov. rewrite app_nil_r.
      split; [|split; [|split; [|split; [|split; [|split]]]]];
        try assumption.
      * intros v Hv HvT Hvp.
        destruct (Hcov v Hv HvT Hvp) as [Hg | (l & pre & Hl & [Hk | [=]])];
          [now left|]. right. exists l, pre. auto.
      * exists [vhd]. split; [reflexivity | now constructor].
      * intros o [].
      * auto.
      * auto.
      * intros H. contradiction.
Qed.

Lemma forEachToCheck_sound fuel l : forall st st' t t0,
  forEachToCheck fuel remove U ch st l = (Some st', t) ->
  chains_sound (vhdChainsToMerge st) ->
  all_covered st None t0 [] ->
  keys_done st ->
  (forall x, In x (toCheck st) -> In x U) ->
  only_garbage_unlinked t0 ->
  chains_sound (vhdChainsToMerge st')
  /\ all_covered st' None (t0 ++ t) []
  /\ keys_done st'
  /\ only_garbage_unlinked (t0 ++ t)
  /\ (forall x, In x (toCheck st') -> In x (toCheck st))
  /\ (forall v, In v l -> ~ In v (toCheck st')).
Proof.
  induction l as [|vhd l IH]; intros st st' t t0; simpl.
  - intros [= <- <-] Hs Hcov Hkeys HTU Hev. rewrite app_nil_r.
    split; [|split; [|split; [|split; [|split]]]]; try assumption; [auto|].
    intros v [].
  - destruct (JsSet.has vhd (toCheck st)) eqn:EvT.
    + apply set_has_In in EvT.
      destruct (getUsedChildChainOrDelete fuel remove U ch st vhd)
        as [[[r st1] t1]|] eqn:Erec; [|discriminate].
      destruct (forEachToCheck fuel remove U ch _ l) as [r2 t2] eqn:Erest.
      intros [= -> <-] Hs Hcov Hkeys HTU Hev.
      destruct (getUsedChildChainOrDelete_sound _ _ _ _ _ _ t0 [] Erec Hs Hcov)
        as (Hs1 & Hcov1 & Hshape & Hev1 & HT1 & HM1 & Hout).
      assert (HvU : In vhd U) by now apply HTU.
      assert (Hfresh : JsMap.get vhd (vhdChainsToMerge st) = None).
      { destruct (JsMap.get vhd (vhdChainsToMerge st)) as [x|] eqn:E; [|reflexivity].
        destruct (Hkeys vhd x E). contradiction. }
      specialize (Hout HvU Hfresh).
      set (st2 := mkChains (JsMap.set vhd r (vhdChainsToMerge st1)) (toCheck st1)) in *.
      assert (Hother : forall k x, JsMap.get k (vhdChainsToMerge st1) = Some x -> k <> vhd).
      { intros k x Hk ->. apply HM1 in Hk. congruence. }
      destruct (IH st2 st' t2 (t0 ++ t1) Erest) as (H1 & H2 & H3 & H4 & H5 & H6).
      * destruct Hs1 as [Hs1a Hs1b]. split; simpl.
        -- intros k c. destruct (String.eqb k vhd) eqn:Ek.
           ++ apply String.eqb_eq in Ek. subst k. rewrite map_get_set_same.
              intros [= ->]. exact Hshape.
           ++ apply String.eqb_neq in Ek. rewrite map_get_set_other by assumption.
              apply Hs1a.
        -- intros k. destruct (String.eqb k vhd) eqn:Ek.
           ++ apply String.eqb_eq in Ek. subst k. rewrite map_get_set_same.
              intros [= ->]. exact Hshape.
           ++ apply String.eqb_neq in Ek. rewrite map_get_set_other by assumption.
              apply Hs1b.
      * intros v Hv HvT Hvp. simpl in HvT.
        destruct (Hcov1 v Hv HvT Hvp) as [Hg | (l' & pre & Hl' & [[k Hk] | ->])];
          [now left | |]; right; exists l', pre; (split; [assumption|]); left.
        -- exists k. simpl. rewrite map_get_set_other; [assumption|]. eapply Hother, Hk.
        -- exists vhd. simpl. apply map_get_set_same.
      * intros k x. simpl. destruct (String.eqb k vhd) eqn:Ek.
        -- apply String.eqb_eq in Ek. subst k. auto.
        -- apply String.eqb_neq in Ek. rewrite map_get_set_other by assumption.
           intros Hk. apply HM1 in Hk. destruct (Hkeys k x Hk) as [Hk1 Hk2].
           split; [|assumption]. intros Hin. apply Hk1. now apply HT1.
      * intros x Hx. simpl in Hx. apply HTU. now apply HT1.
      * now apply only_garbage_app.
      * rewrite app_assoc. split; [|split; [|split; [|split; [|split]]]]; try assumption.
        -- intros x Hx. apply HT1. now apply H5 in Hx.
        -- intros v [<- | Hv]; [|now apply H6].
           intros Hin. apply Hout. now apply H5 in Hin.
    + apply set_has_not_In in EvT.
      intros Hrest Hs Hcov Hkeys HTU Hev.
      destruct (IH st st' t t0 Hrest Hs Hcov Hkeys HTU Hev)
        as (H1 & H2 & H3 & H4 & H5 & H6).
      split; [|split; [|split; [|split; [|split]]]]; try assumption.
      intros v [<- | Hv]; [|now apply H6].
      intros Hin. apply EvT. now apply H5.
Qed.

Lemma getUsedChildChainOrDelete_total fuel : forall st vhd,
  walk_ends U ch fuel vhd = true ->
  getUsedChildChainOrDelete fuel remove U ch st vhd <> None.
Proof.
  induction fuel as [|fuel IH]; intros st vhd; simpl; [discriminate|].
  destruct (JsMap.get vhd (vhdChainsToMerge st)); [discriminate|].
  destruct (negb (JsSet.has vhd U)); [discriminate|].
  destruct (JsMap.get vhd ch) as [child|]; [|discriminate].
  intros Hw.
  specialize (IH (mkChains (vhdChainsToMerge st) (JsSet.delete vhd (toCheck st)))
                 child Hw).
  destruct (getUsedChildChainOrDelete fuel remove U ch _ child)
    as [[[[c|] st2] t2]|]; [discriminate | discriminate | contradiction].
Qed.

Lemma forEachToCheck_total fuel l : forall st,
  (forall v, In v l -> walk_ends U ch fuel v = true) ->
  fst (forEachToCheck fuel remove U ch st l) <> None.
Proof.
  induction l as [|vhd l IH]; intros st Hl; simpl; [discriminate|].
  assert (Hl' : forall v, In v l -> walk_ends U ch fuel v = true)
    by (intros v Hv; apply Hl; now right).
  destruct (JsSet.has vhd (toCheck st)); [|now apply IH].
  pose proof (getUsedChildChainOrDelete_total fuel st vhd (Hl vhd (or_introl eq_refl)))
    as Hv.
  destruct (getUsedChildChainOrDelete fuel remove U ch st vhd)
    as [[[r st1] t1]|]; [|contradiction].
  specialize (IH (mkChains (JsMap.set vhd r (vhdChainsToMerge st1)) (toCheck st1)) Hl').
  now destruct (forEachToCheck fuel remove U ch _ l).
Qed.

(** C3, as the code has it.  When the walk from every unused VHD ends
    within the depth of the stack, the loop over the unused VHDs returns,
    and: a chain of the dictionary is kept under an unused VHD, starts with
    it, goes from child to child through unused VHDs and has as its last
    element the first VHD reached that is not unused; an unused VHD from
    which a used VHD is reached is in such a chain, followed by the whole
    walk from it; an unused VHD whose walk ends at an unused VHD without a
    child, one without a child to begin with, is in no chain and is unlinked
    exactly when [remove] is set; and nothing else is unlinked. *)
Theorem unused_chains_include_used_child (fuel : nat) :
  (forall v, In v U -> walk_ends U ch fuel v = true) ->
  exists st t,
    usageChains fuel remove U ch = (Some st, t)
    /\ (forall k c,
           In (k, Some c) (vhdChainsToMerge st) ->
           In k U /\ exists l, c = map Some l /\ UsageChain U ch k l)
    /\ (forall v l,
           In v U -> UsageChain U ch v l ->
           exists k pre, In (k, Some (map Some (pre ++ l))) (vhdChainsToMerge st))
    /\ (forall v,
           In v U -> Garbage U ch v ->
           (In (Call (OpVhdUnlink v)) t <-> remove = true)
           /\ forall k c, In (k, Some c) (vhdChainsToMerge st) -> ~ In (Some v) c)
    /\ (forall o,
           In (Call o) t ->
           exists p, o = OpVhdUnlink p /\ Garbage U ch p /\ remove = true).
Proof.
  intros Hwalk. unfold usageChains.
  pose proof (forEachToCheck_total fuel U (mkChains [] U) Hwalk) as Htotal.
  destruct (forEachToCheck fuel remove U ch (mkChains [] U) U) as [[st|] t] eqn:E;
    [|contradiction]. clear Htotal.
  exists st, t. split; [reflexivity|].
  assert (Hnd : NoDup (JsMap.keys (vhdChainsToMerge st))).
  { eapply forEachToCheck_inv; [|exact E|]; [auto|].
    split; [constructor | intros k c []]. }
  destruct (forEachToCheck_sound fuel U (mkChains [] U) st t [] E)
    as ([Hs1 Hs2] & Hcov & Hkeys & Hev & _ & Hdone).
  { split; intros k; discriminate. }
  { intros v Hv HvT. contradiction. }
  { intros k x [=]. }
  { auto. }
  { intros o []. }
  simpl in Hcov, Hev.
  assert (Hchain : forall k c, In (k, Some c) (vhdChainsToMerge st) ->
                               In k U /\ exists l, c = map Some l /\ UsageChain U ch k l).
  { intros k c Hk. apply map_In_get in Hk; [|assumption].
    split; [apply (Hkeys k _ Hk) | now apply Hs1]. }
  split; [exact Hchain | split; [|split]].
  - intros v l Hv Hl.
    destruct (Hcov v Hv (Hdone v Hv) (fun H => H))
      as [[Hg _] | (l' & pre & Hl' & [[k Hk] | [=]])].
    + exfalso. eapply usage_not_garbage; eassumption.
    + assert (l' = l).
      { clear - Hl Hl'. revert l' Hl'.
        induction Hl as [v Hv | v child l Hv Hc Hl IH]; intros l' Hl'.
        - inversion Hl'; subst; [reflexivity | contradiction].
        - inversion Hl' as [|? child' l'' ? Hc' Hl'']; subst; [contradiction|].
          rewrite Hc in Hc'. injection Hc' as <-. f_equal. now apply IH. }
      subst l'. exists k, pre. now apply map_get_In.
  - intros v Hv Hg. split; [split|].
    + intros H. apply Hev in H. destruct H as (p & _ & _ & Hr). exact Hr.
    + intros Hr.
      destruct (Hcov v Hv (Hdone v Hv) (fun H => H)) as [[_ Hu] | (l' & _ & Hl' & _)].
      * now apply Hu.
      * exfalso. eapply usage_not_garbage; eassumption.
    + intros k c Hk Hin. destruct (Hchain k c Hk) as [_ (l & -> & Hl)].
      apply in_map_iff in Hin. destruct Hin as (x & [= ->] & Hx).
      destruct (usage_suffix k l v Hl Hx) as (pre & l' & _ & Hl').
      eapply usage_not_garbage; eassumption.
  - exact Hev.
Qed.

End UsageChains.

(** ** VHDs with missing ancestors (lines 271-307) *)

Section Orphans.

Variable remove : bool.
Variable V : JsSet.t.          (* the active set when the stage starts *)
Variable P : JsMap.t path.     (* vhdParents when the stage starts *)
Hypothesis Hacyclic : Acyclic P.

Local Abbreviation prune_inv := (prune_inv remove V P).

Lemma orphan_parent v q :
  JsMap.get v P = Some q -> (Orphan P V v <-> ~ In q V \/ Orphan P V q).
Proof.
  intros Hv. split.
  - intros (a & Ha & HaV). inversion Ha as [? ? Hv' | ? q' ? Hv' Hq]; subst.
    + left. congruence.
    + right. exists a. split; [congruence | assumption].
  - intros [Hq | (a & Ha & HaV)].
    + exists q. split; [now constructor | assumption].
    + exists a. split; [eapply ancestor_step; eassumption | assumption].
Qed.

Lemma deleteIfOrphan_correct st vhdPath : forall t0 pending,
  prune_inv st t0 pending ->
  ~ In vhdPath pending ->
  (forall a, Ancestor P a vhdPath -> ~ In a pending) ->
  prune_inv (fst (deleteIfOrphan remove st vhdPath))
            (t0 ++ snd (deleteIfOrphan remove st vhdPath)) pending
  /\ JsMap.get vhdPath (p_vhdParents (fst (deleteIfOrphan remove st vhdPath))) = None
  /\ (forall v, JsMap.get v (p_vhdParents st) = None ->
                JsMap.get v (p_vhdParents (fst (deleteIfOrphan remove st vhdPath))) = None).
Proof.
  apply (deleteIfOrphan_induction remove
           (fun st vhdPath r =>
              forall t0 pending,
                prune_inv st t0 pending ->
                ~ In vhdPath pending ->
                (forall a, Ancestor P a vhdPath -> ~ In a pending) ->
                prune_inv (fst r) (t0 ++ snd r) pending
                /\ JsMap.get vhdPath (p_vhdParents (fst r)) = None
                /\ (forall v, JsMap.get v (p_vhdParents st) = None ->
                              JsMap.get v (p_vhdParents (fst r)) = None)));
    clear st vhdPath.
  - intros st v Hnone t0 pending Hinv _ _. simpl. rewrite app_nil_r. auto.
  - intros st v q Hq st1 IH t0 pending Hinv Hv Hanc.
    assert (HqP : JsMap.get v P = Some q) by (eapply inv_parents; eassumption).
    assert (Hqv : q <> v).
    { intros ->. apply (Hacyclic v). now constructor. }
    (* the state in which [deleteIfOrphan(parent)] is called *)
    assert (Hinv1 : prune_inv st1 t0 (v :: pending)).
    { destruct Hinv as [Ha Hb Hg Hc Hd He]. unfold st1. constructor; simpl.
      - intros u x Hu. apply Ha.
        destruct (String.eqb u v) eqn:E.
        + apply String.eqb_eq in E. subst u. rewrite map_get_delete_same in Hu.
          discriminate.
        + apply String.eqb_neq in E. now rewrite map_get_delete_other in Hu.
      - intros u Hu Hup. apply Hb; [|tauto].
        rewrite map_get_delete_other in Hu; [assumption | intros ->; apply Hup; now left].
      - intros u Hu Hup. apply Hg; [|tauto].
        rewrite map_get_delete_other in Hu; [assumption | intros ->; apply Hup; now left].
      - intros u Hu. apply Hc.
        destruct (String.eqb u v) eqn:E.
        + apply String.eqb_eq in E. subst u. left. congruence.
        + apply String.eqb_neq in E. rewrite map_get_delete_other in Hu by assumption.
          destruct Hu as [Hu | [Hu | Hu]]; [now left | congruence | now right].
      - intros u. rewrite Hd.
        destruct (String.eqb u v) eqn:E.
        + apply String.eqb_eq in E. subst u. rewrite map_get_delete_same.
          split; [intros (_ & _ & H & _); congruence | intros (_ & _ & _ & H); tauto].
        + apply String.eqb_neq in E. rewrite map_get_delete_other by assumption.
          split; intros (H1 & H2 & H3 & H4); repeat split; auto.
          intros [H | H]; [congruence | contradiction].
      - exact He. }
    destruct (IH t0 (v :: pending) Hinv1) as (Hinv2 & Hqdone & Hmono).
    { intros [H | H]; [congruence|]. eapply Hanc; [|exact H]. now constructor. }
    { intros a Ha [H | H].
      - subst a. apply (Hacyclic v). eapply ancestor_step; eassumption.
      - eapply Hanc; [|exact H]. eapply ancestor_step; eassumption. }
    assert (Hvdone : JsMap.get v (p_vhdParents (fst (deleteIfOrphan remove st1 q))) = None).
    { apply Hmono. unfold st1. simpl. apply map_get_delete_same. }
    assert (Hmono' : forall u, JsMap.get u (p_vhdParents st) = None ->
                JsMap.get u (p_vhdParents (fst (deleteIfOrphan remove st1 q))) = None).
    { intros u Hu. apply Hmono. unfold st1. simpl.
      destruct (String.eqb u v) eqn:E.
      - apply String.eqb_eq in E. subst u. apply map_get_delete_same.
      - apply String.eqb_neq in E. now rewrite map_get_delete_other. }
    unfold orphanCheck.
    destruct (deleteIfOrphan remove st1 q) as [st2 t2]. simpl in *.
    destruct Hinv2 as [Ha Hb Hg Hc Hd He].
    assert (Hqp : ~ In q (v :: pending)).
    { intros [H | H]; [congruence|]. eapply Hanc; [|exact H]. now constructor. }
    assert (Hq2 : In q (p_vhds st2) <-> In q V /\ ~ Orphan P V q)
      by (now apply Hb).
    pose proof (orphan_parent v q HqP) as Horphan.
    destruct (JsSet.has q (p_vhds st2)) eqn:EqV; simpl.
    + apply set_has_In in EqV. apply Hq2 in EqV.
      assert (Hnot : ~ Orphan P V v) by (rewrite Horphan; tauto).
      split; [|split; assumption]. constructor.
      * exact Ha.
      * intros u Hu Hup. destruct (String.eqb u v) eqn:E.
        -- apply String.eqb_eq in E. subst u.
           rewrite (Hc v (or_intror (or_introl eq_refl))). tauto.
        -- apply String.eqb_neq in E. apply Hb; [assumption|].
           intros [H | H]; [congruence | contradiction].
      * intros u Hu Hup Hout HuV. destruct (String.eqb u v) eqn:E.
        -- apply String.eqb_eq in E. subst u. exfalso. apply Hout.
           now apply (Hc v (or_intror (or_introl eq_refl))).
        -- apply String.eqb_neq in E. apply Hg; try assumption.
           intros [H | H]; [congruence | contradiction].
      * intros u Hu. apply Hc. destruct Hu; [now left | now right; right].
      * intros u. rewrite Hd. split.
        -- intros (H1 & H2 & H3 & H4). repeat split; auto.
           intros H. apply H4. now right.
        -- intros (H1 & H2 & H3 & H4). repeat split; auto.
           intros [H | H]; [|contradiction]. subst u. contradiction.
      * exact He.
    + apply set_has_not_In in EqV.
      assert (Hyes : Orphan P V v).
      { rewrite Horphan. destruct (in_dec string_dec q V) as [HqV | HqV]; [|now left].
        right. now apply Hg. }
      split; [|split; assumption]. constructor; simpl.
      * exact Ha.
      * intros u Hu Hup. rewrite set_delete_In.
        destruct (String.eqb u v) eqn:E.
        -- apply String.eqb_eq in E. subst u. tauto.
        -- apply String.eqb_neq in E.
           rewrite (Hb u Hu); [tauto|]. intros [H | H]; [congruence | contradiction].
      * intros u Hu Hup Hout HuV. destruct (String.eqb u v) eqn:E.
        -- apply String.eqb_eq in E. now subst u.
        -- apply String.eqb_neq in E. apply Hg; try assumption.
           ++ intros [H | H]; [congruence | contradiction].
           ++ intros H. apply Hout. apply set_delete_In. auto.
      * intros u Hu. rewrite set_delete_In.
        assert (u <> v).
        { intros ->. destruct Hu as [Hu | Hu]; [congruence | contradiction]. }
        rewrite (Hc u); [tauto|]. destruct Hu; [now left | now right; right].
      * intros u. rewrite app_assoc, in_app_iff, Hd.
        destruct (String.eqb u v) eqn:E.
        -- apply String.eqb_eq in E. subst u. split.
           ++ intros [(_ & _ & _ & H) | H]; [exfalso; apply H; now left|].
              destruct remove; simpl in H; [auto | intuition discriminate].
           ++ intros (Hr & _). right. rewrite Hr. simpl. auto.
        -- apply String.eqb_neq in E. split.
           ++ intros [(H1 & H2 & H3 & H4) | H].
              ** repeat split; auto. intros H. apply H4. now right.
              ** exfalso. destruct remove; simpl in H;
                   [destruct H as [[=] | [[=] | [[=] | []]]] | destruct H as [[=] | []]];
                   congruence.
           ++ intros (H1 & H2 & H3 & H4). left. repeat split; auto.
              intros [H | H]; [congruence | contradiction].
      * intros o Ho. rewrite app_assoc in Ho. apply in_app_iff in Ho.
        destruct Ho as [Ho | Ho]; [now apply He|].
        destruct remove; simpl in Ho;
          [destruct Ho as [[=] | [[=] | [[= <-] | []]]]; eauto
          | destruct Ho as [[=] | []]].
Qed.

Lemma pruneOrphans_steps l : forall st t0,
  prune_inv st t0 [] ->
  prune_inv (fst (foldT (pruneStep remove) st l))
            (t0 ++ snd (foldT (pruneStep remove) st l)) []
  /\ (forall v, In v l ->
                JsMap.get v (p_vhdParents (fst (foldT (pruneStep remove) st l))) = None)
  /\ (forall v, JsMap.get v (p_vhdParents st) = None ->
                JsMap.get v (p_vhdParents (fst (foldT (pruneStep remove) st l))) = None).
Proof.
  induction l as [|a l IH]; intros st t0 Hinv; simpl.
  - rewrite app_nil_r. split; [assumption | split; [intros v [] | auto]].
  - assert (Hstep : prune_inv (fst (pruneStep remove st a))
                              (t0 ++ snd (pruneStep remove st a)) []
                    /\ JsMap.get a (p_vhdParents (fst (pruneStep remove st a))) = None
                    /\ (forall v, JsMap.get v (p_vhdParents st) = None ->
                                  JsMap.get v (p_vhdParents (fst (pruneStep remove st a)))
                                  = None)).
    { unfold pruneStep, JsMap.has.
      destruct (JsMap.get a (p_vhdParents st)) eqn:E.
      - apply deleteIfOrphan_correct; [assumption | auto | auto].
      - simpl. rewrite app_nil_r. auto. }
    destruct (pruneStep remove st a) as [st1 t1]. simpl in Hstep.
    destruct Hstep as (Hinv1 & Ha & Hmono1).
    destruct (IH st1 (t0 ++ t1) Hinv1) as (Hinv2 & Hl & Hmono2).
    destruct (foldT (pruneStep remove) st1 l) as [st2 t2]. simpl in *.
    rewrite app_assoc. split; [assumption | split].
    + intros v [<- | Hv]; [now apply Hmono2 | now apply Hl].
    + intros v Hv. now apply Hmono2, Hmono1.
Qed.

(** C2, as the code has it.  When no VHD is its own ancestor along the
    registered parents, the walk leaves in the active set exactly the VHDs
    all of whose ancestors were in it: a VHD with a registered parent that is
    absent is taken out, and so is every descendant of it; each of them is
    unlinked exactly when [remove] is set, and nothing else is. *)
Theorem orphans_pruned_when_acyclic :
  (forall v, In v (p_vhds (fst (pruneOrphans remove V P)))
             <-> In v V /\ ~ Orphan P V v)
  /\ (forall v, In (Call (OpVhdUnlink v)) (snd (pruneOrphans remove V P))
                <-> remove = true /\ Orphan P V v)
  /\ (forall o, In (Call o) (snd (pruneOrphans remove V P)) ->
                exists v, o = OpVhdUnlink v).
Proof.
  unfold pruneOrphans.
  assert (Hno : forall v, JsMap.get v P = None -> ~ Orphan P V v).
  { intros v Hv (a & Ha & _). inversion Ha; congruence. }
  destruct (pruneOrphans_steps (JsMap.keys P) (mkPruning V P) [])
    as ([Ha Hb Hg Hc Hd He] & Hkeys & _).
  { constructor; simpl.
    - auto.
    - intros v Hv _. specialize (Hno v Hv). tauto.
    - intros v _ _ H1 H2. contradiction.
    - tauto.
    - intros v. split; [intros [] | intros (_ & Ho & Hv & _)].
      exact (Hno v Hv Ho).
    - intros o []. }
  simpl in Hd, He.
  assert (Hall : forall v, JsMap.get v (p_vhdParents
                   (fst (foldT (pruneStep remove) (mkPruning V P) (JsMap.keys P)))) = None).
  { intros v. destruct (JsMap.get v P) as [q|] eqn:E.
    - apply Hkeys. eapply map_get_key. eassumption.
    - destruct (JsMap.get v (p_vhdParents _)) as [x|] eqn:E'; [|reflexivity].
      apply Ha in E'. congruence. }
  split; [|split].
  - intros v. apply Hb; [apply Hall | auto].
  - intros v. rewrite Hd. split; [tauto|]. intros [H1 H2].
    repeat split; auto.
  - exact He.
Qed.

End Orphans.

(** ** Records and chains of unused VHDs *)

(** A chain that the walk over the unused VHDs has stored starts with its
    key, an unused VHD. *)
Lemma usageChains_heads fuel remove U ch st t k c :
  usageChains fuel remove U ch = (Some st, t) ->
  In (k, Some c) (vhdChainsToMerge st) ->
  In k U /\ @hd (option path) None c = Some k.
Proof.
  unfold usageChains. intros E Hk.
  assert (Hnd : NoDup (JsMap.keys (vhdChainsToMerge st))).
  { eapply forEachToCheck_inv; [|exact E|]; [auto|].
    split; [constructor | intros k' c' []]. }
  destruct (forEachToCheck_sound remove U ch fuel U (mkChains [] U) st t [] E)
    as ([Hs1 _] & _ & Hkeys & _).
  { split; intros k'; discriminate. }
  { intros v Hv HvT. contradiction. }
  { intros k' x [=]. }
  { auto. }
  { intros o []. }
  apply map_In_get in Hk; [|assumption].
  split; [apply (Hkeys k _ Hk)|].
  destruct (Hs1 k c Hk) as (l & -> & Hl).
  destruct Hl; reflexivity.
Qed.

(** Without merge states, whatever is merged, no record is marked as
    merged: every chain starts with an unused VHD, and [doMerge] looks for
    the record of the chain under that VHD. *)
Lemma no_record_marked_without_merge_state
      (w : World) fuel remove merge vmDir V entries ch toMerge t k :
  chainsToMerge fuel remove
                (unusedVhds (fst (checkMetadatas w remove vmDir V entries))) ch []
  = (Some toMerge, t) ->
  JsMap.has k (metadataWithMergedVhd
                 (fst (doMerge w remove merge
                               (vhdsToJSons (fst (checkMetadatas w remove vmDir V entries)))
                               toMerge))) = true ->
  k = "undefined".
Proof.
  unfold chainsToMerge, chainsByAncestor.
  destruct (usageChains fuel remove _ ch) as [[st|] t'] eqn:E; [|discriminate].
  intros [= <- <-]. apply doMerge_marks_nothing.
  intros c Hc. apply collectChains_In in Hc. destruct Hc as [k' Hk'].
  simpl in Hk'.
  destruct (usageChains_heads _ _ _ _ _ _ _ _ E Hk') as [HU Hhd].
  exists k'. split; [assumption|].
  now apply unused_vhd_has_no_record.
Qed.

(** ** What the options allow *)

Lemma runCleanVm_stages w fuel opts vmDir :
  let r := runCleanVm w fuel opts vmDir in
  let entries := fold_left (classify w) (handler_list_prepend w vmDir) (mkEntries [] [] []) in
  let t_before :=
    snd (listVhds w vmDir)
    ++ snd (checkVhds w (remove opts) (l_interruptedVhds (run_listing r))
                      (l_vhds (run_listing r)))
    ++ snd (checkMergeStates (remove opts) (vhds (run_graph r))
                             (l_interruptedVhds (run_listing r)))
    ++ checkAllAliases w (remove opts) (l_aliases (run_listing r))
    ++ snd (pruneOrphans (remove opts) (vhds (run_graph r)) (vhdParents (run_graph r)))
    ++ (Call (OpList vmDir)
        :: map (fun p => Call (OpIsValidXva p)) (e_xvas entries)
        ++ flat_map (checkXva w) (e_xvas entries))
    ++ snd (checkMetadatas w (remove opts) vmDir (run_vhds r) entries) in
  let chains := chainsToMerge fuel (remove opts) (unusedVhds (run_refs r))
                              (vhdChildren (run_graph r)) (run_interruptedVhds r) in
  run_listing r = fst (listVhds w vmDir)
  /\ run_graph r = fst (checkVhds w (remove opts) (l_interruptedVhds (run_listing r))
                                  (l_vhds (run_listing r)))
  /\ run_interruptedVhds r
     = fst (checkMergeStates (remove opts) (vhds (run_graph r))
                             (l_interruptedVhds (run_listing r)))
  /\ run_vhds r
     = p_vhds (fst (pruneOrphans (remove opts) (vhds (run_graph r))
                                 (vhdParents (run_graph r))))
  /\ run_refs r = fst (checkMetadatas w (remove opts) vmDir (run_vhds r) entries)
  /\ run_toMerge r = fst chains
  /\ match run_toMerge r with
     | None => run_trace r = t_before ++ snd chains /\ run_result r = None
     | Some toMerge =>
         run_merging r = fst (doMerge w (remove opts) (merge opts)
                                      (vhdsToJSons (run_refs r)) toMerge)
         /\ run_trace r
            = t_before ++ snd chains
              ++ snd (doMerge w (remove opts) (merge opts) (vhdsToJSons (run_refs r)) toMerge)
              ++ (flat_map (unusedXva (remove opts)) (unusedXvas (run_refs r))
                  ++ flat_map (unusedXvaSum (remove opts) (e_xvas entries))
                              (e_xvaSums entries))
              ++ snd (checkSizes w (fixMetadata opts) vmDir
                                 (metadataWithMergedVhd (run_merging r))
                                 (jsons (run_refs r)))
         /\ run_result r = Some (mkSummary (negb (Nat.eqb (length toMerge) 0)))
     end.
Proof.
  unfold runCleanVm.
  destruct (listVhds w vmDir) as [listing t_list].
  destruct (checkVhds w (remove opts) _ _) as [graph t_open] eqn:Eg.
  destruct (checkMergeStates (remove opts) _ _) as [interrupted t_states] eqn:Ei.
  destruct (pruneOrphans (remove opts) _ _) as [pruned t_orphans] eqn:Ep.
  destruct (checkMetadatas w (remove opts) vmDir _ _) as [refs t_refs] eqn:Er.
  pose proof (toMerge_lengths fuel (remove opts) (unusedVhds refs) (vhdChildren graph)
                              interrupted) as Hlen.
  pose proof (checkMetadatas_readable w (remove opts) vmDir (p_vhds pruned)
                (fold_left (classify w) (handler_list_prepend w vmDir) (mkEntries [] [] [])))
    as Hread.
  rewrite Er in Hread. simpl in Hread.
  destruct (chainsToMerge fuel (remove opts) _ _ interrupted) as [[toMerge|] t_chains] eqn:Ec.
  - specialize (Hlen toMerge t_chains eq_refl).
    pose proof (doMerge_ok w (remove opts) (merge opts) (vhdsToJSons refs) toMerge Hlen) as Hok.
    destruct (doMerge w (remove opts) (merge opts) _ toMerge) as [merging t_merge] eqn:Em.
    simpl in Hok. rewrite Hok.
    pose proof (checkSizes_ok w (fixMetadata opts) vmDir (metadataWithMergedVhd merging)
                              (jsons refs) Hread) as Hsok.
    destruct (checkSizes w (fixMetadata opts) vmDir _ (jsons refs)) as [ok t_sizes] eqn:Es.
    simpl in Hsok. subst ok. simpl.
    rewrite Eg, Ei, Ep, Er, Ec, Em, Es. simpl.
    repeat split; try reflexivity.
  - simpl. rewrite Eg, Ei, Ep, Er, Ec. simpl.
    repeat split; try reflexivity.
Qed.

Ltac events_auto := simpl; repeat gated_step.

Lemma quiet_deletes b b' t : gated false t -> Forall (deletes_under b') t /\ gated b t.
Proof.
  intros H. split.
  - revert H. apply Forall_impl. intros e He.
    destruct e as [[]| |]; simpl in *; try exact I; specialize (He eq_refl); discriminate.
  - revert H. apply gated_weaken. discriminate.
Qed.

Lemma deletes_allowed opts t :
  Forall (deletes_under (remove opts)) t -> Forall (allowed opts) t.
Proof.
  apply Forall_impl. intros e. destruct e as [[]| |]; simpl; tauto.
Qed.

Lemma Forall_flat_map_each {A B} (P : B -> Prop) (f : A -> list B) l :
  (forall a, Forall P (f a)) -> Forall P (flat_map f l).
Proof.
  intros H. apply Forall_forall. intros e He. apply in_flat_map in He.
  destruct He as (a & _ & He). specialize (H a). rewrite Forall_forall in H. auto.
Qed.

Section Deletions.

Variable w : World.

Lemma checkVhds_deletes remove interrupted vhds0 :
  Forall (deletes_under remove) (snd (checkVhds w remove interrupted vhds0)).
Proof.
  rewrite checkVhds_fold. simpl. apply Forall_app. split.
  - apply Forall_forall. intros e He. apply in_map_iff in He.
    destruct He as (p & <- & _). exact I.
  - apply foldT_events. intros s a. apply Forall_forall. intros e He.
    destruct e as [o| |]; try exact I.
    apply checkVhd_calls in He. destruct He as (-> & -> & _). reflexivity.
Qed.

Lemma checkMergeStates_deletes remove V interrupted :
  Forall (deletes_under remove) (snd (checkMergeStates remove V interrupted)).
Proof.
  apply foldT_events. intros s a. unfold checkMergeState.
  destruct remove; events_auto.
Qed.

Lemma checkAliases_deletes remove aliasPaths dir :
  Forall (deletes_under remove) (checkAliases w remove aliasPaths dir).
Proof.
  assert (H : Forall (deletes_under remove) (snd (foldT (checkAlias w remove) [] aliasPaths))).
  { apply foldT_events. intros s a. unfold checkAlias.
    destruct remove; events_auto. }
  unfold checkAliases. destruct (foldT (checkAlias w remove) [] aliasPaths) as [found t].
  simpl in H. apply Forall_app. split; [assumption|].
  constructor; [exact I|].
  apply Forall_flat_map_each. intros p. unfold checkUnaliased.
  destruct remove; events_auto.
Qed.

Lemma checkAllAliases_deletes remove aliases :
  Forall (deletes_under remove) (checkAllAliases w remove aliases).
Proof.
  apply Forall_flat_map_each. intros dir. apply checkAliases_deletes.
Qed.

Lemma deleteIfOrphan_deletes remove st vhdPath :
  Forall (deletes_under remove) (snd (deleteIfOrphan remove st vhdPath)).
Proof.
  apply (deleteIfOrphan_induction remove
           (fun _ _ r => Forall (deletes_under remove) (snd r))).
  - intros. constructor.
  - intros st0 v parent _ st1 IH. unfold orphanCheck.
    destruct (deleteIfOrphan remove st1 parent) as [st2 t2]. simpl in IH.
    destruct (JsSet.has parent (p_vhds st2)); simpl; [assumption|].
    apply Forall_app. split; [assumption|]. destruct remove; events_auto.
Qed.

Lemma pruneOrphans_deletes remove V P :
  Forall (deletes_under remove) (snd (pruneOrphans remove V P)).
Proof.
  apply foldT_events. intros s a. unfold pruneStep.
  destruct (JsMap.has a (p_vhdParents s)); [apply deleteIfOrphan_deletes | constructor].
Qed.

Lemma checkMetadatas_deletes remove vmDir V entries :
  Forall (deletes_under remove) (snd (checkMetadatas w remove vmDir V entries)).
Proof.
  unfold checkMetadatas.
  destruct (foldT (checkMetadata w remove vmDir V (e_xvas entries)) _ _)
    as [st t] eqn:E. simpl.
  apply Forall_app. split.
  - apply Forall_forall. intros e He. apply in_map_iff in He.
    destruct He as (p & <- & _). exact I.
  - replace t with (snd (foldT (checkMetadata w remove vmDir V (e_xvas entries))
                               (mkRefs (e_jsons entries) V (e_xvas entries) [])
                               (asyncOrder (completion w) (e_jsons entries))))
      by now rewrite E.
    apply foldT_events. intros s a. unfold checkMetadata, incompleteBackup.
    destruct remove; events_auto.
Qed.

Lemma unusedVhd_deletes remove vhd : Forall (deletes_under remove) (unusedVhd remove vhd).
Proof. unfold unusedVhd. destruct remove; events_auto. Qed.

Lemma getUsedChildChainOrDelete_deletes fuel remove U ch : forall st vhd r st' t,
  getUsedChildChainOrDelete fuel remove U ch st vhd = Some (r, st', t) ->
  Forall (deletes_under remove) t.
Proof.
  induction fuel as [|fuel IH]; intros st vhd r st' t; simpl; [discriminate|].
  destruct (JsMap.get vhd (vhdChainsToMerge st)).
  - intros [= <- <- <-]. constructor.
  - destruct (negb (JsSet.has vhd U)).
    + intros [= <- <- <-]. constructor.
    + destruct (JsMap.get vhd ch) as [child|].
      * destruct (getUsedChildChainOrDelete fuel remove U ch _ child)
          as [[[[c'|] st2] t2]|] eqn:Erec; [| |discriminate];
          intros [= <- <- <-]; apply IH in Erec; [assumption|].
        apply Forall_app. split; [assumption | apply unusedVhd_deletes].
      * intros [= <- <- <-]. apply unusedVhd_deletes.
Qed.

Lemma forEachToCheck_deletes fuel remove U ch l : forall st,
  Forall (deletes_under remove) (snd (forEachToCheck fuel remove U ch st l)).
Proof.
  induction l as [|vhd l IH]; intros st; simpl; [constructor|].
  destruct (JsSet.has vhd (toCheck st)); [|apply IH].
  destruct (getUsedChildChainOrDelete fuel remove U ch st vhd)
    as [[[r st1] t1]|] eqn:Erec; [|constructor].
  specialize (IH (mkChains (JsMap.set vhd r (vhdChainsToMerge st1)) (toCheck st1))).
  destruct (forEachToCheck fuel remove U ch _ l) as [r2 t2]. simpl in *.
  apply Forall_app. split; [|assumption].
  eapply getUsedChildChainOrDelete_deletes. eassumption.
Qed.

Lemma chainsToMerge_deletes fuel remove U ch interrupted :
  Forall (deletes_under remove) (snd (chainsToMerge fuel remove U ch interrupted)).
Proof.
  unfold chainsToMerge, chainsByAncestor, usageChains.
  pose proof (forEachToCheck_deletes fuel remove U ch U (mkChains [] U)) as H.
  destruct (forEachToCheck fuel remove U ch _ U) as [[st|] t]; exact H.
Qed.

Lemma unused_files_deletes remove xvas unusedXvas xvaSums :
  Forall (deletes_under remove)
         (flat_map (unusedXva remove) unusedXvas
          ++ flat_map (unusedXvaSum remove xvas) xvaSums).
Proof.
  apply Forall_app; split; apply Forall_flat_map_each; intros p;
    unfold unusedXva, unusedXvaSum; destruct remove; events_auto.
Qed.

Lemma doMerge_allowed opts J toMerge :
  Forall (allowed opts) (snd (doMerge w (remove opts) (merge opts) J toMerge)).
Proof.
  apply foldT_events. intros s c. unfold mergeChain.
  assert (H : Forall (allowed opts) (snd (mergeVhdChain w (remove opts) (merge opts) c))).
  { unfold mergeVhdChain. destruct (merge opts) eqn:Em; events_auto. }
  destruct (mergeVhdChain w (remove opts) (merge opts) c) as [[[z|]|] t]; exact H.
Qed.

(** A record is marked as merged only under [merge]. *)
Lemma doMerge_marks_under_merge remove merge J toMerge k :
  JsMap.has k (metadataWithMergedVhd (fst (doMerge w remove merge J toMerge))) = true ->
  merge = true.
Proof.
  destruct merge; [reflexivity|]. rewrite doMerge_unmerged. discriminate.
Qed.

Lemma checkSizes_allowed opts vmDir mm jsons :
  (forall k, JsMap.has k mm = true -> merge opts = true) ->
  Forall (allowed opts) (snd (checkSizes w (fixMetadata opts) vmDir mm jsons)).
Proof.
  intros Hmm. apply foldT_events. intros s a.
  destruct (checkSize w (fixMetadata opts) vmDir mm a) as [ok t] eqn:E. simpl.
  revert E. unfold checkSize.
  assert (Hup : forall md z,
             Forall (allowed opts)
                    (updateSize w (fixMetadata opts) (JsMap.has a mm) a md z)).
  { intros md z. unfold updateSize.
    destruct ((JsMap.has a mm || fixMetadata opts) && size_differs (size md) z) eqn:Eb;
      [|constructor].
    apply andb_true_iff in Eb. destruct Eb as [Eb _]. apply orb_true_iff in Eb.
    constructor.
    - simpl. destruct Eb as [Eb|Eb]; [left; now apply (Hmm a) | now right].
    - destruct (writeFileFails w a); events_auto. }
  destruct (readMetadata w a) as [md|]; intros [= <- <-]; [|events_auto].
  constructor; [exact I|].
  destruct (mode md).
  - constructor; [exact I|]. destruct (getSize w _); [apply Hup | events_auto].
  - pose proof (computeVhdsSize_gated w false (linkedVhdsOf w vmDir md)) as H.
    apply (quiet_deletes false (remove opts)) in H. destruct H as [H _].
    apply deletes_allowed in H.
    destruct (computeVhdsSize w (linkedVhdsOf w vmDir md)) as [[[z|]|] t]; simpl in H.
    + apply Forall_app. split; [assumption|].
      apply Forall_app. split; [|apply Hup].
      destruct (negb _ && _); events_auto.
    + assumption.
    + apply Forall_app. split; [assumption | events_auto].
  - apply Hup.
Qed.

End Deletions.

(** The trace of a run: stages that only delete, then the merges, the
    deletion of the unused XVAs and checksums, and the sizes. *)
Lemma runCleanVm_shape (w : World) (fuel : nat) (opts : Options) (vmDir : path) :
  exists t_early t_unused,
    Forall (deletes_under (remove opts)) t_early
    /\ Forall (deletes_under (remove opts)) t_unused
    /\ match run_toMerge (runCleanVm w fuel opts vmDir) with
       | None =>
           run_trace (runCleanVm w fuel opts vmDir) = t_early
           /\ run_result (runCleanVm w fuel opts vmDir) = None
       | Some toMerge =>
           Forall (fun c => 2 <= length c) toMerge
           /\ run_merging (runCleanVm w fuel opts vmDir)
              = fst (doMerge w (remove opts) (merge opts)
                             (vhdsToJSons (run_refs (runCleanVm w fuel opts vmDir)))
                             toMerge)
           /\ run_trace (runCleanVm w fuel opts vmDir)
              = t_early
                ++ snd (doMerge w (remove opts) (merge opts)
                                (vhdsToJSons (run_refs (runCleanVm w fuel opts vmDir)))
                                toMerge)
                ++ t_unused
                ++ snd (checkSizes w (fixMetadata opts) vmDir
                          (metadataWithMergedVhd (run_merging (runCleanVm w fuel opts vmDir)))
                          (jsons (run_refs (runCleanVm w fuel opts vmDir))))
           /\ run_result (runCleanVm w fuel opts vmDir)
              = Some (mkSummary (negb (Nat.eqb (length toMerge) 0)))
       end.
Proof.
  pose proof (runCleanVm_stages w fuel opts vmDir) as H. cbv zeta in H.
  destruct H as (_ & _ & _ & _ & _ & Hchains & H).
  set (r := runCleanVm w fuel opts vmDir) in *.
  set (entries := fold_left (classify w) (handler_list_prepend w vmDir)
                            (mkEntries [] [] [])) in *.
  set (chains := chainsToMerge fuel (remove opts) (unusedVhds (run_refs r))
                               (vhdChildren (run_graph r)) (run_interruptedVhds r)) in *.
  match type of H with
  | match _ with
    | Some _ => _
    | None => run_trace r = ?t /\ _
    end => exists t
  end.
  exists (flat_map (unusedXva (remove opts)) (unusedXvas (run_refs r))
          ++ flat_map (unusedXvaSum (remove opts) (e_xvas entries)) (e_xvaSums entries)).
  split; [|split].
  - repeat (apply Forall_app; split).
    + apply (quiet_deletes false (remove opts)), listVhds_gated.
    + apply checkVhds_deletes.
    + apply checkMergeStates_deletes.
    + apply checkAllAliases_deletes.
    + apply pruneOrphans_deletes.
    + constructor; [exact I|]. apply Forall_app. split.
      * apply Forall_forall. intros e He. apply in_map_iff in He.
        destruct He as (p & <- & _). exact I.
      * apply Forall_flat_map_each. intros p. unfold checkXva.
        destruct (isValidXva w p); events_auto.
    + apply checkMetadatas_deletes.
    + apply chainsToMerge_deletes.
  - apply unused_files_deletes.
  - pose proof (toMerge_lengths fuel (remove opts) (unusedVhds (run_refs r))
                                (vhdChildren (run_graph r)) (run_interruptedVhds r)) as Hlen.
    fold chains in Hlen.
    destruct (run_toMerge r) as [toMerge|].
    + destruct H as (Hm & Ht & Hr).
      split; [|split; [assumption|split; [|assumption]]].
      * apply (Hlen toMerge (snd chains)). rewrite Hchains. now destruct chains.
      * rewrite Ht. rewrite <- !app_assoc. reflexivity.
    + exact H.
Qed.

Lemma deletes_no_write b t p z :
  Forall (deletes_under b) t -> ~ In (Call (OpWriteFile p z)) t.
Proof.
  intros H Hin. rewrite Forall_forall in H. exact (H _ Hin).
Qed.

Lemma deletes_no_merge b t parent children r :
  Forall (deletes_under b) t -> ~ In (Call (OpMergeVhd parent children r)) t.
Proof.
  intros H Hin. rewrite Forall_forall in H. exact (H _ Hin).
Qed.

(** X1.  Whatever the options, a run deletes only under [remove], merges only
    under [merge], handing [remove] to the merge, and writes a record only
    under [merge] or [fixMetadata]. *)
Theorem options_allow_every_change (w : World) (fuel : nat) (opts : Options)
        (vmDir : path) :
  Forall (allowed opts) (snd (cleanVm w fuel opts vmDir)).
Proof.
  unfold cleanVm. cbn [snd].
  destruct (runCleanVm_shape w fuel opts vmDir) as (t_early & t_unused & He & Hu & H).
  apply deletes_allowed in He. apply deletes_allowed in Hu.
  destruct (run_toMerge (runCleanVm w fuel opts vmDir)) as [toMerge|].
  - destruct H as (_ & Hm & -> & _).
    apply Forall_app; split; [exact He|].
    apply Forall_app; split; [apply doMerge_allowed|].
    apply Forall_app; split; [exact Hu|].
    apply checkSizes_allowed. intros k. rewrite Hm.
    apply doMerge_marks_under_merge.
  - destruct H as (-> & _). exact He.
Qed.

(** ** VHDs with missing ancestors, whatever the parent links *)

Section AnyLinks.

Variable remove : bool.
Variable V : JsSet.t.
Variable P : JsMap.t path.

Local Abbreviation links_inv := (links_inv remove V P).

Lemma deleteIfOrphan_links st vhdPath : forall t0 pending,
  links_inv st t0 pending ->
  links_inv (fst (deleteIfOrphan remove st vhdPath))
            (t0 ++ snd (deleteIfOrphan remove st vhdPath)) pending
  /\ JsMap.get vhdPath (p_vhdParents (fst (deleteIfOrphan remove st vhdPath))) = None
  /\ (forall v, JsMap.get v (p_vhdParents st) = None ->
                JsMap.get v (p_vhdParents (fst (deleteIfOrphan remove st vhdPath))) = None).
Proof.
  apply (deleteIfOrphan_induction remove
           (fun st vhdPath r =>
              forall t0 pending,
                links_inv st t0 pending ->
                links_inv (fst r) (t0 ++ snd r) pending
                /\ JsMap.get vhdPath (p_vhdParents (fst r)) = None
                /\ (forall v, JsMap.get v (p_vhdParents st) = None ->
                              JsMap.get v (p_vhdParents (fst r)) = None))).
  - intros st0 v Hnone t0 pending Hinv. simpl. rewrite app_nil_r. auto.
  - intros st0 v parent Hparent st1 IH t0 pending Hinv.
    assert (HP : JsMap.get v P = Some parent) by (eapply li_parents; eassumption).
    assert (Hinv1 : links_inv st1 t0 (v :: pending)).
    { destruct Hinv as [Ha Hb Hc Hd He]. subst st1. split; simpl.
      - intros x q Hx. apply Ha.
        destruct (string_dec x v) as [->|Hne];
          [rewrite map_get_delete_same in Hx; discriminate|].
        now rewrite map_get_delete_other in Hx.
      - assumption.
      - assumption.
      - intros x q Hx Hq Hnone Hpend. apply (Hd x q Hx Hq); [|tauto].
        rewrite map_get_delete_other in Hnone; [assumption|]. intros ->. apply Hpend. now left.
      - assumption. }
    specialize (IH t0 (v :: pending) Hinv1).
    destruct (deleteIfOrphan remove st1 parent) as [st2 t2].
    simpl in IH. destruct IH as (Hinv2 & _ & Hkeep).
    assert (Hv2 : JsMap.get v (p_vhdParents st2) = None).
    { apply Hkeep. subst st1. simpl. apply map_get_delete_same. }
    assert (Hkeep' : forall x, JsMap.get x (p_vhdParents st0) = None ->
                               JsMap.get x (p_vhdParents st2) = None).
    { intros x Hx. apply Hkeep. subst st1. simpl.
      destruct (string_dec x v) as [->|Hne];
        [apply map_get_delete_same | now rewrite map_get_delete_other]. }
    destruct Hinv2 as [Ha Hb Hc Hd He].
    unfold orphanCheck.
    destruct (JsSet.has parent (p_vhds st2)) eqn:Ehas; simpl.
    + apply set_has_In in Ehas.
      split; [|split; assumption].
      split; try assumption.
      intros x q Hx Hq Hnone Hpend.
      destruct (string_dec x v) as [->|Hne].
      * exfalso. apply Hq. rewrite HP in Hx. injection Hx as <-. now apply Hb.
      * apply (Hd x q Hx Hq Hnone). intros [<-|H]; [now apply Hne | now apply Hpend].
    + apply set_has_not_In in Ehas.
      assert (Horph : Orphan P V v).
      { destruct (in_dec string_dec parent V) as [Hin|Hout].
        - destruct (Hc parent Hin Ehas) as (a & Ha1 & Ha2).
          exists a. split; [|assumption]. eapply ancestor_step; eassumption.
        - exists parent. split; [|assumption]. now apply ancestor_parent. }
      split; [|split; assumption].
      split; simpl.
      * assumption.
      * intros x Hx. apply set_delete_In in Hx. apply Hb. tauto.
      * intros x Hx Hout. destruct (string_dec x v) as [->|Hne]; [assumption|].
        apply (Hc x Hx). intros H. apply Hout. apply set_delete_In. tauto.
      * intros x q Hx Hq Hnone Hpend Hin. apply set_delete_In in Hin.
        destruct Hin as [Hin Hne].
        apply (Hd x q Hx Hq Hnone); [|assumption].
        intros [<-|H]; [now apply Hne | now apply Hpend].
      * intros x Hx. rewrite app_assoc in Hx. apply in_app_iff in Hx.
        destruct Hx as [Hx|Hx].
        -- destruct (He x Hx) as (H1 & H2 & H3). split; [|split]; try assumption.
           intros H. apply set_delete_In in H. tauto.
        -- destruct remove; simpl in Hx.
           ++ destruct Hx as [Hx|[Hx|[Hx|[]]]]; try discriminate.
              injection Hx as <-. split; [reflexivity|split; [assumption|]].
              intros H. apply set_delete_In in H. tauto.
           ++ destruct Hx as [Hx|[]]. discriminate.
Qed.

Lemma pruneOrphans_links l : forall st t0,
  links_inv st t0 [] ->
  links_inv (fst (foldT (pruneStep remove) st l))
            (t0 ++ snd (foldT (pruneStep remove) st l)) []
  /\ (forall v, In v l ->
                JsMap.get v (p_vhdParents (fst (foldT (pruneStep remove) st l))) = None)
  /\ (forall v, JsMap.get v (p_vhdParents st) = None ->
                JsMap.get v (p_vhdParents (fst (foldT (pruneStep remove) st l))) = None).
Proof.
  induction l as [|a l IH]; intros st t0 Hinv; simpl.
  - rewrite app_nil_r. split; [assumption|]. split; [intros v []|auto].
  - assert (Hstep : links_inv (fst (pruneStep remove st a))
                              (t0 ++ snd (pruneStep remove st a)) []
                    /\ JsMap.get a (p_vhdParents (fst (pruneStep remove st a))) = None
                    /\ (forall v, JsMap.get v (p_vhdParents st) = None ->
                                  JsMap.get v (p_vhdParents (fst (pruneStep remove st a)))
                                  = None)).
    { unfold pruneStep. destruct (JsMap.has a (p_vhdParents st)) eqn:Ehas.
      - now apply deleteIfOrphan_links.
      - simpl. rewrite app_nil_r. split; [assumption|]. split; [|auto].
        destruct (JsMap.get a (p_vhdParents st)) eqn:E; [|reflexivity].
        assert (JsMap.has a (p_vhdParents st) = true)
          by (apply map_has_get; eauto).
        congruence. }
    destruct (pruneStep remove st a) as [st1 t1]. simpl in Hstep.
    destruct Hstep as (Hinv1 & Ha & Hkeep1).
    specialize (IH st1 (t0 ++ t1) Hinv1).
    destruct (foldT (pruneStep remove) st1 l) as [st2 t2]. simpl in *.
    destruct IH as (Hinv2 & Hl & Hkeep2).
    rewrite <- app_assoc in Hinv2.
    split; [assumption|]. split.
    + intros v [<-|Hv]; [now apply Hkeep2 | now apply Hl].
    + intros v Hv. now apply Hkeep2, Hkeep1.
Qed.

End AnyLinks.

(** X2.  Whatever the parent links are, cycles included, the stage only removes
    VHDs from the active set; a VHD it removes or unlinks has an ancestor
    that is absent from the active set; a VHD whose own parent is absent is
    always removed; and a VHD is unlinked only under [remove], and not
    before it has left the active set. *)
Theorem orphan_pruning_on_any_links (remove : bool) (V : JsSet.t) (P : JsMap.t path) :
  (forall v, In v (p_vhds (fst (pruneOrphans remove V P))) -> In v V)
  /\ (forall v, In v V -> ~ In v (p_vhds (fst (pruneOrphans remove V P))) ->
                Orphan P V v)
  /\ (forall v q, JsMap.get v P = Some q -> ~ In q V ->
                  ~ In v (p_vhds (fst (pruneOrphans remove V P))))
  /\ (forall v, In (Call (OpVhdUnlink v)) (snd (pruneOrphans remove V P)) ->
                remove = true /\ Orphan P V v
                /\ ~ In v (p_vhds (fst (pruneOrphans remove V P)))).
Proof.
  assert (H0 : links_inv remove V P (mkPruning V P) [] []).
  { split; simpl; try tauto.
    - intros v q Hv _ Hnone. congruence. }
  destruct (pruneOrphans_links remove V P (JsMap.keys P) _ _ H0) as (Hinv & Hkeys & _).
  simpl in Hinv. fold (pruneOrphans remove V P) in Hinv, Hkeys.
  destruct Hinv as [Ha Hb Hc Hd He].
  split; [assumption|]. split; [assumption|]. split; [|assumption].
  intros v q Hv Hq. apply (Hd v q Hv Hq); [|tauto].
  apply Hkeys. eapply map_get_key. eassumption.
Qed.

(** ** A loop of unused VHDs *)

Lemma garbage_walk_ends U ch v : Garbage U ch v -> exists n, walk_ends U ch n v = true.
Proof.
  induction 1 as [v Hv Hc | v child Hv Hc _ [n IH]].
  - exists 1. simpl. rewrite Hc. now destruct (negb (JsSet.has v U)).
  - exists (S n). simpl. rewrite Hc. now destruct (negb (JsSet.has v U)).
Qed.

Lemma usage_walk_ends U ch v l : UsageChain U ch v l -> exists n, walk_ends U ch n v = true.
Proof.
  induction 1 as [v Hv | v child l Hv Hc _ [n IH]].
  - exists 1. simpl. apply set_has_not_In in Hv. now rewrite Hv.
  - exists (S n). simpl. rewrite Hc. now destruct (negb (JsSet.has v U)).
Qed.

(** When the loop over the unused VHDs returns, the walk from every unused
    VHD has ended. *)
Lemma usageChains_walks_end fuel remove U ch st t v :
  usageChains fuel remove U ch = (Some st, t) ->
  In v U -> exists n, walk_ends U ch n v = true.
Proof.
  unfold usageChains. intros E Hv.
  destruct (forEachToCheck_sound remove U ch fuel U (mkChains [] U) st t [] E)
    as (_ & Hcov & _ & _ & _ & Hdone).
  { split; intros k; discriminate. }
  { intros x Hx HxT. contradiction. }
  { intros k x [=]. }
  { auto. }
  { intros o []. }
  destruct (Hcov v Hv (Hdone v Hv) (fun H => H)) as [[Hg _] | (l & _ & Hl & _)].
  - now apply garbage_walk_ends.
  - eapply usage_walk_ends. eassumption.
Qed.

(** X3.  The recursion of [getUsedChildChainOrDelete] has no guard against a loop
    of unused VHDs: when the walk from an unused VHD along the registered
    children never leaves the unused VHDs and never ends, the call stack
    overflows whatever its depth, no chain is computed, and [cleanVm]
    rejects without a summary. *)
Theorem unused_cycle_overflows (w : World) (fuel : nat) (opts : Options)
        (vmDir : path) (v : path) :
  In v (unusedVhds (run_refs (runCleanVm w fuel opts vmDir))) ->
  (forall n, walk_ends (unusedVhds (run_refs (runCleanVm w fuel opts vmDir)))
                       (vhdChildren (run_graph (runCleanVm w fuel opts vmDir))) n v
             = false) ->
  run_toMerge (runCleanVm w fuel opts vmDir) = None
  /\ fst (cleanVm w fuel opts vmDir) = None.
Proof.
  intros Hv Hwalk. unfold cleanVm. cbn [fst].
  pose proof (runCleanVm_stages w fuel opts vmDir) as H. cbv zeta in H.
  destruct H as (_ & _ & _ & _ & _ & Hchains & H).
  set (r := runCleanVm w fuel opts vmDir) in *.
  assert (Hnone : run_toMerge r = None).
  { rewrite Hchains. unfold chainsToMerge, chainsByAncestor.
    destruct (usageChains fuel (remove opts) (unusedVhds (run_refs r))
                          (vhdChildren (run_graph r))) as [[st|] t] eqn:E;
      [|reflexivity].
    exfalso. destruct (usageChains_walks_end _ _ _ _ _ _ v E Hv) as [n Hn].
    rewrite Hwalk in Hn. discriminate. }
  rewrite Hnone in H. destruct H as [_ H]. split; assumption.
Qed.

(** ** The aliases (lines 124-181) *)

Section Aliases.

Variable w : World.
Variable remove : bool.

Lemma checkAlias_found found alias x :
  In x (fst (checkAlias w remove found alias))
  <-> In x found
      \/ (alias_valid w alias = true /\ resolve w ["/"; resolveVhdAlias w alias] = x).
Proof.
  unfold checkAlias, alias_valid.
  destruct (isVhdFile w (resolveVhdAlias w alias)); simpl.
  - destruct (aliasTargetOpens w (resolveVhdAlias w alias)); simpl.
    + rewrite in_app_iff. simpl. intuition.
    + intuition discriminate.
  - intuition discriminate.
Qed.

Lemma checkAlias_trace found alias :
  snd (checkAlias w remove found alias) = snd (checkAlias w remove [] alias).
Proof.
  unfold checkAlias.
  destruct (isVhdFile w (resolveVhdAlias w alias)); simpl; [|reflexivity].
  now destruct (aliasTargetOpens w (resolveVhdAlias w alias)).
Qed.

Lemma checkAlias_fold l : forall found,
  (forall x, In x (fst (foldT (checkAlias w remove) found l))
             <-> In x found \/ referenced w l x)
  /\ (forall e, In e (snd (foldT (checkAlias w remove) found l))
                <-> exists alias, In alias l /\ In e (snd (checkAlias w remove [] alias))).
Proof.
  induction l as [|a l IH]; intros found; simpl.
  - split.
    + intros x. split; [tauto|]. intros [H|(alias & [] & _)]. assumption.
    + intros e. split; [intros []|intros (alias & [] & _)].
  - pose proof (checkAlias_found found a) as Hf.
    pose proof (checkAlias_trace found a) as Ht.
    destruct (checkAlias w remove found a) as [found1 t1]. simpl in Hf, Ht.
    specialize (IH found1).
    destruct (foldT (checkAlias w remove) found1 l) as [found2 t2]. simpl in *.
    destruct IH as [IH1 IH2]. split.
    + intros x. rewrite IH1, Hf. unfold referenced. split.
      * intros [[H|[H1 H2]]|(alias & H1 & H2)]; [now left| |].
        -- right. exists a. simpl. auto.
        -- right. exists alias. simpl. tauto.
      * intros [H|(alias & [<-|H1] & H2)]; [tauto|tauto|].
        right. exists alias. tauto.
    + intros e. rewrite in_app_iff, IH2, Ht. split.
      * intros [H|(alias & H1 & H2)]; [exists a; simpl; auto | exists alias; simpl; auto].
      * intros (alias & [<-|H1] & H2); [now left | right; exists alias; auto].
Qed.

Lemma checkAlias_calls alias o :
  In (Call o) (snd (checkAlias w remove [] alias))
  <-> o = OpResolveAlias alias
      \/ (isVhdFile w (resolveVhdAlias w alias) = true
          /\ o = OpOpenVhd (resolveVhdAlias w alias) None)
      \/ (remove = true /\ isVhdFile w (resolveVhdAlias w alias) = false
          /\ (o = OpUnlink (resolveVhdAlias w alias) \/ o = OpUnlink alias))
      \/ (remove = true /\ isVhdFile w (resolveVhdAlias w alias) = true
          /\ aliasTargetOpens w (resolveVhdAlias w alias) = false
          /\ o = OpVhdUnlink alias).
Proof.
  unfold checkAlias.
  destruct (isVhdFile w (resolveVhdAlias w alias));
    [destruct (aliasTargetOpens w (resolveVhdAlias w alias))|];
    destruct remove; simpl;
    try (destruct (aliasUnlinkError w alias) as [[c|]|];
         [destruct (String.eqb c "ENOENT")| |]);
    simpl; intuition congruence.
Qed.

Lemma checkUnaliased_calls found p o :
  In (Call o) (checkUnaliased remove found p)
  <-> remove = true /\ ~ In p found /\ o = OpVhdUnlink p.
Proof.
  unfold checkUnaliased.
  destruct (existsb (String.eqb p) found) eqn:E.
  - apply existsb_eqb_In in E. simpl. tauto.
  - assert (Hp : ~ In p found).
    { intros H. apply existsb_eqb_In in H. congruence. }
    destruct remove; simpl; intuition congruence.
Qed.

End Aliases.

(** X4.  [checkAliases] resolves every alias.  It deletes, under [remove] only:
    with [handler.unlink], an alias whose target is not a VHD file, and that
    target; with [VhdAbstract.unlink], an alias whose target is a VHD file
    that does not open, and a file of the data directory that is the target
    of no alias whose target is a VHD file that opens.  So a VHD of the data
    directory that a valid alias points to is never deleted as unused. *)
Theorem checkAliases_deletions (w : World) (remove : bool) (aliasPaths : list path)
        (targetDataRepository : path) :
  (forall alias,
      In (Call (OpResolveAlias alias)) (checkAliases w remove aliasPaths targetDataRepository)
      <-> In alias aliasPaths)
  /\ (forall p,
         In (Call (OpUnlink p)) (checkAliases w remove aliasPaths targetDataRepository)
         <-> remove = true
             /\ exists alias,
                  In alias aliasPaths
                  /\ isVhdFile w (resolveVhdAlias w alias) = false
                  /\ (p = resolveVhdAlias w alias \/ p = alias))
  /\ (forall p,
         In (Call (OpVhdUnlink p)) (checkAliases w remove aliasPaths targetDataRepository)
         <-> remove = true
             /\ ((In p aliasPaths
                  /\ isVhdFile w (resolveVhdAlias w p) = true
                  /\ aliasTargetOpens w (resolveVhdAlias w p) = false)
                 \/ (In p (handler_list_prepend w targetDataRepository)
                     /\ ~ referenced w aliasPaths p))).
Proof.
  unfold checkAliases.
  destruct (checkAlias_fold w remove aliasPaths []) as [Hfound Htrace].
  destruct (foldT (checkAlias w remove) [] aliasPaths) as [found t]. simpl in *.
  assert (Hcalls : forall o,
    In (Call o)
       (t ++ Call (OpList targetDataRepository)
          :: flat_map (checkUnaliased remove found)
                      (handler_list_prepend w targetDataRepository))
    <-> (exists alias, In alias aliasPaths
                       /\ In (Call o) (snd (checkAlias w remove [] alias)))
        \/ o = OpList targetDataRepository
        \/ (exists p, In p (handler_list_prepend w targetDataRepository)
                      /\ remove = true /\ ~ referenced w aliasPaths p
                      /\ o = OpVhdUnlink p)).
  { intros o. rewrite in_app_iff, Htrace. simpl. rewrite in_flat_map.
    split.
    - intros [H|[[= <-]|(p & Hp & H)]]; auto.
      apply checkUnaliased_calls in H. destruct H as (Hr & Hn & ->).
      right. right. exists p. repeat split; auto.
      intros H. apply Hn, Hfound. now right.
    - intros [H|[->|(p & Hp & Hr & Hn & ->)]]; auto.
      right. right. exists p. split; [assumption|].
      apply checkUnaliased_calls. repeat split; auto.
      intros H. apply Hfound in H. destruct H as [[]|H]. now apply Hn. }
  split; [|split].
  - intros alias. rewrite Hcalls. split.
    + intros [(a & Ha & H)|[[=]|(p & _ & _ & _ & [=])]].
      apply checkAlias_calls in H.
      destruct H as [[= <-]|[[_ [=]]|[(_ & _ & [[=]|[=]])|(_ & _ & _ & [=])]]].
      assumption.
    + intros H. left. exists alias. split; [assumption|].
      apply checkAlias_calls. now left.
  - intros p. rewrite Hcalls. split.
    + intros [(a & Ha & H)|[[=]|(q & _ & _ & _ & [=])]].
      apply checkAlias_calls in H.
      destruct H as [[=]|[[_ [=]]|[(Hr & Hv & H)|(_ & _ & _ & [=])]]].
      split; [assumption|]. exists a. split; [assumption|]. split; [assumption|].
      destruct H as [[= ->]|[= ->]]; auto.
    + intros (Hr & a & Ha & Hv & H). left. exists a. split; [assumption|].
      apply checkAlias_calls. right. right. left.
      split; [assumption|]. split; [assumption|].
      destruct H as [->| ->]; auto.
  - intros p. rewrite Hcalls. split.
    + intros [(a & Ha & H)|[[=]|(q & Hq & Hr & Hn & [= ->])]].
      * apply checkAlias_calls in H.
        destruct H as [[=]|[[_ [=]]|[(_ & _ & [[=]|[=]])|(Hr & Hv & Ho & [= ->])]]].
        split; [assumption|]. left. auto.
      * split; [assumption|]. right. auto.
    + intros (Hr & [(Ha & Hv & Ho)|(Hp & Hn)]).
      * left. exists p. split; [assumption|].
        apply checkAlias_calls. right. right. right. auto.
      * right. right. exists p. auto.
Qed.

(** ** The listing of the VHDs (lines 89-122) *)

Lemma grows_refl st :
  grows (fun _ => False) (fun _ _ => False) (fun _ _ => False) st st.
Proof.
  unfold grows. repeat split; try tauto.
  intros [H|[v []]]. assumption.
Qed.

Lemma grows_trans Q1 K1 L1 Q2 K2 L2 st st1 st2 :
  grows Q1 K1 L1 st st1 -> grows Q2 K2 L2 st1 st2 ->
  grows (fun p => Q1 p \/ Q2 p) (fun k v => K1 k v \/ K2 k v)
        (fun d l => L1 d l \/ L2 d l) st st2.
Proof.
  intros (A1 & A2 & A3 & A4 & A5) (B1 & B2 & B3 & B4 & B5).
  unfold grows. split; [|split; [|split; [|split]]].
  - intros p. rewrite B1, A1. tauto.
  - intros k v H. apply B2 in H. destruct H as [H|H]; [|tauto].
    apply A2 in H. tauto.
  - intros k. rewrite B3, A3. split.
    + intros [[H|[v H]]|[v H]]; eauto.
    + intros [H|[v [H|H]]]; eauto.
  - intros d l H. apply B4 in H. destruct H as [H|H]; [|tauto].
    apply A4 in H. tauto.
  - auto.
Qed.

Lemma grows_weaken (Q Q' : path -> Prop) (K K' : path -> path -> Prop)
      (L L' : path -> list path -> Prop) st st' :
  (forall p, Q p <-> Q' p) -> (forall k v, K k v <-> K' k v) ->
  (forall d l, L d l <-> L' d l) ->
  grows Q K L st st' -> grows Q' K' L' st st'.
Proof.
  intros HQ HK HL (A1 & A2 & A3 & A4 & A5).
  unfold grows. split; [|split; [|split; [|split]]].
  - intros p. rewrite A1, HQ. tauto.
  - intros k v H. apply A2 in H. rewrite <- HK. assumption.
  - intros k. rewrite A3. split; intros [H|[v H]]; auto; right; exists v; now apply HK.
  - intros d l H. apply A4 in H. rewrite <- HL. assumption.
  - assumption.
Qed.

Lemma grows_foldT {A} (f : Listing -> A -> Listing * trace)
      (Q : A -> path -> Prop) (K : A -> path -> path -> Prop)
      (L : A -> path -> list path -> Prop) l :
  (forall st a, grows (Q a) (K a) (L a) st (fst (f st a))) ->
  forall st,
    grows (fun p => exists a, In a l /\ Q a p)
          (fun k v => exists a, In a l /\ K a k v)
          (fun d x => exists a, In a l /\ L a d x)
          st (fst (foldT f st l)).
Proof.
  intros Hf. induction l as [|a l IH]; intros st; simpl.
  - eapply grows_weaken; [| | |apply grows_refl]; simpl; firstorder.
  - specialize (Hf st a). destruct (f st a) as [st1 t1]. simpl in Hf.
    specialize (IH st1). destruct (foldT f st1 l) as [st2 t2]. simpl in *.
    eapply grows_weaken; [| | |eapply grows_trans; [exact Hf | exact IH]];
      simpl; firstorder (subst; eauto).
Qed.

Lemma filter_both {A} (f g : A -> bool) l :
  filter f (filter g l) = filter (fun x => f x && g x) l.
Proof.
  induction l as [|a l IH]; simpl; [reflexivity|].
  destruct (g a); simpl; [|now rewrite andb_false_r].
  rewrite andb_true_r. destruct (f a); now rewrite IH.
Qed.

Section Listing.

Variable w : World.

Lemma listFile_grows vdiDir files : forall st,
  grows (fun p => exists file, In file files
                               /\ INTERRUPTED_VHDS_REG_exec file = None
                               /\ p = slash vdiDir file)
        (fun k v => exists file name, In file files
                                      /\ INTERRUPTED_VHDS_REG_exec file = Some name
                                      /\ k = slash vdiDir name /\ v = slash vdiDir file)
        (fun _ _ => False)
        st (fold_left (listFile vdiDir) files st).
Proof.
  induction files as [|file files IH]; intros st; simpl.
  - eapply grows_weaken; [| | |apply grows_refl]; simpl; firstorder.
  - assert (Hstep :
      grows (fun p => INTERRUPTED_VHDS_REG_exec file = None /\ p = slash vdiDir file)
            (fun k v => exists name, INTERRUPTED_VHDS_REG_exec file = Some name
                                     /\ k = slash vdiDir name /\ v = slash vdiDir file)
            (fun _ _ => False) st (listFile vdiDir st file)).
    { unfold listFile, grows.
      destruct (INTERRUPTED_VHDS_REG_exec file) as [name|]; simpl.
      - split; [|split; [|split; [|split]]]; auto.
        + intros p. split; [tauto|]. intros [H|[[=] _]]. assumption.
        + intros k v.
          destruct (string_dec k (slash vdiDir name)) as [->|Hne].
          * rewrite map_get_set_same. intros [= <-]. right. exists name. auto.
          * rewrite map_get_set_other by assumption. auto.
        + intros k. rewrite map_keys_set.
          destruct (JsMap.has (slash vdiDir name) (l_interruptedVhds st)) eqn:Eh.
          * split; [tauto|]. intros [H|(v & n & [= <-] & -> & _)]; [assumption|].
            now apply map_has_key.
          * rewrite in_app_iff. simpl. split.
            -- intros [H|[<-|[]]]; [tauto|]. right. exists (slash vdiDir file), name. auto.
            -- intros [H|(v & n & [= <-] & -> & _)]; auto.
      - split; [|split; [|split; [|split]]]; auto.
        + intros p. rewrite set_add_In. split.
          * intros [H| ->]; auto.
          * intros [H|[_ ->]]; auto.
        + intros k. split; [tauto|]. intros [H|(v & n & [=] & _)]. assumption.
        + apply set_add_NoDup. }
    specialize (IH (listFile vdiDir st file)).
    eapply grows_weaken; [| | |eapply grows_trans; [exact Hstep | exact IH]];
      simpl; firstorder (subst; eauto).
Qed.

Lemma listVdiDir_grows st vdiDir :
  grows (vhd_of_dir w vdiDir) (state_of_dir w vdiDir) (aliases_of_dir w vdiDir)
        st (fst (listVdiDir w st vdiDir)).
Proof.
  unfold listVdiDir. cbn [fst].
  set (keep := fun file => isVhdFile w file
                           || match INTERRUPTED_VHDS_REG_exec file with
                              | Some _ => true
                              | None => false
                              end).
  set (list := filter keep (handler_list w vdiDir)).
  set (st1 := mkListing _ _ _).
  assert (H1 : grows (fun _ => False) (fun _ _ => False) (aliases_of_dir w vdiDir) st st1).
  { unfold grows, st1. simpl. repeat split; try tauto.
    - intros [H|[v []]]. assumption.
    - intros d l. destruct (string_dec d vdiDir) as [->|Hne].
      + rewrite map_get_set_same. intros [= <-]. right. split; [reflexivity|].
        f_equal. unfold list. apply filter_both.
      + rewrite map_get_set_other by assumption. auto. }
  pose proof (listFile_grows vdiDir list st1) as H2.
  eapply grows_weaken; [| | |eapply grows_trans; [exact H1 | exact H2]]; simpl.
  - intros p. unfold vhd_of_dir, list. split.
    + intros [[]|(file & Hin & He & ->)]. apply filter_In in Hin.
      destruct Hin as [Hin Hk]. unfold keep in Hk. rewrite He, orb_false_r in Hk.
      exists file. auto.
    + intros (file & Hin & Hv & He & ->). right. exists file.
      split; [|auto]. apply filter_In. split; [assumption|].
      unfold keep. now rewrite Hv.
  - intros k v. unfold state_of_dir, list. split.
    + intros [[]|(file & name & Hin & He & -> & ->)]. apply filter_In in Hin.
      exists file, name. tauto.
    + intros (file & name & Hin & He & -> & ->). right. exists file, name.
      split; [|auto]. apply filter_In. split; [assumption|].
      unfold keep. rewrite He. apply orb_true_r.
  - intros d l. tauto.
Qed.

Lemma listJobDir_grows st jobDir :
  grows (fun p => exists vdiDir, In vdiDir (handler_list_prepend w jobDir)
                                 /\ vhd_of_dir w vdiDir p)
        (fun k v => exists vdiDir, In vdiDir (handler_list_prepend w jobDir)
                                   /\ state_of_dir w vdiDir k v)
        (fun d l => exists vdiDir, In vdiDir (handler_list_prepend w jobDir)
                                   /\ aliases_of_dir w vdiDir d l)
        st (fst (listJobDir w st jobDir)).
Proof.
  unfold listJobDir.
  pose proof (grows_foldT (listVdiDir w) (vhd_of_dir w) (state_of_dir w)
                          (aliases_of_dir w) (handler_list_prepend w jobDir)
                          (fun st a => listVdiDir_grows st a) st) as H.
  destruct (foldT (listVdiDir w) st (handler_list_prepend w jobDir)) as [st' t].
  exact H.
Qed.

Lemma listVhds_grows vmDir :
  grows (fun p => exists vdiDir, In vdiDir (vdiDirs w vmDir) /\ vhd_of_dir w vdiDir p)
        (fun k v => exists vdiDir, In vdiDir (vdiDirs w vmDir) /\ state_of_dir w vdiDir k v)
        (fun d l => exists vdiDir, In vdiDir (vdiDirs w vmDir)
                                   /\ aliases_of_dir w vdiDir d l)
        (mkListing [] [] []) (fst (listVhds w vmDir)).
Proof.
  unfold listVhds.
  pose proof (grows_foldT (listJobDir w) _ _ _ (handler_list_prepend w (slash vmDir "vdis"))
                          (fun st a => listJobDir_grows st a) (mkListing [] [] [])) as H.
  destruct (foldT (listJobDir w) _ _) as [st' t]. cbn [fst] in *.
  eapply grows_weaken; [| | |exact H]; simpl; unfold vdiDirs;
    intros; setoid_rewrite in_flat_map.
  all: split;
    [ intros (a & Ha & d' & Hd & H'); exists d'; eauto
    | intros (d' & (a & Ha & Hd) & H'); exists a; eauto ].
Qed.

Lemma listVhds_calls vmDir o :
  In (Call o) (snd (listVhds w vmDir))
  <-> o = OpList (slash vmDir "vdis")
      \/ (exists jobDir, In jobDir (handler_list_prepend w (slash vmDir "vdis"))
                         /\ o = OpList jobDir)
      \/ (exists vdiDir, In vdiDir (vdiDirs w vmDir) /\ o = OpList vdiDir).
Proof.
  unfold listVhds.
  destruct (foldT (listJobDir w) _ _) as [st t] eqn:E. simpl.
  replace t with (snd (foldT (listJobDir w) (mkListing [] [] [])
                             (handler_list_prepend w (slash vmDir "vdis"))))
    by now rewrite E.
  clear E. split.
  - intros [[= <-]|He]; [now left|].
    apply foldT_In_inv in He. destruct He as (s1 & jobDir & Hjob & He).
    unfold listJobDir in He.
    destruct (foldT (listVdiDir w) s1 _) as [st' t'] eqn:E'. simpl in He.
    destruct He as [[= <-]|He]; [right; left; eauto|].
    replace t' with (snd (foldT (listVdiDir w) s1 (handler_list_prepend w jobDir))) in He
      by now rewrite E'.
    apply foldT_In_inv in He. destruct He as (s2 & vdiDir & Hvdi & He).
    simpl in He. destruct He as [[= <-]|[]].
    right. right. exists vdiDir. split; [|reflexivity].
    unfold vdiDirs. apply in_flat_map. eauto.
  - intros [->|[(jobDir & Hjob & ->)|(vdiDir & Hvdi & ->)]]; [now left| |]; right.
    + apply foldT_In_intro with (a := jobDir); [assumption|].
      intros s. unfold listJobDir. destruct (foldT (listVdiDir w) s _). now left.
    + unfold vdiDirs in Hvdi. apply in_flat_map in Hvdi.
      destruct Hvdi as (jobDir & Hjob & Hvdi).
      apply foldT_In_intro with (a := jobDir); [assumption|].
      intros s. unfold listJobDir.
      destruct (foldT (listVdiDir w) s _) as [st' t'] eqn:E'. right.
      replace t' with (snd (foldT (listVdiDir w) s (handler_list_prepend w jobDir)))
        by now rewrite E'.
      apply foldT_In_intro with (a := vdiDir); [assumption|].
      intros s'. now left.
Qed.

End Listing.

(** X5.  [listVhds] lists [vdis], its entries and their entries, and nothing
    else.  In a directory of the second level, a file whose name matches
    [INTERRUPTED_VHDS_REG] is a merge state, kept under the path of the VHD
    it names, whether or not it is also named like a VHD; of the other
    files the VHD files, and only they, become the VHDs, each once. *)
Theorem listVhds_sorts_the_files (w : World) (vmDir : path) :
  (forall p, In p (l_vhds (fst (listVhds w vmDir)))
             <-> exists vdiDir, In vdiDir (vdiDirs w vmDir) /\ vhd_of_dir w vdiDir p)
  /\ NoDup (l_vhds (fst (listVhds w vmDir)))
  /\ (forall k, In k (JsMap.keys (l_interruptedVhds (fst (listVhds w vmDir))))
                <-> exists vdiDir v, In vdiDir (vdiDirs w vmDir)
                                     /\ state_of_dir w vdiDir k v)
  /\ (forall k v, JsMap.get k (l_interruptedVhds (fst (listVhds w vmDir))) = Some v ->
                  exists vdiDir, In vdiDir (vdiDirs w vmDir) /\ state_of_dir w vdiDir k v)
  /\ (forall d l, JsMap.get d (l_aliases (fst (listVhds w vmDir))) = Some l ->
                  In d (vdiDirs w vmDir) /\ aliases_of_dir w d d l)
  /\ (forall o, In (Call o) (snd (listVhds w vmDir))
                <-> o = OpList (slash vmDir "vdis")
                    \/ (exists jobDir,
                           In jobDir (handler_list_prepend w (slash vmDir "vdis"))
                           /\ o = OpList jobDir)
                    \/ (exists vdiDir, In vdiDir (vdiDirs w vmDir) /\ o = OpList vdiDir)).
Proof.
  destruct (listVhds_grows w vmDir) as (H1 & H2 & H3 & H4 & H5). simpl in *.
  split; [|split; [|split; [|split; [|split]]]].
  - intros p. rewrite H1. tauto.
  - apply H5. constructor.
  - intros k. rewrite H3. split.
    + intros [[]|(v & d & Hd & H)]. eauto.
    + intros (d & v & Hd & H). right. eauto.
  - intros k v H. apply H2 in H. destruct H as [[=]|H]. assumption.
  - intros d l H. apply H4 in H. destruct H as [[=]|(d' & Hd & H)].
    pose proof H as [-> _]. auto.
  - apply listVhds_calls.
Qed.

(** ** The names of the merge states (line 88) *)

Lemma substring_0_0 s : substring 0 0 s = EmptyString.
Proof. now destruct s. Qed.

Lemma substring_skip a : forall b k m,
  substring (String.length a + k) m (a ++ b)%string = substring k m b.
Proof. induction a as [|c a IH]; intros b k m; simpl; [reflexivity | apply IH]. Qed.

Lemma substring_prefix a b : substring 0 (String.length a) (a ++ b)%string = a.
Proof.
  induction a as [|c a IH]; simpl; [apply substring_0_0 | now rewrite IH].
Qed.

Lemma substring_all s : substring 0 (String.length s) s = s.
Proof. induction s as [|c s IH]; simpl; [reflexivity | now rewrite IH]. Qed.

Lemma substring_split s : forall i m,
  i + m <= String.length s ->
  substring 0 (i + m) s = (substring 0 i s ++ substring i m s)%string.
Proof.
  induction s as [|c s IH]; intros i m H; simpl in H.
  - assert (i = 0) by lia. assert (m = 0) by lia. subst. reflexivity.
  - destruct i as [|i]; simpl.
    + destruct m; reflexivity.
    + rewrite IH by lia. reflexivity.
Qed.

Lemma substring_length s : forall i m,
  i + m <= String.length s -> String.length (substring i m s) = m.
Proof.
  induction s as [|c s IH]; intros i m H; simpl in H.
  - assert (i = 0) by lia. assert (m = 0) by lia. subst. reflexivity.
  - destruct i as [|i]; simpl.
    + destruct m as [|m]; simpl; [reflexivity|]. rewrite IH by lia. reflexivity.
    + apply IH. lia.
Qed.

Lemma string_app_assoc (a b c : string) : ((a ++ b) ++ c = a ++ (b ++ c))%string.
Proof. induction a as [|x a IH]; simpl; [reflexivity | now rewrite IH]. Qed.

Lemma string_app_length (a b : string) :
  String.length (a ++ b) = String.length a + String.length b.
Proof. induction a as [|x a IH]; simpl; [reflexivity | now rewrite IH]. Qed.

(** X6.  [INTERRUPTED_VHDS_REG] matches exactly the names made of a dot, a
    non-empty name without line terminator, [.merge], any one character that
    is not a line terminator (the dot before [json] is not escaped) and
    [json]; the group is the name, so that the name of the file of a merge
    state gives back the name of the VHD. *)
Theorem INTERRUPTED_VHDS_REG_matches (file name : string) :
  INTERRUPTED_VHDS_REG_exec file = Some name
  <-> exists c : ascii,
        file = ("." ++ name ++ ".merge" ++ String c "json")%string
        /\ name <> EmptyString
        /\ no_line_terminator name = true
        /\ line_terminator c = false.
Proof.
  unfold INTERRUPTED_VHDS_REG_exec. split.
  - destruct (Nat.leb_spec 13 (String.length file)) as [Hn|]; [|discriminate].
    simpl.
    destruct (String.eqb_spec (substring 0 1 file) ".") as [E1|]; [|discriminate].
    destruct (String.eqb_spec (substring (String.length file - 11) 6 file) ".merge")
      as [E2|]; [|discriminate].
    destruct (String.eqb_spec (substring (String.length file - 4) 4 file) "json")
      as [E3|]; [|discriminate].
    simpl.
    destruct (no_line_terminator (substring 1 (String.length file - 12) file)) eqn:E4;
      [|discriminate].
    destruct (no_line_terminator (substring (String.length file - 5) 1 file)) eqn:E5;
      [|discriminate].
    simpl. intros [= <-].
    set (n := String.length file) in *.
    pose proof (substring_length file (n - 5) 1 ltac:(lia)) as Hc.
    destruct (substring (n - 5) 1 file) as [|c [|]] eqn:Ec; try discriminate.
    exists c. split; [|split; [|split]].
    + rewrite <- (substring_all file) at 1. fold n.
      replace n with (1 + (n - 12) + 6 + 1 + 4) at 1 by lia.
      rewrite !substring_split by lia.
      replace (1 + (n - 12)) with (n - 11) by lia.
      replace (n - 11 + 6) with (n - 5) by lia.
      replace (n - 5 + 1) with (n - 4) by lia.
      rewrite E1, E2, E3, Ec. simpl. rewrite !string_app_assoc. reflexivity.
    + intros H. pose proof (substring_length file 1 (n - 12) ltac:(lia)) as Hl.
      rewrite H in Hl. simpl in Hl. lia.
    + assumption.
    + unfold no_line_terminator in E5. simpl in E5.
      now destruct (line_terminator c).
  - intros (c & -> & Hne & Hname & Hc).
    assert (Hlen : String.length ("." ++ name ++ ".merge" ++ String c "json")
                   = String.length name + 12).
    { simpl. rewrite string_app_length. simpl. lia. }
    rewrite Hlen.
    assert (Hpos : 1 <= String.length name) by (destruct name; simpl; [congruence | lia]).
    destruct (Nat.leb_spec 13 (String.length name + 12)) as [_|]; [|lia].
    replace (String.length name + 12 - 11) with (String.length ("." ++ name) + 0)
      by (simpl; lia).
    replace (String.length name + 12 - 4)
      with (String.length ("." ++ name ++ ".merge" ++ String c EmptyString) + 0)
      by (simpl; rewrite string_app_length; simpl; lia).
    replace (String.length name + 12 - 5)
      with (String.length ("." ++ name ++ ".merge") + 0)
      by (simpl; rewrite string_app_length; simpl; lia).
    replace (String.length name + 12 - 12) with (String.length name) by lia.
    assert (S1 : substring 0 1 ("." ++ name ++ ".merge" ++ String c "json") = ".").
    { simpl. now rewrite substring_0_0. }
    assert (S2 : substring (String.length ("." ++ name) + 0) 6
                           ("." ++ name ++ ".merge" ++ String c "json") = ".merge").
    { replace ("." ++ name ++ ".merge" ++ String c "json")%string
        with (("." ++ name) ++ (".merge" ++ String c "json"))%string
        by (simpl; reflexivity).
      rewrite substring_skip. reflexivity. }
    assert (S3 : substring (String.length ("." ++ name ++ ".merge" ++ String c EmptyString)
                            + 0) 4
                           ("." ++ name ++ ".merge" ++ String c "json") = "json").
    { replace ("." ++ name ++ ".merge" ++ String c "json")%string
        with (("." ++ name ++ ".merge" ++ String c EmptyString) ++ "json")%string
        by (simpl; rewrite !string_app_assoc; reflexivity).
      rewrite substring_skip. reflexivity. }
    assert (S4 : substring 1 (String.length name)
                           ("." ++ name ++ ".merge" ++ String c "json") = name).
    { simpl. apply substring_prefix. }
    assert (S5 : substring (String.length ("." ++ name ++ ".merge") + 0) 1
                           ("." ++ name ++ ".merge" ++ String c "json")
                 = String c EmptyString).
    { replace ("." ++ name ++ ".merge" ++ String c "json")%string
        with (("." ++ name ++ ".merge") ++ String c "json")%string
        by (simpl; rewrite !string_app_assoc; reflexivity).
      rewrite substring_skip. reflexivity. }
    rewrite S1, S2, S3, S4, S5. simpl. rewrite Hname.
    unfold no_line_terminator. cbn [list_ascii_of_string forallb]. rewrite Hc.
    reflexivity.
Qed.

(** ** The records against the files (lines 333-385) *)

Section Records.

Variable w : World.
Variable remove : bool.
Variable vmDir : path.
Variable V : JsSet.t.
Variable X : JsSet.t.

Local Abbreviation vhd_link := (links_vhd w vmDir V).
Local Abbreviation xva_link := (links_xva w vmDir).
Local Abbreviation unfinished := (incomplete w vmDir V X).
Local Abbreviation step := (checkMetadata w remove vmDir V X).

Lemma missing_nil (l : list path) :
  filter (fun p => negb (JsSet.has p V)) l = [] <-> forall p, In p l -> In p V.
Proof.
  induction l as [|a l IH]; simpl; [tauto|].
  destruct (JsSet.has a V) eqn:E; simpl.
  - apply set_has_In in E. rewrite IH. split.
    + intros H p [<-|Hp]; auto.
    + intros H p Hp. apply H. now right.
  - apply set_has_not_In in E. split; [discriminate|].
    intros H. exfalso. apply E, H. now left.
Qed.

Lemma missing_cons (l : list path) a m :
  filter (fun p => negb (JsSet.has p V)) l = a :: m -> exists p, In p l /\ ~ In p V.
Proof.
  intros H. exists a.
  assert (Ha : In a (filter (fun p => negb (JsSet.has p V)) l)) by (rewrite H; now left).
  apply filter_In in Ha. destruct Ha as [Ha Hn]. split; [assumption|].
  apply negb_true_iff in Hn. now apply set_has_not_In.
Qed.

(** What one record changes. *)
Lemma checkMetadata_step st json :
  (forall v, In v (unusedVhds (fst (step st json)))
             <-> In v (unusedVhds st) /\ ~ vhd_link json v)
  /\ (forall x, In x (unusedXvas (fst (step st json)))
                <-> In x (unusedXvas st) /\ ~ (In x X /\ xva_link json x))
  /\ (forall j, In j (jsons (fst (step st json)))
                <-> In j (jsons st)
                    /\ ~ (j = json /\ (readMetadata w json = None
                                       \/ (remove = true /\ unfinished json))))
  /\ (forall v j, JsMap.get v (vhdsToJSons (fst (step st json))) = Some j ->
                  JsMap.get v (vhdsToJSons st) = Some j \/ (j = json /\ vhd_link json v))
  /\ (forall v, JsMap.get v (vhdsToJSons st) <> None \/ vhd_link json v ->
                JsMap.get v (vhdsToJSons (fst (step st json))) <> None)
  /\ (forall o, In (Call o) (snd (step st json))
                <-> remove = true /\ o = OpUnlink json /\ unfinished json).
Proof.
  unfold checkMetadata, incompleteBackup, links_vhd, links_xva, incomplete.
  destruct (readMetadata w json) as [md|] eqn:Eread.
  2:{ simpl. split; [|split; [|split; [|split; [|split]]]].
      - intros v. split; [|tauto]. intros H. split; [assumption|].
        intros (md & [=] & _).
      - intros x. split; [|tauto]. intros H. split; [assumption|].
        intros [_ (md & [=] & _)].
      - intros j. rewrite set_delete_In. split.
        + intros [H1 H2]. split; [assumption|]. intros [-> _]. now apply H2.
        + intros [H1 H2]. split; [assumption|]. intros ->. apply H2. auto.
      - auto.
      - intros v [H|(md & [=] & _)]. assumption.
      - intros o. split; [intros [[=]|[]]|]. intros (_ & _ & md & [=] & _). }
  destruct (mode md) eqn:Emode.
  - (* full *)
    destruct (JsSet.has (resolve w ["/"; vmDir; xva md]) X) eqn:Ehas.
    + apply set_has_In in Ehas. simpl.
      split; [|split; [|split; [|split; [|split]]]].
      * intros v. split; [|tauto]. intros H. split; [assumption|].
        intros (md' & [= <-] & Hm & _). congruence.
      * intros x. rewrite set_delete_In. split.
        -- intros [H1 H2]. split; [assumption|].
           intros [_ (md' & [= <-] & _ & H)]. congruence.
        -- intros [H1 H2]. split; [assumption|].
           intros ->. apply H2. split; [assumption|]. exists md. auto.
      * intros j. split; [|tauto]. intros H. split; [assumption|].
        intros [-> [[=]|[_ (md' & [= <-] & [[_ H']|[H' _]])]]]; [contradiction|congruence].
      * auto.
      * intros v [H|(md' & [= <-] & Hm & _)]; [assumption | congruence].
      * intros o. split; [intros []|].
        intros (_ & _ & md' & [= <-] & [[_ H']|[H' _]]); [contradiction|congruence].
    + apply set_has_not_In in Ehas.
      assert (Hinc : exists md0, Some md = Some md0
                /\ ((mode md0 = ModeFull /\ ~ In (resolve w ["/"; vmDir; xva md0]) X)
                    \/ (mode md0 = ModeDelta
                        /\ exists p, In p (linkedVhdsOf w vmDir md0) /\ ~ In p V))).
      { exists md. auto. }
      split; [|split; [|split; [|split; [|split]]]].
      * intros v. destruct remove; simpl; (split; [|tauto]); intros H;
          (split; [assumption|]); intros (md' & [= <-] & Hm & _); congruence.
      * intros x. destruct remove; simpl; (split; [|tauto]); intros H;
          (split; [assumption|]); intros [Hx (md' & [= <-] & _ & <-)]; contradiction.
      * intros j. destruct remove; simpl.
        -- rewrite set_delete_In. split.
           ++ intros [H1 H2]. split; [assumption|]. intros [-> _]. now apply H2.
           ++ intros [H1 H2]. split; [assumption|]. intros ->. apply H2. auto.
        -- split; [|tauto]. intros H. split; [assumption|].
           intros [_ [[=]|[[=] _]]].
      * intros v j. destruct remove; simpl; auto.
      * intros v [H|(md' & [= <-] & Hm & _)]; [|congruence].
        destruct remove; simpl; assumption.
      * intros o. destruct remove; simpl.
        -- split.
           ++ intros [[=]|[[=]|[[= <-]|[]]]]. auto.
           ++ intros (_ & -> & _). auto.
        -- split; [intros [[=]|[]] | intros ([=] & _)].
  - (* delta *)
    destruct (filter (fun p => negb (JsSet.has p V)) (linkedVhdsOf w vmDir md))
      as [|a m] eqn:Emiss.
    + pose proof (proj1 (missing_nil _) Emiss) as Hall. simpl.
      split; [|split; [|split; [|split; [|split]]]].
      * intros v. rewrite fold_delete_In. split.
        -- intros [H1 H2]. split; [assumption|].
           intros (md' & [= <-] & _ & _ & H). contradiction.
        -- intros [H1 H2]. split; [assumption|].
           intros H. apply H2. exists md. auto.
      * intros x. split; [|tauto]. intros H. split; [assumption|].
        intros [_ (md' & [= <-] & Hm & _)]. congruence.
      * intros j. split; [|tauto]. intros H. split; [assumption|].
        intros [-> [[=]|[_ (md' & [= <-] & [[H' _]|[_ (p & Hp & Hn)]])]]];
          [congruence | apply Hn, Hall, Hp].
      * intros v j. rewrite fold_set_get.
        destruct (existsb (String.eqb v) (linkedVhdsOf w vmDir md)) eqn:Eex; [|auto].
        apply existsb_eqb_In in Eex. intros [= <-]. right. split; [reflexivity|].
        exists md. auto.
      * intros v H. rewrite fold_set_get.
        destruct (existsb (String.eqb v) (linkedVhdsOf w vmDir md)) eqn:Eex;
          [discriminate|].
        destruct H as [H|(md' & [= <-] & _ & _ & H)]; [assumption|].
        apply existsb_eqb_In in H. congruence.
      * intros o. split; [intros []|].
        intros (_ & _ & md' & [= <-] & [[H' _]|[_ (p & Hp & Hn)]]);
          [congruence | apply Hn, Hall, Hp].
    + pose proof (missing_cons _ _ _ Emiss) as (p0 & Hp0 & Hn0).
      assert (Hinc : exists md0, Some md = Some md0
                /\ ((mode md0 = ModeFull /\ ~ In (resolve w ["/"; vmDir; xva md0]) X)
                    \/ (mode md0 = ModeDelta
                        /\ exists p, In p (linkedVhdsOf w vmDir md0) /\ ~ In p V))).
      { exists md. split; [reflexivity|]. right. eauto. }
      split; [|split; [|split; [|split; [|split]]]].
      * intros v. destruct remove; simpl; (split; [|tauto]); intros H;
          (split; [assumption|]); intros (md' & [= <-] & _ & Hall & _);
          apply Hn0, Hall, Hp0.
      * intros x. destruct remove; simpl; (split; [|tauto]); intros H;
          (split; [assumption|]); intros [_ (md' & [= <-] & Hm & _)]; congruence.
      * intros j. destruct remove; simpl.
        -- rewrite set_delete_In. split.
           ++ intros [H1 H2]. split; [assumption|]. intros [-> _]. now apply H2.
           ++ intros [H1 H2]. split; [assumption|]. intros ->. apply H2. auto.
        -- split; [|tauto]. intros H. split; [assumption|].
           intros [_ [[=]|[[=] _]]].
      * intros v j. destruct remove; simpl; auto.
      * intros v [H|(md' & [= <-] & _ & Hall & _)];
          [destruct remove; simpl; assumption | exfalso; apply Hn0, Hall, Hp0].
      * intros o. destruct remove; simpl.
        -- split.
           ++ intros [[=]|[[=]|[[= <-]|[]]]]. auto.
           ++ intros (_ & -> & _). auto.
        -- split; [intros [[=]|[]] | intros ([=] & _)].
  - (* another mode *)
    simpl. split; [|split; [|split; [|split; [|split]]]].
    + intros v. split; [|tauto]. intros H. split; [assumption|].
      intros (md' & [= <-] & Hm & _). congruence.
    + intros x. split; [|tauto]. intros H. split; [assumption|].
      intros [_ (md' & [= <-] & Hm & _)]. congruence.
    + intros j. split; [|tauto]. intros H. split; [assumption|].
      intros [-> [[=]|[_ (md' & [= <-] & [[H' _]|[H' _]])]]]; congruence.
    + auto.
    + intros v [H|(md' & [= <-] & Hm & _)]; [assumption | congruence].
    + intros o. split; [intros []|].
      intros (_ & _ & md' & [= <-] & [[H' _]|[H' _]]); congruence.
Qed.

Lemma checkMetadata_fold l : forall st,
  (forall v, In v (unusedVhds (fst (foldT step st l)))
             <-> In v (unusedVhds st) /\ ~ exists json, In json l /\ vhd_link json v)
  /\ (forall x, In x (unusedXvas (fst (foldT step st l)))
                <-> In x (unusedXvas st)
                    /\ ~ (In x X /\ exists json, In json l /\ xva_link json x))
  /\ (forall j, In j (jsons (fst (foldT step st l)))
                <-> In j (jsons st)
                    /\ ~ (In j l /\ (readMetadata w j = None
                                     \/ (remove = true /\ unfinished j))))
  /\ (forall v j, JsMap.get v (vhdsToJSons (fst (foldT step st l))) = Some j ->
                  JsMap.get v (vhdsToJSons st) = Some j \/ (In j l /\ vhd_link j v))
  /\ (forall v, JsMap.get v (vhdsToJSons st) <> None
                \/ (exists json, In json l /\ vhd_link json v) ->
                JsMap.get v (vhdsToJSons (fst (foldT step st l))) <> None)
  /\ (forall o, In (Call o) (snd (foldT step st l))
                <-> remove = true
                    /\ exists json, In json l /\ o = OpUnlink json /\ unfinished json).
Proof.
  induction l as [|a l IH]; intros st; simpl.
  - split; [|split; [|split; [|split; [|split]]]].
    + intros v. split; [|tauto]. intros H. split; [assumption|]. intros (json & [] & _).
    + intros x. split; [|tauto]. intros H. split; [assumption|].
      intros [_ (json & [] & _)].
    + intros j. tauto.
    + auto.
    + intros v [H|(json & [] & _)]. assumption.
    + intros o. split; [intros []|]. intros (_ & json & [] & _).
  - destruct (checkMetadata_step st a) as (S1 & S2 & S3 & S4 & S5 & S6).
    destruct (step st a) as [st1 t1]. simpl in *.
    destruct (IH st1) as (I1 & I2 & I3 & I4 & I5 & I6).
    destruct (foldT step st1 l) as [st2 t2]. simpl in *.
    split; [|split; [|split; [|split; [|split]]]].
    + intros v. rewrite I1, S1. split.
      * intros [[H1 H2] H3]. split; [assumption|].
        intros (json & [<-|Hj] & H); [contradiction | apply H3; eauto].
      * intros [H1 H2]. split; [split; [assumption|]|].
        -- intros H. apply H2. eauto.
        -- intros (json & Hj & H). apply H2. eauto.
    + intros x. rewrite I2, S2. split.
      * intros [[H1 H2] H3]. split; [assumption|].
        intros [Hx (json & [<-|Hj] & H)]; [apply H2; auto | apply H3; eauto].
      * intros [H1 H2]. split; [split; [assumption|]|].
        -- intros [Hx H]. apply H2. eauto.
        -- intros [Hx (json & Hj & H)]. apply H2. eauto.
    + intros j. rewrite I3, S3. split.
      * intros [[H1 H2] H3]. split; [assumption|].
        intros [[<-|Hj] H]; [apply H2; auto | apply H3; auto].
      * intros [H1 H2]. split; [split; [assumption|]|].
        -- intros [-> H]. apply H2. auto.
        -- intros [Hj H]. apply H2. auto.
    + intros v j H. apply I4 in H. destruct H as [H|[Hj H]]; [|tauto].
      apply S4 in H. destruct H as [H|[-> H]]; auto.
    + intros v H. apply I5. destruct H as [H|(json & [<-|Hj] & H)].
      * left. apply S5. auto.
      * left. apply S5. auto.
      * right. eauto.
    + intros o. rewrite in_app_iff, I6, S6. split.
      * intros [(Hr & -> & H)|(Hr & json & Hj & -> & H)]; eauto 7.
      * intros (Hr & json & [<-|Hj] & -> & H); [left; auto | right; eauto].
Qed.

End Records.

(** X7.  A VHD stays unused exactly when no delta record that is read and has
    all its VHDs links it; an XVA stays unused exactly when no full record
    that is read links it; a record is kept unless it cannot be read or,
    under [remove], it is incomplete; the record remembered for a VHD is a
    delta record that has all its VHDs and links it; and the only files the
    stage deletes are, under [remove], the incomplete records.  A record
    that cannot be read is never deleted. *)
Theorem metadata_stage_sorts_the_files (w : World) (remove : bool) (vmDir : path)
        (V : JsSet.t) (entries : Entries) :
  let st := fst (checkMetadatas w remove vmDir V entries) in
  let t := snd (checkMetadatas w remove vmDir V entries) in
  (forall v, In v (unusedVhds st)
             <-> In v V /\ ~ exists json, In json (e_jsons entries)
                                          /\ links_vhd w vmDir V json v)
  /\ (forall x, In x (unusedXvas st)
                <-> In x (e_xvas entries)
                    /\ ~ exists json, In json (e_jsons entries) /\ links_xva w vmDir json x)
  /\ (forall j, In j (jsons st)
                <-> In j (e_jsons entries)
                    /\ (exists md, readMetadata w j = Some md)
                    /\ (remove = true -> ~ incomplete w vmDir V (e_xvas entries) j))
  /\ (forall v j, JsMap.get v (vhdsToJSons st) = Some j ->
                  In j (e_jsons entries) /\ links_vhd w vmDir V j v)
  /\ (forall v json, In json (e_jsons entries) -> links_vhd w vmDir V json v ->
                     JsMap.get v (vhdsToJSons st) <> None)
  /\ (forall p, In (Call (OpUnlink p)) t
                <-> remove = true /\ In p (e_jsons entries)
                    /\ incomplete w vmDir V (e_xvas entries) p)
  /\ (forall o, In (Call o) t ->
                (exists j, In j (e_jsons entries) /\ o = OpReadFile j)
                \/ exists p, o = OpUnlink p).
Proof.
  unfold checkMetadatas.
  destruct (checkMetadata_fold w remove vmDir V (e_xvas entries)
              (asyncOrder (completion w) (e_jsons entries))
              (mkRefs (e_jsons entries) V (e_xvas entries) []))
    as (H1 & H2 & H3 & H4 & H5 & H6).
  destruct (foldT (checkMetadata w remove vmDir V (e_xvas entries)) _ _) as [st t].
  simpl in *.
  split; [|split; [|split; [|split; [|split; [|split]]]]].
  - intros v. rewrite H1. split; intros [Hv Hn]; (split; [assumption|]);
      intros (json & Hj & H); apply Hn; exists json; split; try assumption;
      now apply (asyncOrder_In (completion w)).
  - intros x. rewrite H2. split.
    + intros [HX Hn]. split; [assumption|].
      intros (json & Hj & H). apply Hn. split; [assumption|].
      exists json. split; [|assumption]. now apply asyncOrder_In.
    + intros [HX Hn]. split; [assumption|].
      intros [_ (json & Hj & H)]. apply Hn. exists json. split; [|assumption].
      now apply (asyncOrder_In (completion w)).
  - intros j. rewrite H3. split.
    + intros [Hj Hn]. split; [assumption|]. split.
      * destruct (readMetadata w j) as [md|] eqn:E; [eauto|].
        exfalso. apply Hn. split; [now apply asyncOrder_In | now left].
      * intros Hr Hinc. apply Hn. split; [now apply asyncOrder_In | right; auto].
    + intros (Hj & [md Hmd] & Hn). split; [assumption|].
      intros [_ [H|[Hr H]]]; [congruence | now apply Hn].
  - intros v j H. apply H4 in H. destruct H as [[=]|[Hj H]].
    split; [|assumption]. now apply (asyncOrder_In (completion w)).
  - intros v json Hj H. apply H5. right. exists json. split; [|assumption].
    now apply asyncOrder_In.
  - intros p. rewrite in_app_iff, H6. split.
    + intros [H|(Hr & json & Hj & [= ->] & H)].
      * apply in_map_iff in H. destruct H as (q & [=] & _).
      * split; [assumption|]. split; [|assumption].
        now apply (asyncOrder_In (completion w)).
    + intros (Hr & Hj & H). right. split; [assumption|]. exists p.
      split; [now apply asyncOrder_In | auto].
  - intros o Ho. apply in_app_iff in Ho. destruct Ho as [H|H].
    + apply in_map_iff in H. destruct H as (q & [= <-] & Hq). left. eauto.
    + apply H6 in H. destruct H as (_ & json & _ & -> & _). right. eauto.
Qed.

(** ** Unused XVAs and checksums (lines 309-323 and 457-473) *)

Lemma classify_fold w l : forall st,
  (forall p, In p (e_jsons (fold_left (classify w) l st))
             <-> In p (e_jsons st) \/ (In p l /\ isMetadataFile w p = true))
  /\ (forall p, In p (e_xvas (fold_left (classify w) l st))
                <-> In p (e_xvas st)
                    \/ (In p l /\ isMetadataFile w p = false /\ isXvaFile w p = true))
  /\ (forall p, In p (e_xvaSums (fold_left (classify w) l st))
                <-> In p (e_xvaSums st)
                    \/ (In p l /\ isMetadataFile w p = false /\ isXvaFile w p = false
                        /\ isXvaSumFile w p = true)).
Proof.
  induction l as [|a l IH]; intros st; simpl.
  - repeat split; tauto.
  - destruct (IH (classify w st a)) as (I1 & I2 & I3).
    unfold classify in *.
    destruct (isMetadataFile w a) eqn:Em; [|destruct (isXvaFile w a) eqn:Ex;
                                             [|destruct (isXvaSumFile w a) eqn:Es]];
      simpl in *; (split; [|split]); intros p;
      rewrite ?I1, ?I2, ?I3, ?set_add_In, ?in_app_iff; simpl;
      intuition (subst; auto; congruence).
Qed.

(** X8.  The passes of lines 457-473 delete, under [remove] only, the XVA files
    of the directory that no full record that is read links, and the
    checksum files whose XVA is not a file of the directory; the checksum of
    an XVA that is deleted as unused is left to [handler.unlink]. *)
Theorem unused_xvas_and_checksums_deleted (w : World) (remove : bool) (vmDir : path)
        (V : JsSet.t) (p : path) :
  let entries := entriesOf w vmDir in
  let st := fst (checkMetadatas w remove vmDir V entries) in
  In (Call (OpUnlink p))
     (flat_map (unusedXva remove) (unusedXvas st)
      ++ flat_map (unusedXvaSum remove (e_xvas entries)) (e_xvaSums entries))
  <-> remove = true
      /\ In p (handler_list_prepend w vmDir)
      /\ isMetadataFile w p = false
      /\ ((isXvaFile w p = true
           /\ ~ exists json, In json (handler_list_prepend w vmDir)
                             /\ isMetadataFile w json = true
                             /\ links_xva w vmDir json p)
          \/ (isXvaFile w p = false /\ isXvaSumFile w p = true
              /\ ~ (In (without_checksum p) (handler_list_prepend w vmDir)
                    /\ isMetadataFile w (without_checksum p) = false
                    /\ isXvaFile w (without_checksum p) = true))).
Proof.
  cbv zeta.
  destruct (classify_fold w (handler_list_prepend w vmDir) (mkEntries [] [] []))
    as (C1 & C2 & C3). fold (entriesOf w vmDir) in C1, C2, C3. simpl in C1, C2, C3.
  assert (M2 : forall x,
             In x (unusedXvas (fst (checkMetadatas w remove vmDir V (entriesOf w vmDir))))
             <-> In x (e_xvas (entriesOf w vmDir))
                 /\ ~ exists json, In json (e_jsons (entriesOf w vmDir))
                                   /\ links_xva w vmDir json x).
  { intros x. unfold checkMetadatas.
    destruct (checkMetadata_fold w remove vmDir V (e_xvas (entriesOf w vmDir))
                (asyncOrder (completion w) (e_jsons (entriesOf w vmDir)))
                (mkRefs (e_jsons (entriesOf w vmDir)) V (e_xvas (entriesOf w vmDir)) []))
      as (_ & H2 & _).
    destruct (foldT (checkMetadata w remove vmDir V (e_xvas (entriesOf w vmDir))) _ _)
      as [st t].
    simpl in *. rewrite H2. split.
    - intros [HX Hn]. split; [assumption|].
      intros (json & Hj & H). apply Hn. split; [assumption|].
      exists json. split; [|assumption]. now apply asyncOrder_In.
    - intros [HX Hn]. split; [assumption|].
      intros [_ (json & Hj & H)]. apply Hn. exists json. split; [|assumption].
      now apply (asyncOrder_In (completion w)). }
  rewrite in_app_iff, !in_flat_map. split.
  - intros [(x & Hx & H)|(x & Hx & H)].
    + unfold unusedXva in H. destruct H as [[=]|H].
      destruct remove; simpl in H; [|contradiction].
      destruct H as [[=]|[[= <-]|[]]].
      apply M2 in Hx. destruct Hx as [Hx Hn]. apply C2 in Hx.
      destruct Hx as [[]|(Hl & Hm & Hxv)].
      split; [reflexivity|]. split; [assumption|]. split; [assumption|].
      left. split; [assumption|].
      intros (json & Hj & Hjm & Hlink). apply Hn. exists json. split; [|assumption].
      apply C1. auto.
    + unfold unusedXvaSum in H.
      destruct (JsSet.has (without_checksum x) (e_xvas (entriesOf w vmDir))) eqn:Eh;
        [contradiction|].
      apply set_has_not_In in Eh.
      destruct H as [[=]|H]. destruct remove; simpl in H; [|contradiction].
      destruct H as [[=]|[[= <-]|[]]].
      apply C3 in Hx. destruct Hx as [[]|(Hl & Hm & Hxv & Hs)].
      split; [reflexivity|]. split; [assumption|]. split; [assumption|].
      right. split; [assumption|]. split; [assumption|].
      intros H. apply Eh, C2. auto.
  - intros (-> & Hl & Hm & [(Hx & Hn)|(Hx & Hs & Hn)]).
    + left. exists p. split.
      * apply M2. split; [apply C2; auto|].
        intros (json & Hj & Hlink). apply Hn. apply C1 in Hj.
        destruct Hj as [[]|[Hj Hjm]]. eauto.
      * unfold unusedXva. simpl. auto.
    + right. exists p. split; [apply C3; auto 6|].
      unfold unusedXvaSum.
      destruct (JsSet.has (without_checksum p) (e_xvas (entriesOf w vmDir))) eqn:Eh.
      * apply set_has_In in Eh. apply C2 in Eh. destruct Eh as [[]|Eh]. contradiction.
      * simpl. auto.
Qed.

(** ** The size of the VHDs of a record (lines 20-33) *)

Lemma sum_sizes_Some ps s :
  sum_sizes ps = Some s
  <-> exists sizes, ps = map (fun z => ProbeVhdFile (Some z)) sizes
                    /\ s = fold_right Z.add 0%Z sizes.
Proof.
  revert s. induction ps as [|p ps IH]; intros s; simpl.
  - split.
    + intros [= <-]. exists []. auto.
    + intros ([|z l] & [=] & ->). reflexivity.
  - destruct p as [| |[z|]].
    + split; [discriminate|]. intros ([|z l] & [=] & _).
    + split; [discriminate|]. intros ([|z l] & [=] & _).
    + destruct (sum_sizes ps) as [s'|].
      * destruct (proj1 (IH s') eq_refl) as (sizes & -> & ->). split.
        -- intros [= <-]. exists (z :: sizes). auto.
        -- intros ([|z' l] & [= <- Hl] & ->).
           assert (l = sizes).
           { clear - Hl. revert l Hl. induction sizes as [|a sizes IH]; intros [|b l];
               simpl; try discriminate; [reflexivity|].
             intros [= <- H]. f_equal. now apply IH. }
           subst l. reflexivity.
      * split; [discriminate|]. intros ([|z' l] & [= <- Hl] & ->).
        assert (H : @None Z = Some (fold_right Z.add 0%Z l))
          by (apply IH; eauto).
        discriminate.
    + split; [discriminate|]. intros ([|z l] & [=] & _).
Qed.

Lemma sized_all_files sizes :
  existsb (fun vhd => match vhd with ProbeFailed => true | _ => false end)
          (map (fun z => ProbeVhdFile (Some z)) sizes) = false
  /\ shouldComputeVhdsSize (map (fun z => ProbeVhdFile (Some z)) sizes) = true.
Proof. induction sizes as [|z l [IH1 IH2]]; simpl; auto. Qed.


(** ** The sizes written (lines 479-524) *)

Section Sizes.

Variable w : World.
Variable fixMetadata : bool.
Variable vmDir : path.
Variable mm : JsMap.t bool.     (* metadataWithMergedVhd *)

Lemma updateSize_writes merged json md fileSystemSize p z :
  In (Call (OpWriteFile p z)) (updateSize w fixMetadata merged json md fileSystemSize)
  <-> p = json /\ z = fileSystemSize /\ (merged || fixMetadata) = true
      /\ size_differs (size md) fileSystemSize = true.
Proof.
  unfold updateSize.
  destruct ((merged || fixMetadata) && size_differs (size md) fileSystemSize) eqn:E.
  - apply andb_true_iff in E. destruct E as [E1 E2]. simpl. split.
    + intros [[= <- <-]|H]; [auto|].
      destruct (writeFileFails w json); simpl in H; [destruct H as [[=]|[]] | contradiction].
    + intros (-> & -> & _). now left.
  - simpl. split; [intros []|]. intros (_ & _ & E1 & E2). rewrite E1, E2 in E. discriminate.
Qed.

Lemma computeVhdsSize_no_write l p z :
  ~ In (Call (OpWriteFile p z)) (snd (computeVhdsSize w l)).
Proof.
  apply (deletes_no_write false).
  apply (quiet_deletes false false), computeVhdsSize_gated.
Qed.

Lemma checkSize_writes json p z :
  In (Call (OpWriteFile p z)) (snd (checkSize w fixMetadata vmDir mm json))
  <-> p = json
      /\ exists md, readMetadata w json = Some md
                    /\ (JsMap.has json mm || fixMetadata) = true
                    /\ size_differs (size md) z = true
                    /\ measured w vmDir md z.
Proof.
  unfold checkSize, measured, failedSize.
  destruct (readMetadata w json) as [md|] eqn:Eread; simpl.
  2:{ split; [intros [[=]|[]] | intros (_ & md & [=] & _)]. }
  split.
  - intros [[=]|H]. destruct (mode md) eqn:Emode.
    + destruct H as [[=]|H].
      destruct (getSize w (resolve w ["/"; vmDir; xva md])) as [s|] eqn:Es.
      * apply updateSize_writes in H. destruct H as (-> & -> & H1 & H2).
        split; [reflexivity|]. exists md. rewrite ?Emode. simpl. eauto 8.
      * destruct H as [[=]|[]].
    + destruct (computeVhdsSize w (linkedVhdsOf w vmDir md)) as [[[s|]|] t] eqn:Ec.
      * apply in_app_iff in H. destruct H as [H|H].
        { exfalso. apply (computeVhdsSize_no_write (linkedVhdsOf w vmDir md) p z).
          now rewrite Ec. }
        apply in_app_iff in H. destruct H as [H|H].
        { destruct (negb _ && _); [destruct H as [[=]|[]] | contradiction]. }
        apply updateSize_writes in H. destruct H as (-> & -> & H1 & H2).
        split; [reflexivity|]. exists md. rewrite ?Emode. simpl.
        split; [reflexivity|]. split; [assumption|]. split; [assumption|].
        exists s. rewrite Ec. auto.
      * exfalso. apply (computeVhdsSize_no_write (linkedVhdsOf w vmDir md) p z).
        now rewrite Ec.
      * apply in_app_iff in H. destruct H as [H|[[=]|[]]].
        exfalso. apply (computeVhdsSize_no_write (linkedVhdsOf w vmDir md) p z).
        now rewrite Ec.
    + apply updateSize_writes in H. destruct H as (-> & -> & H1 & H2).
      split; [reflexivity|]. exists md. rewrite ?Emode. simpl. eauto 8.
  - intros (-> & md' & [= <-] & H1 & H2 & H3). right.
    destruct (mode md) eqn:Emode.
    + destruct H3 as (s & Hs & ->). right. rewrite Hs.
      apply updateSize_writes. auto.
    + destruct H3 as (s & Hs & ->).
      destruct (computeVhdsSize w (linkedVhdsOf w vmDir md)) as [r t]. simpl in Hs.
      subst r. apply in_app_iff. right. apply in_app_iff. right.
      apply updateSize_writes. auto.
    + subst z. apply updateSize_writes. auto.
Qed.

Lemma checkSizes_writes jsons p z :
  In (Call (OpWriteFile p z)) (snd (checkSizes w fixMetadata vmDir mm jsons))
  <-> In p jsons
      /\ exists md, readMetadata w p = Some md
                    /\ (JsMap.has p mm || fixMetadata) = true
                    /\ size_differs (size md) z = true
                    /\ measured w vmDir md z.
Proof.
  unfold checkSizes. split.
  - intros H. apply foldT_In_inv in H. destruct H as (ok & json & Hj & H).
    destruct (checkSize w fixMetadata vmDir mm json) as [ok' t] eqn:E. simpl in H.
    replace t with (snd (checkSize w fixMetadata vmDir mm json)) in H by now rewrite E.
    apply checkSize_writes in H. destruct H as [-> H]. auto.
  - intros [Hj H]. apply foldT_In_intro with (a := p); [assumption|].
    intros ok. destruct (checkSize w fixMetadata vmDir mm p) as [ok' t] eqn:E. simpl.
    replace t with (snd (checkSize w fixMetadata vmDir mm p)) by now rewrite E.
    apply checkSize_writes. auto.
Qed.

End Sizes.

Lemma doMerge_calls w remove merge J toMerge o :
  In (Call o) (snd (doMerge w remove merge J toMerge)) ->
  merge = true
  /\ exists parent children,
       In (parent :: children) toMerge /\ children <> []
       /\ o = OpMergeVhd parent children remove.
Proof.
  unfold doMerge. intros H. apply foldT_In_inv in H.
  destruct H as (st & c & Hc & H). unfold mergeChain in H.
  assert (H' : In (Call o) (snd (mergeVhdChain w remove merge c))).
  { destruct (mergeVhdChain w remove merge c) as [[[z|]|] t]; exact H. }
  clear H. unfold mergeVhdChain in H'.
  destruct (Nat.leb_spec 2 (length c)) as [Hlen|]; [|contradiction].
  destruct c as [|parent children]; [contradiction|].
  destruct merge; [|contradiction]. simpl in H'.
  destruct H' as [[=]|[[= <-]|[]]].
  split; [reflexivity|]. exists parent, children.
  split; [assumption|]. split; [|reflexivity].
  intros ->. simpl in Hlen. lia.
Qed.

(** X10.  A record is written in a run exactly when the run has computed the
    chains, the record is one of the records kept, it is marked as merged or
    [fixMetadata] is set, and the size it gives differs from the size found;
    what is written is the size found.  So a record whose size is right is
    never written, and a record of a full or delta backup is never written
    when its size cannot be found. *)
Theorem record_written_with_size_found (w : World) (fuel : nat) (opts : Options)
        (vmDir : path) (p : path) (z : option Z) :
  In (Call (OpWriteFile p z)) (snd (cleanVm w fuel opts vmDir))
  <-> run_toMerge (runCleanVm w fuel opts vmDir) <> None
      /\ In p (jsons (run_refs (runCleanVm w fuel opts vmDir)))
      /\ exists md,
           readMetadata w p = Some md
           /\ (JsMap.has p (metadataWithMergedVhd
                              (run_merging (runCleanVm w fuel opts vmDir)))
               || fixMetadata opts) = true
           /\ size_differs (size md) z = true
           /\ measured w vmDir md z.
Proof.
  unfold cleanVm. cbn [snd].
  destruct (runCleanVm_shape w fuel opts vmDir) as (t_early & t_unused & He & Hu & H).
  pose proof (deletes_no_write _ _ p z He) as He'.
  pose proof (deletes_no_write _ _ p z Hu) as Hu'.
  destruct (run_toMerge (runCleanVm w fuel opts vmDir)) as [toMerge|].
  - destruct H as (_ & _ & -> & _). rewrite !in_app_iff, checkSizes_writes. split.
    + intros [H|[H|[H|H]]]; try contradiction.
      * apply doMerge_calls in H. destruct H as (_ & a & b & _ & _ & [=]).
      * split; [discriminate | assumption].
    + intros [_ H]. auto.
  - destruct H as (-> & _). split; [contradiction|]. intros [H _]. congruence.
Qed.

(** X11.  When [fixMetadata] is set, a record that is kept, whose mode is neither
    [full] nor [delta] and which gives a size is written without a size. *)
Theorem unknown_mode_size_erased (w : World) (fuel : nat) (opts : Options)
        (vmDir : path) (p : path) (md : Metadata) (s : Z) :
  fixMetadata opts = true ->
  run_toMerge (runCleanVm w fuel opts vmDir) <> None ->
  In p (jsons (run_refs (runCleanVm w fuel opts vmDir))) ->
  readMetadata w p = Some md -> mode md = ModeOther -> size md = Some s ->
  In (Call (OpWriteFile p None)) (snd (cleanVm w fuel opts vmDir)).
Proof.
  intros Hfix Hchains Hp Hread Hmode Hsize.
  unfold cleanVm. cbn [snd].
  destruct (runCleanVm_shape w fuel opts vmDir) as (t_early & t_unused & _ & _ & H).
  destruct (run_toMerge (runCleanVm w fuel opts vmDir)) as [toMerge|]; [|congruence].
  destruct H as (_ & _ & -> & _). rewrite !in_app_iff. right. right. right.
  apply checkSizes_writes. split; [assumption|].
  exists md. split; [assumption|]. rewrite Hfix, orb_true_r.
  split; [reflexivity|]. rewrite Hsize. split; [reflexivity|].
  unfold measured. now rewrite Hmode.
Qed.

(** ** The merges (lines 51-84 and 443-456) *)

Lemma deletes_not_merge b t :
  Forall (deletes_under b) t -> filter is_merge t = [].
Proof.
  induction 1 as [|e t He _ IH]; simpl; [reflexivity|].
  rewrite IH. destruct e as [[]| |]; simpl in *; try reflexivity. contradiction.
Qed.

Lemma quiet_not_merge t :
  Forall (fun e => is_merge e = false) t -> filter is_merge t = [].
Proof.
  induction 1 as [|e t He _ IH]; simpl; [reflexivity|]. now rewrite He.
Qed.

Lemma checkSizes_not_merge w fixMetadata vmDir mm jsons :
  filter is_merge (snd (checkSizes w fixMetadata vmDir mm jsons)) = [].
Proof.
  apply quiet_not_merge. apply foldT_events. intros s a.
  destruct (checkSize w fixMetadata vmDir mm a) as [ok t] eqn:E. simpl.
  revert E. unfold checkSize, updateSize, failedSize.
  assert (Hc : forall l, Forall (fun e => is_merge e = false) (snd (computeVhdsSize w l))).
  { intros l. pose proof (computeVhdsSize_gated w false l) as H.
    revert H. apply Forall_impl. intros e He.
    destruct e as [[]| |]; try reflexivity. specialize (He eq_refl). discriminate. }
  destruct (readMetadata w a) as [md|]; intros [= <- <-]; [|events_auto].
  constructor; [reflexivity|].
  destruct (mode md).
  - constructor; [reflexivity|]. destruct (getSize w _); events_auto.
  - specialize (Hc (linkedVhdsOf w vmDir md)).
    destruct (computeVhdsSize w (linkedVhdsOf w vmDir md)) as [[[z|]|] t]; simpl in Hc.
    + apply Forall_app. split; [assumption|]. events_auto.
    + assumption.
    + apply Forall_app. split; [assumption | events_auto].
  - events_auto.
Qed.

Lemma doMerge_in_order w remove J toMerge : forall st,
  Forall (fun c => 2 <= length c) toMerge ->
  filter is_merge (snd (foldT (mergeChain w remove true J) st toMerge))
  = map (merge_of remove) toMerge.
Proof.
  induction toMerge as [|c l IH]; intros st Hlen; simpl; [reflexivity|].
  inversion Hlen as [|? ? Hc Hl]; subst.
  assert (Hstep : filter is_merge (snd (mergeChain w remove true J st c))
                  = [merge_of remove c]).
  { unfold mergeChain, mergeVhdChain.
    destruct (Nat.leb_spec 2 (length c)) as [_|]; [|lia].
    destruct c as [|parent children]; [simpl in Hc; lia|].
    destruct (mergeVhd w parent children); reflexivity. }
  destruct (mergeChain w remove true J st c) as [st1 t1]. simpl in Hstep.
  specialize (IH st1 Hl).
  destruct (foldT (mergeChain w remove true J) st1 l) as [st2 t2]. simpl in *.
  rewrite filter_app, Hstep, IH. reflexivity.
Qed.

(** X12.  Under [merge], the merges of a run are those of the chains of
    [toMerge], one for each chain and in the order of [toMerge]: the first
    element of the chain is merged into, the others are the children, and
    [remove] is handed over. *)
Theorem merges_follow_the_chains (w : World) (fuel : nat) (opts : Options)
        (vmDir : path) (toMerge : list chain) :
  merge opts = true ->
  run_toMerge (runCleanVm w fuel opts vmDir) = Some toMerge ->
  filter is_merge (snd (cleanVm w fuel opts vmDir))
  = map (merge_of (remove opts)) toMerge.
Proof.
  intros Hmerge HtoMerge. unfold cleanVm. cbn [snd].
  destruct (runCleanVm_shape w fuel opts vmDir) as (t_early & t_unused & He & Hu & H).
  rewrite HtoMerge in H. destruct H as (Hlen & _ & -> & _).
  rewrite !filter_app, (deletes_not_merge _ _ He), (deletes_not_merge _ _ Hu),
    checkSizes_not_merge, Hmerge.
  unfold doMerge. rewrite doMerge_in_order by assumption.
  now rewrite app_nil_r.
Qed.

(** ** The merge of an interrupted VHD *)

Lemma doMerge_merges w remove J toMerge c :
  In c toMerge -> 2 <= length c ->
  In (merge_of remove c) (snd (doMerge w remove true J toMerge)).
Proof.
  intros Hc Hlen. unfold doMerge. apply foldT_In_intro with (a := c); [assumption|].
  intros s. unfold mergeChain, mergeVhdChain.
  destruct (Nat.leb_spec 2 (length c)) as [_|]; [|lia].
  destruct c as [|parent children]; [simpl in Hlen; lia|].
  destruct (mergeVhd w parent children); simpl; auto.
Qed.

(** X13.  Under [merge], for a VHD whose merge state is left after the states of
    the missing VHDs have been removed, [mergeVhd] is called with, as the
    parent to merge into, the registered child of the VHD ([undefined] when
    it has none) and, as the only child, the VHD itself. *)
Theorem interrupted_vhd_is_merged_as_the_child (w : World) (fuel : nat) (opts : Options)
        (vmDir : path) (p : path) :
  merge opts = true ->
  run_toMerge (runCleanVm w fuel opts vmDir) <> None ->
  In p (JsMap.keys (run_interruptedVhds (runCleanVm w fuel opts vmDir))) ->
  In (Call (OpMergeVhd (JsMap.get p (vhdChildren (run_graph (runCleanVm w fuel opts vmDir))))
                       [Some p] (remove opts)))
     (snd (cleanVm w fuel opts vmDir)).
Proof.
  intros Hmerge Hchains Hp. unfold cleanVm. cbn [snd].
  pose proof (runCleanVm_stages w fuel opts vmDir) as Hs. cbv zeta in Hs.
  destruct Hs as (_ & _ & _ & _ & _ & HtoMerge & _).
  destruct (runCleanVm_shape w fuel opts vmDir) as (t_early & t_unused & _ & _ & H).
  set (r := runCleanVm w fuel opts vmDir) in *.
  destruct (run_toMerge r) as [toMerge|] eqn:E; [|congruence].
  destruct H as (Hlen & _ & -> & _).
  assert (Hin : In [JsMap.get p (vhdChildren (run_graph r)); Some p] toMerge).
  { revert HtoMerge. unfold chainsToMerge.
    destruct (chainsByAncestor fuel (remove opts) _ _ _) as [[m|] t] eqn:Em;
      [|discriminate].
    simpl. intros [= ->]. apply collectChains_In. exists p.
    apply map_get_In.
    revert Em. unfold chainsByAncestor.
    destruct (usageChains fuel (remove opts) _ _) as [[st|] t']; [|discriminate].
    intros [= <- <-]. unfold mergeInterrupted. rewrite mergeInterrupted_get.
    apply existsb_eqb_In in Hp. now rewrite Hp. }
  rewrite !in_app_iff. right. left. rewrite Hmerge.
  apply (doMerge_merges w (remove opts) _ toMerge _ Hin). simpl. lia.
Qed.

(** ** The parent links after the VHDs have been opened *)

Section ParentLinks.

Variable w : World.
Variable remove : bool.
Variable interruptedVhds : JsMap.t path.

Local Abbreviation step := (checkVhd w remove interruptedVhds).
Local Abbreviation parent_of := (parentOf w interruptedVhds).

Lemma checkVhd_links g p :
  vhdParents (fst (step g p))
  = match parent_of p with
    | Some q => JsMap.set p q (vhdParents g)
    | None => vhdParents g
    end
  /\ (forall q, parent_of p = Some q ->
                exists c, JsMap.get q (vhdChildren (fst (step g p))) = Some c).
Proof.
  unfold checkVhd, parentOf, vhdOf.
  destruct (openVhd w p (negb (JsMap.has p interruptedVhds)))
    as [diskType uuid pname|code]; simpl.
  - destruct (N.eqb diskType (DIFFERENCING w)); simpl.
    + destruct (JsMap.get (resolve w ["/"; dirname w p; pname]) (vhdChildren g))
        as [child1|] eqn:Ec; simpl.
      * split; [reflexivity|]. intros q [= <-]. eauto.
      * destruct (dedupe_links w
                    (mkGraph (vhds g) (vhdById g)
                             (JsMap.set p (resolve w ["/"; dirname w p; pname])
                                        (vhdParents g))
                             (JsMap.set (resolve w ["/"; dirname w p; pname]) p
                                        (vhdChildren g)))
                    (mkVhd p diskType uuid pname)) as [Hc Hp].
        simpl in Hc, Hp. rewrite Hc, Hp. split; [reflexivity|].
        intros q [= <-]. exists p. apply map_get_set_same.
    + destruct (dedupe_links w g (mkVhd p diskType uuid pname)) as [Hc Hp].
      rewrite Hp. split; [reflexivity | discriminate].
  - split; [reflexivity | discriminate].
Qed.

Lemma checkVhds_parents l : forall g v q,
  (forall x y, JsMap.get x (vhdParents g) = Some y -> parent_of x = Some y) ->
  (JsMap.get v (vhdParents (fst (foldT step g l))) = Some q
   <-> JsMap.get v (vhdParents g) = Some q \/ (In v l /\ parent_of v = Some q)).
Proof.
  induction l as [|a l IH]; intros g v q Hg; simpl.
  - split; [auto|]. intros [H|[[] _]]. assumption.
  - destruct (checkVhd_links g a) as [Hp _].
    destruct (step g a) as [g1 t1]. simpl in Hp.
    assert (Hg1 : forall x y, JsMap.get x (vhdParents g1) = Some y -> parent_of x = Some y).
    { intros x y. rewrite Hp. destruct (parent_of a) as [qa|] eqn:Ea; [|apply Hg].
      destruct (string_dec x a) as [->|Hne].
      - rewrite map_get_set_same. congruence.
      - rewrite map_get_set_other by assumption. apply Hg. }
    specialize (IH g1 v q Hg1).
    destruct (foldT step g1 l) as [g2 t2]. simpl in *.
    rewrite IH, Hp. destruct (parent_of a) as [qa|] eqn:Ea.
    + destruct (string_dec v a) as [->|Hne].
      * rewrite map_get_set_same. split.
        -- intros [[= <-]|[Hv H]]; auto.
        -- intros [H|[_ H]]; [apply Hg in H|]; left; congruence.
      * rewrite map_get_set_other by assumption. split.
        -- intros [H|[Hv H]]; auto.
        -- intros [H|[[<-|Hv] H]]; auto. contradiction.
    + split.
      * intros [H|[Hv H]]; auto.
      * intros [H|[[<-|Hv] H]]; auto. congruence.
Qed.

End ParentLinks.

Lemma checkVhds_graph_inv (w : World) (remove : bool) (interruptedVhds : JsMap.t path)
      (vhds0 : JsSet.t) :
  graph_inv w interruptedVhds vhds0 (fst (checkVhds w remove interruptedVhds vhds0)).
Proof.
  rewrite checkVhds_fold. cbn [fst].
  assert (H0 : graph_inv w interruptedVhds vhds0 (mkGraph vhds0 [] [] [])).
  { split; simpl; intros k d [=]. }
  revert H0. generalize (mkGraph vhds0 [] [] []).
  assert (Hl : forall x, In x (asyncOrder (completion w) vhds0) -> In x vhds0)
    by (intros x; apply asyncOrder_In).
  revert Hl. generalize (asyncOrder (completion w) vhds0).
  induction l as [|a l IH]; intros Hl g Hg; simpl; [assumption|].
  pose proof (checkVhd_inv w remove interruptedVhds vhds0 g a
                (Hl a (or_introl eq_refl)) Hg) as Hg1.
  destruct (checkVhd w remove interruptedVhds g a) as [g1 t1]. simpl in Hg1.
  specialize (IH (fun x Hx => Hl x (or_intror Hx)) g1 Hg1).
  now destruct (foldT (checkVhd w remove interruptedVhds) g1 l).
Qed.

(** The registered child of a parent has that parent in [vhdParents]. *)
Lemma checkVhds_child_parent (w : World) (remove : bool)
      (interruptedVhds : JsMap.t path) (vhds0 : JsSet.t) q c :
  JsMap.get q (vhdChildren (fst (checkVhds w remove interruptedVhds vhds0))) = Some c ->
  JsMap.get c (vhdParents (fst (checkVhds w remove interruptedVhds vhds0))) = Some q.
Proof.
  intros H.
  destruct (checkVhds_graph_inv w remove interruptedVhds vhds0) as [_ Hg].
  apply Hg in H. destruct H as [Hc Hq].
  rewrite checkVhds_fold. cbn [fst].
  apply checkVhds_parents; [intros x y [=]|].
  right. split; [now apply asyncOrder_In | assumption].
Qed.

(** X14.  After the VHDs have been opened, [vhdParents] gives a parent exactly to
    the VHDs that open as differencing disks, the one they name, also to a
    VHD that has then been set aside; the registered child of a parent is
    one of the VHDs that name it; and every parent that is named has a
    registered child. *)
Theorem parent_links_registered (w : World) (remove : bool)
        (interruptedVhds : JsMap.t path) (vhds0 : JsSet.t) :
  let g := fst (checkVhds w remove interruptedVhds vhds0) in
  (forall v q, JsMap.get v (vhdParents g) = Some q
               <-> In v vhds0 /\ parentOf w interruptedVhds v = Some q)
  /\ (forall q c, JsMap.get q (vhdChildren g) = Some c ->
                  In c vhds0 /\ parentOf w interruptedVhds c = Some q)
  /\ (forall v q, In v vhds0 -> parentOf w interruptedVhds v = Some q ->
                  exists c, JsMap.get q (vhdChildren g) = Some c).
Proof.
  cbv zeta. rewrite checkVhds_fold. cbn [fst].
  split; [|split].
  - intros v q. rewrite checkVhds_parents by (intros x y [=]).
    rewrite asyncOrder_In. simpl. intuition discriminate.
  - intros q c H.
    destruct (checkVhds_graph_inv w remove interruptedVhds vhds0) as [_ Hg].
    rewrite checkVhds_fold in Hg. cbn [fst] in Hg. now apply Hg.
  - intros v q Hv Hq.
    apply (foldT_after (checkVhd w remove interruptedVhds)
             (fun g => exists c, JsMap.get q (vhdChildren g) = Some c)
             (asyncOrder (completion w) vhds0) v).
    + now apply asyncOrder_In.
    + intros s. destruct (checkVhd_links w remove interruptedVhds s v) as [_ H]. auto.
    + intros s b [c Hc]. exists c.
      now apply checkVhd_children_stable.
Qed.

(** ** The calls of the walk over the unused VHDs *)

Section UnusedDeleted.

Variable remove : bool.
Variable U : JsSet.t.
Variable ch : JsMap.t path.

Lemma unusedVhd_calls vhd o :
  In (Call o) (unusedVhd remove vhd) -> remove = true /\ o = OpVhdUnlink vhd.
Proof.
  unfold unusedVhd. intros [[=]|H]. destruct remove; simpl in H; [|contradiction].
  destruct H as [[=]|[[= <-]|[]]]. auto.
Qed.

Lemma getUsedChildChainOrDelete_calls fuel : forall st vhd r st' t o,
  getUsedChildChainOrDelete fuel remove U ch st vhd = Some (r, st', t) ->
  In (Call o) t -> remove = true /\ exists v, o = OpVhdUnlink v /\ In v U.
Proof.
  induction fuel as [|fuel IH]; intros st vhd r st' t o; simpl; [discriminate|].
  destruct (JsMap.get vhd (vhdChainsToMerge st)).
  - intros [= <- <- <-] [].
  - destruct (JsSet.has vhd U) eqn:EU; simpl.
    + apply set_has_In in EU.
      destruct (JsMap.get vhd ch) as [child|].
      * destruct (getUsedChildChainOrDelete fuel remove U ch _ child)
          as [[[[c'|] st2] t2]|] eqn:Erec; [| |discriminate];
          intros [= <- <- <-] Ho.
        -- eapply IH; eassumption.
        -- apply in_app_iff in Ho. destruct Ho as [Ho|Ho]; [eapply IH; eassumption|].
           apply unusedVhd_calls in Ho. destruct Ho as [-> ->]. eauto.
      * intros [= <- <- <-] Ho. apply unusedVhd_calls in Ho.
        destruct Ho as [-> ->]. eauto.
    + intros [= <- <- <-] [].
Qed.

Lemma forEachToCheck_calls fuel l o : forall st,
  In (Call o) (snd (forEachToCheck fuel remove U ch st l)) ->
  remove = true /\ exists v, o = OpVhdUnlink v /\ In v U.
Proof.
  induction l as [|vhd l IH]; intros st; simpl; [intros []|].
  destruct (JsSet.has vhd (toCheck st)); [|apply IH].
  destruct (getUsedChildChainOrDelete fuel remove U ch st vhd)
    as [[[r st1] t1]|] eqn:Erec; [|intros []].
  specialize (IH (mkChains (JsMap.set vhd r (vhdChainsToMerge st1)) (toCheck st1))).
  destruct (forEachToCheck fuel remove U ch _ l) as [r2 t2]. simpl in *.
  intros Ho. apply in_app_iff in Ho. destruct Ho as [Ho|Ho]; [|auto].
  eapply getUsedChildChainOrDelete_calls; eassumption.
Qed.

End UnusedDeleted.

(** ** Why a VHD is deleted *)

Lemma keeps_vhds_not_In t v :
  Forall keeps_vhds t -> ~ In (Call (OpVhdUnlink v)) t.
Proof.
  intros H Hin. rewrite Forall_forall in H. exact (H _ Hin).
Qed.

Lemma quiet_keeps_vhds t : gated false t -> Forall keeps_vhds t.
Proof.
  apply Forall_impl. intros e He.
  destruct e as [[]| |]; simpl in *; try exact I. specialize (He eq_refl). discriminate.
Qed.

Lemma checkSizes_keeps_vhds w fixMetadata vmDir mm jsons :
  Forall keeps_vhds (snd (checkSizes w fixMetadata vmDir mm jsons)).
Proof.
  apply foldT_events. intros s a.
  destruct (checkSize w fixMetadata vmDir mm a) as [ok t] eqn:E. simpl.
  revert E. unfold checkSize, updateSize, failedSize.
  destruct (readMetadata w a) as [md|]; intros [= <- <-]; [|events_auto].
  constructor; [exact I|].
  destruct (mode md).
  - constructor; [exact I|]. destruct (getSize w _); events_auto.
  - pose proof (quiet_keeps_vhds _ (computeVhdsSize_gated w false (linkedVhdsOf w vmDir md)))
      as Hc.
    destruct (computeVhdsSize w (linkedVhdsOf w vmDir md)) as [[[z|]|] t]; simpl in Hc.
    + apply Forall_app. split; [assumption|]. events_auto.
    + assumption.
    + apply Forall_app. split; [assumption | events_auto].
  - events_auto.
Qed.

Lemma pruneOrphans_unlinks remove V P v :
  In (Call (OpVhdUnlink v)) (snd (pruneOrphans remove V P)) -> Orphan P V v.
Proof.
  assert (H0 : links_inv remove V P (mkPruning V P) [] []).
  { split; simpl; try tauto. intros x q Hx _ Hnone. congruence. }
  destruct (pruneOrphans_links remove V P (JsMap.keys P) _ _ H0) as (Hinv & _ & _).
  simpl in Hinv. fold (pruneOrphans remove V P) in Hinv.
  intros H. now apply (li_unlinked _ _ _ _ _ _ Hinv) in H.
Qed.

Lemma chainsToMerge_unlinks w fuel remove vmDir V entries ch interrupted v :
  In (Call (OpVhdUnlink v))
     (snd (chainsToMerge fuel remove
             (unusedVhds (fst (checkMetadatas w remove vmDir V entries))) ch interrupted)) ->
  In v V /\ ~ exists json, In json (e_jsons entries) /\ links_vhd w vmDir V json v.
Proof.
  intros Ho.
  assert (H : In v (unusedVhds (fst (checkMetadatas w remove vmDir V entries)))).
  { revert Ho. unfold chainsToMerge, chainsByAncestor, usageChains.
    pose proof (forEachToCheck_calls remove
                  (unusedVhds (fst (checkMetadatas w remove vmDir V entries)))
                  ch fuel
                  (unusedVhds (fst (checkMetadatas w remove vmDir V entries)))
                  (OpVhdUnlink v)
                  (mkChains [] (unusedVhds (fst (checkMetadatas w remove vmDir V entries)))))
      as H.
    destruct (forEachToCheck fuel remove _ ch _ _) as [[st|] t]; simpl in *;
      intros Ho; destruct (H Ho) as (_ & v' & [= <-] & Hv); exact Hv. }
  revert H. unfold checkMetadatas.
  destruct (checkMetadata_fold w remove vmDir V (e_xvas entries)
              (asyncOrder (completion w) (e_jsons entries))
              (mkRefs (e_jsons entries) V (e_xvas entries) []))
    as (H1 & _).
  destruct (foldT (checkMetadata w remove vmDir V (e_xvas entries)) _ _) as [st t].
  simpl in *. rewrite H1. intros [Hv Hn]. split; [assumption|].
  intros (json & Hj & H). apply Hn. exists json. split; [|assumption].
  now apply asyncOrder_In.
Qed.


(** ** The chains do not depend on the options *)

Lemma foldT_fst_ext {A S} (f f' : S -> A -> S * trace) l :
  (forall s a, fst (f s a) = fst (f' s a)) ->
  forall s, fst (foldT f s l) = fst (foldT f' s l).
Proof.
  intros H. induction l as [|a l IH]; intros s; simpl; [reflexivity|].
  specialize (H s a). destruct (f s a) as [s1 t1], (f' s a) as [s1' t1'].
  simpl in H. subst s1'. specialize (IH s1).
  destruct (foldT f s1 l), (foldT f' s1 l). exact IH.
Qed.

Section Independence.

Variable w : World.
Variables remove remove' : bool.

Lemma checkVhds_state interruptedVhds vhds0 :
  fst (checkVhds w remove interruptedVhds vhds0)
  = fst (checkVhds w remove' interruptedVhds vhds0).
Proof.
  rewrite !checkVhds_fold. cbn [fst]. apply foldT_fst_ext. intros g p.
  unfold checkVhd.
  destruct (openVhd w p (negb (JsMap.has p interruptedVhds))); [|reflexivity].
  destruct (N.eqb _ _); [|reflexivity].
  now destruct (JsMap.get _ _).
Qed.

Lemma checkMergeStates_state V interruptedVhds :
  fst (checkMergeStates remove V interruptedVhds)
  = fst (checkMergeStates remove' V interruptedVhds).
Proof.
  apply foldT_fst_ext. intros m k. unfold checkMergeState.
  now destruct (JsSet.has k V).
Qed.

Lemma deleteIfOrphan_state st vhdPath :
  fst (deleteIfOrphan remove st vhdPath) = fst (deleteIfOrphan remove' st vhdPath).
Proof.
  apply (deleteIfOrphan_induction remove
           (fun st vhdPath r => fst r = fst (deleteIfOrphan remove' st vhdPath))).
  - intros st0 v Hnone. rewrite (deleteIfOrphan_eq remove'), Hnone. reflexivity.
  - intros st0 v parent Hparent st1 IH.
    rewrite (deleteIfOrphan_eq remove' st0), Hparent. fold st1.
    destruct (deleteIfOrphan remove st1 parent) as [st2 t2].
    destruct (deleteIfOrphan remove' st1 parent) as [st2' t2'].
    simpl in IH. subst st2'. unfold orphanCheck.
    now destruct (JsSet.has parent (p_vhds st2)).
Qed.

Lemma pruneOrphans_state V P :
  fst (pruneOrphans remove V P) = fst (pruneOrphans remove' V P).
Proof.
  apply foldT_fst_ext. intros st v. unfold pruneStep.
  destruct (JsMap.has v (p_vhdParents st)); [apply deleteIfOrphan_state | reflexivity].
Qed.

Lemma checkMetadatas_unused vmDir V entries :
  unusedVhds (fst (checkMetadatas w remove vmDir V entries))
  = unusedVhds (fst (checkMetadatas w remove' vmDir V entries)).
Proof.
  unfold checkMetadatas.
  assert (H : forall l st st',
             unusedVhds st = unusedVhds st' ->
             unusedVhds (fst (foldT (checkMetadata w remove vmDir V (e_xvas entries)) st l))
             = unusedVhds (fst (foldT (checkMetadata w remove' vmDir V (e_xvas entries))
                                      st' l))).
  { induction l as [|a l IH]; intros st st' Hst; simpl; [assumption|].
    assert (Hstep : unusedVhds (fst (checkMetadata w remove vmDir V (e_xvas entries) st a))
                    = unusedVhds (fst (checkMetadata w remove' vmDir V (e_xvas entries)
                                                     st' a))).
    { unfold checkMetadata, incompleteBackup.
      destruct (readMetadata w a) as [md|]; [|assumption].
      destruct (mode md); [| |assumption].
      - destruct (JsSet.has _ _); [assumption|].
        destruct remove, remove'; assumption.
      - destruct (filter _ _); simpl; [now rewrite Hst|].
        destruct remove, remove'; assumption. }
    destruct (checkMetadata w remove vmDir V (e_xvas entries) st a) as [st1 t1].
    destruct (checkMetadata w remove' vmDir V (e_xvas entries) st' a) as [st1' t1'].
    simpl in Hstep. specialize (IH st1 st1' Hstep).
    destruct (foldT _ st1 l), (foldT _ st1' l). exact IH. }
  specialize (H (asyncOrder (completion w) (e_jsons entries))
                (mkRefs (e_jsons entries) V (e_xvas entries) [])
                (mkRefs (e_jsons entries) V (e_xvas entries) []) eq_refl).
  destruct (foldT (checkMetadata w remove vmDir V (e_xvas entries)) _ _).
  destruct (foldT (checkMetadata w remove' vmDir V (e_xvas entries)) _ _).
  exact H.
Qed.

Lemma getUsedChildChainOrDelete_state U ch fuel : forall st vhd,
  match getUsedChildChainOrDelete fuel remove U ch st vhd,
        getUsedChildChainOrDelete fuel remove' U ch st vhd with
  | Some (r, st1, _), Some (r', st1', _) => r = r' /\ st1 = st1'
  | None, None => True
  | _, _ => False
  end.
Proof.
  induction fuel as [|fuel IH]; intros st vhd; simpl; [exact I|].
  destruct (JsMap.get vhd (vhdChainsToMerge st)); [auto|].
  destruct (negb (JsSet.has vhd U)); [auto|].
  destruct (JsMap.get vhd ch) as [child|]; [|auto].
  specialize (IH (mkChains (vhdChainsToMerge st) (JsSet.delete vhd (toCheck st))) child).
  destruct (getUsedChildChainOrDelete fuel remove U ch _ child) as [[[[c|] st2] t2]|];
    destruct (getUsedChildChainOrDelete fuel remove' U ch _ child) as [[[[c'|] st2'] t2']|];
    try contradiction; try exact I;
    destruct IH as [Hr ->]; try discriminate;
    try injection Hr as <-; auto.
Qed.

Lemma forEachToCheck_state U ch fuel l : forall st,
  fst (forEachToCheck fuel remove U ch st l) = fst (forEachToCheck fuel remove' U ch st l).
Proof.
  induction l as [|vhd l IH]; intros st; simpl; [reflexivity|].
  destruct (JsSet.has vhd (toCheck st)); [|apply IH].
  pose proof (getUsedChildChainOrDelete_state U ch fuel st vhd) as H.
  destruct (getUsedChildChainOrDelete fuel remove U ch st vhd) as [[[r st1] t1]|];
    destruct (getUsedChildChainOrDelete fuel remove' U ch st vhd) as [[[r' st1'] t1']|];
    try contradiction; [|reflexivity].
  destruct H as [<- <-].
  specialize (IH (mkChains (JsMap.set vhd r (vhdChainsToMerge st1)) (toCheck st1))).
  destruct (forEachToCheck fuel remove U ch _ l), (forEachToCheck fuel remove' U ch _ l).
  exact IH.
Qed.

Lemma chainsToMerge_state U ch fuel interruptedVhds :
  fst (chainsToMerge fuel remove U ch interruptedVhds)
  = fst (chainsToMerge fuel remove' U ch interruptedVhds).
Proof.
  unfold chainsToMerge, chainsByAncestor, usageChains.
  pose proof (forEachToCheck_state U ch fuel U (mkChains [] U)) as H.
  destruct (forEachToCheck fuel remove U ch _ U) as [[st|] t];
    destruct (forEachToCheck fuel remove' U ch _ U) as [[st'|] t'];
    simpl in *; congruence.
Qed.

End Independence.

(** X16.  The chains to merge and the summary of a run do not depend on the
    options: a run that changes nothing reports the chains that a run with
    [remove] and [merge] would merge in the same directory. *)
Theorem summary_does_not_depend_on_options (w : World) (fuel : nat)
        (opts opts' : Options) (vmDir : path) :
  run_toMerge (runCleanVm w fuel opts vmDir) = run_toMerge (runCleanVm w fuel opts' vmDir)
  /\ fst (cleanVm w fuel opts vmDir) = fst (cleanVm w fuel opts' vmDir).
Proof.
  assert (H : run_toMerge (runCleanVm w fuel opts vmDir)
              = run_toMerge (runCleanVm w fuel opts' vmDir)).
  { pose proof (runCleanVm_stages w fuel opts vmDir) as H. cbv zeta in H.
    pose proof (runCleanVm_stages w fuel opts' vmDir) as H'. cbv zeta in H'.
    destruct H as (H1 & H2 & H3 & H4 & H5 & H6 & _).
    destruct H' as (H1' & H2' & H3' & H4' & H5' & H6' & _).
    assert (E1 : run_listing (runCleanVm w fuel opts vmDir)
                 = run_listing (runCleanVm w fuel opts' vmDir)) by congruence.
    assert (E2 : run_graph (runCleanVm w fuel opts vmDir)
                 = run_graph (runCleanVm w fuel opts' vmDir)).
    { rewrite H2, H2', E1. apply checkVhds_state. }
    assert (E3 : run_interruptedVhds (runCleanVm w fuel opts vmDir)
                 = run_interruptedVhds (runCleanVm w fuel opts' vmDir)).
    { rewrite H3, H3', E1, E2. apply checkMergeStates_state. }
    assert (E4 : run_vhds (runCleanVm w fuel opts vmDir)
                 = run_vhds (runCleanVm w fuel opts' vmDir)).
    { rewrite H4, H4', E2. f_equal. apply pruneOrphans_state. }
    assert (E5 : unusedVhds (run_refs (runCleanVm w fuel opts vmDir))
                 = unusedVhds (run_refs (runCleanVm w fuel opts' vmDir))).
    { rewrite H5, H5', E4. apply checkMetadatas_unused. }
    rewrite H6, H6', E2, E3, E5. apply chainsToMerge_state. }
  split; [assumption|].
  unfold cleanVm. cbn [fst].
  destruct (runCleanVm_shape w fuel opts vmDir) as (te & tu & _ & _ & A).
  destruct (runCleanVm_shape w fuel opts' vmDir) as (te' & tu' & _ & _ & B).
  rewrite <- H in B.
  destruct (run_toMerge (runCleanVm w fuel opts vmDir)) as [toMerge|].
  - destruct A as (_ & _ & _ & A). destruct B as (_ & _ & _ & B).
    now rewrite A, B.
  - destruct A as (_ & A). destruct B as (_ & B). now rewrite A, B.
Qed.

(** ** The checksum of an XVA of the directory *)

Lemma without_checksum_of (xva : string) :
  without_checksum (xva ++ ".checksum")%string = xva.
Proof.
  unfold without_checksum. rewrite string_app_length. simpl.
  replace (String.length xva + 9 - 9) with (String.length xva) by lia.
  apply substring_prefix.
Qed.

(** X17.  The pass over the checksum files takes the name of a checksum file
    without its last nine characters for the name of its XVA: the checksum
    file of an XVA of the directory is never deleted by this pass, whether
    or not the XVA is used. *)
Theorem checksum_of_listed_xva_kept (remove : bool) (xvas : JsSet.t)
        (xvaSums : list path) (xva : path) :
  In xva xvas ->
  ~ In (Call (OpUnlink (xva ++ ".checksum")%string))
       (flat_map (unusedXvaSum remove xvas) xvaSums).
Proof.
  intros Hx Hin. apply in_flat_map in Hin. destruct Hin as (p & _ & H).
  unfold unusedXvaSum in H.
  destruct (JsSet.has (without_checksum p) xvas) eqn:Eh; [contradiction|].
  destruct H as [[=]|H]. destruct remove; simpl in H; [|contradiction].
  destruct H as [[=]|[[= ->]|[]]].
  rewrite without_checksum_of in Eh. apply set_has_not_In in Eh. contradiction.
Qed.

(** ** The tree view (lines 630-659) *)

Section TreeViewFacts.

Variables (Label Node : Type).
Variable truthy : Node -> bool.

Local Abbreviation Item := (ItemType Label Node).

Lemma ItemType_induction (P : Item -> Prop) :
  (forall children id label to tooltip,
      (forall l, children = Some l -> Forall P l) ->
      P (mkItem children id label to tooltip)) ->
  forall item, P item.
Proof.
  intros H. fix IH 1. intros [[l|] id label to tooltip].
  - assert (Hl : Forall P l)
      by (induction l as [|a l IHl]; constructor; [apply IH | exact IHl]).
    apply H. intros l' [= <-]. exact Hl.
  - apply H. intros l' [=].
Qed.

Lemma renderItem_ids (item : Item) :
  node_ids (renderItem truthy item) = item_ids item.
Proof.
  induction item as [children id label to tooltip IH] using ItemType_induction.
  simpl. f_equal. destruct children as [l|]; [|reflexivity].
  f_equal. specialize (IH l eq_refl). rewrite map_map.
  induction IH as [|a l Ha _ IHl]; simpl; [reflexivity|]. now rewrite Ha, IHl.
Qed.

End TreeViewFacts.

(** X18.  [Tree] throws on an empty collection.  On another one it renders every
    item, at every depth, as one [TreeItem] whose [nodeId] and [key] are the
    [id] of the item, in the order and with the nesting of the collection,
    an item without [children] having [null] for children and one with an
    empty array an empty array; the first item of the collection is the one
    expanded, and the selection is the one given. *)
Theorem tree_renders_every_item (Label Node : Type) (truthy : Node -> bool)
        (collection : list (ItemType Label Node))
        (defaultSelectedNodes : option (list (option string))) :
  (Tree truthy collection defaultSelectedNodes = None <-> collection = [])
  /\ (forall view,
         Tree truthy collection defaultSelectedNodes = Some view ->
         map (node_ids) (tv_children view)
         = map (item_ids) collection
         /\ map (element_key) (tv_children view)
            = map (item_id) collection
         /\ defaultExpanded view = map (item_id) (firstn 1 collection)
         /\ selected view = defaultSelectedNodes).
Proof.
  split.
  - destruct collection; simpl; split; try discriminate; reflexivity.
  - intros view. destruct collection as [|first rest]; [discriminate|].
    simpl. intros [= <-]. simpl. repeat split.
    + rewrite renderItem_ids. f_equal. rewrite map_map.
      apply map_ext. intros a. apply renderItem_ids.
    + f_equal; [now destruct first|]. rewrite map_map. apply map_ext.
      intros a. now destruct a.
Qed.

(** ** The walk ends when no VHD is its own ancestor *)

Section Walks.

Variable U : JsSet.t.
Variable ch : JsMap.t path.     (* vhdChildren *)
Variable P : JsMap.t path.      (* vhdParents *)
Hypothesis Hedge : forall q c, JsMap.get q ch = Some c -> JsMap.get c P = Some q.
Hypothesis Hacyclic : Acyclic P.

Lemma ancestor_of_ancestor a a' b :
  Ancestor P a b -> JsMap.get a P = Some a' -> Ancestor P a' b.
Proof.
  induction 1 as [v a Hv | v q a Hv Ha IH]; intros Ha'.
  - eapply ancestor_step; [eassumption|]. now apply ancestor_parent.
  - eapply ancestor_step; [eassumption|]. now apply IH.
Qed.

(** A walk that has not ended after [n] calls has met [n] VHDs, all
    different, each of which has a registered parent. *)
Lemma walk_children n : forall v,
  walk_ends U ch (S n) v = false ->
  exists l, length l = n /\ NoDup l
            /\ forall c, In c l -> Ancestor P v c /\ In c (JsMap.keys P).
Proof.
  induction n as [|n IH]; intros v.
  - intros _. exists []. split; [reflexivity|]. split; [constructor|]. intros c [].
  - change (walk_ends U ch (S (S n)) v)
      with (if negb (JsSet.has v U) then true
            else match JsMap.get v ch with
                 | Some child => walk_ends U ch (S n) child
                 | None => true
                 end).
    destruct (negb (JsSet.has v U)); [discriminate|].
    destruct (JsMap.get v ch) as [child|] eqn:Ec; [|discriminate].
    intros Hw. destruct (IH child Hw) as (l & Hlen & Hnd & Hl).
    pose proof (Hedge v child Ec) as Hp.
    exists (child :: l). split; [simpl; now rewrite Hlen|]. split.
    + constructor; [|assumption]. intros Hin.
      apply (Hacyclic child). now apply Hl.
    + intros c [<-|Hc].
      * split; [now apply ancestor_parent | eapply map_get_key; eassumption].
      * destruct (Hl c Hc) as [Ha Hk]. split; [|assumption].
        eapply ancestor_of_ancestor; eassumption.
Qed.

Lemma walk_ends_within v : walk_ends U ch (length P + 2) v = true.
Proof.
  destruct (walk_ends U ch (length P + 2) v) eqn:E; [reflexivity|].
  replace (length P + 2) with (S (S (length P))) in E by lia.
  destruct (walk_children (S (length P)) v E) as (l & Hlen & Hnd & Hl).
  assert (Hle : length l <= length (JsMap.keys P)).
  { apply NoDup_incl_length; [assumption|]. intros c Hc. now apply Hl. }
  unfold JsMap.keys in Hle. rewrite length_map in Hle. lia.
Qed.

Lemma walk_ends_longer n : forall m v,
  walk_ends U ch n v = true -> n <= m -> walk_ends U ch m v = true.
Proof.
  induction n as [|n IH]; intros m v; simpl; [discriminate|].
  intros H Hm. destruct m as [|m]; [lia|]. simpl.
  destruct (negb (JsSet.has v U)); [reflexivity|].
  destruct (JsMap.get v ch); [|reflexivity].
  apply IH; [assumption | lia].
Qed.

End Walks.

(** X19.  When no VHD is its own ancestor along the registered parents, the walk
    over the unused VHDs ends within as many calls as there are registered
    parents, and two more: with a stack of that depth [cleanVm] computes the
    chains and returns a summary, whatever the options. *)
Theorem cleanVm_returns_when_acyclic (w : World) (fuel : nat) (opts : Options)
        (vmDir : path) :
  Acyclic (vhdParents (run_graph (runCleanVm w fuel opts vmDir))) ->
  length (vhdParents (run_graph (runCleanVm w fuel opts vmDir))) + 2 <= fuel ->
  exists toMerge,
    run_toMerge (runCleanVm w fuel opts vmDir) = Some toMerge
    /\ fst (cleanVm w fuel opts vmDir)
       = Some (mkSummary (negb (Nat.eqb (length toMerge) 0))).
Proof.
  intros Hacyclic Hfuel. unfold cleanVm. cbn [fst].
  pose proof (runCleanVm_stages w fuel opts vmDir) as Hs. cbv zeta in Hs.
  destruct Hs as (_ & Hgraph & _ & _ & _ & HtoMerge & _).
  destruct (runCleanVm_shape w fuel opts vmDir) as (te & tu & _ & _ & H).
  set (r := runCleanVm w fuel opts vmDir) in *.
  assert (Hsome : run_toMerge r <> None).
  { rewrite HtoMerge. unfold chainsToMerge, chainsByAncestor, usageChains.
    pose proof (forEachToCheck_total (remove opts) (unusedVhds (run_refs r))
                  (vhdChildren (run_graph r)) fuel (unusedVhds (run_refs r))
                  (mkChains [] (unusedVhds (run_refs r)))) as Htotal.
    destruct (forEachToCheck fuel (remove opts) _ _ _ _) as [[st|] t];
      [discriminate|].
    exfalso. apply Htotal; [|reflexivity].
    intros v _.
    apply (walk_ends_longer _ _ (length (vhdParents (run_graph r)) + 2));
      [|assumption].
    apply walk_ends_within; [|assumption].
    intros q c Hc. rewrite Hgraph in Hc |- *.
    now apply checkVhds_child_parent. }
  destruct (run_toMerge r) as [toMerge|]; [|congruence].
  exists toMerge. split; [reflexivity|]. now destruct H as (_ & _ & _ & H).
Qed.

(** ** The record marked for the merge of an interrupted VHD *)

Lemma mergeChain_keeps w remove merge J st c k :
  JsMap.has k (metadataWithMergedVhd st) = true ->
  JsMap.has k (metadataWithMergedVhd (fst (mergeChain w remove merge J st c))) = true.
Proof.
  intros H. unfold mergeChain.
  destruct (mergeVhdChain w remove merge c) as [[[z|]|] t]; simpl; try assumption.
  apply map_has_key in H. apply map_has_key. rewrite map_keys_set.
  destruct (JsMap.has (js_key _) (metadataWithMergedVhd st)); [assumption|].
  apply in_app_iff. now left.
Qed.

(** The record that [doMerge] marks for a chain that is merged. *)
Lemma doMerge_marks w remove J toMerge parent children z :
  In (parent :: children) toMerge -> children <> [] ->
  mergeVhd w parent children = Some z ->
  JsMap.has (js_key (JsMap.get (js_key parent) J))
            (metadataWithMergedVhd (fst (doMerge w remove true J toMerge))) = true.
Proof.
  intros Hin Hne Hz. unfold doMerge.
  apply (foldT_after (mergeChain w remove true J)
           (fun st => JsMap.has (js_key (JsMap.get (js_key parent) J))
                                (metadataWithMergedVhd st) = true)
           toMerge (parent :: children)).
  - assumption.
  - intros st. unfold mergeChain, mergeVhdChain.
    destruct children as [|c cs]; [congruence|]. simpl. rewrite Hz. simpl.
    apply map_has_get. rewrite map_get_set_same. eauto.
  - intros st c H. now apply mergeChain_keeps.
Qed.

(** X20.  Under [merge], when the merge of a VHD whose merge state is left gives
    a size, the record marked as merged is the one remembered for the
    registered child of the VHD, the first element of the chain. *)
Theorem interrupted_merge_marks_the_record_of_the_child (w : World) (fuel : nat)
        (opts : Options) (vmDir : path) (p child json : path) (z : Z) :
  merge opts = true ->
  run_toMerge (runCleanVm w fuel opts vmDir) <> None ->
  In p (JsMap.keys (run_interruptedVhds (runCleanVm w fuel opts vmDir))) ->
  JsMap.get p (vhdChildren (run_graph (runCleanVm w fuel opts vmDir))) = Some child ->
  mergeVhd w (Some child) [Some p] = Some z ->
  JsMap.get child (vhdsToJSons (run_refs (runCleanVm w fuel opts vmDir))) = Some json ->
  JsMap.has json (metadataWithMergedVhd (run_merging (runCleanVm w fuel opts vmDir)))
  = true.
Proof.
  intros Hmerge Hchains Hp Hchild Hz Hjson.
  pose proof (runCleanVm_stages w fuel opts vmDir) as Hs. cbv zeta in Hs.
  destruct Hs as (_ & _ & _ & _ & _ & HtoMerge & _).
  destruct (runCleanVm_shape w fuel opts vmDir) as (te & tu & _ & _ & H).
  set (r := runCleanVm w fuel opts vmDir) in *.
  destruct (run_toMerge r) as [toMerge|] eqn:E; [|congruence].
  destruct H as (_ & -> & _).
  assert (Hin : In [Some child; Some p] toMerge).
  { revert HtoMerge. unfold chainsToMerge.
    destruct (chainsByAncestor fuel (remove opts) _ _ _) as [[m|] t] eqn:Em;
      [|discriminate].
    simpl. intros [= ->]. apply collectChains_In. exists p.
    apply map_get_In.
    revert Em. unfold chainsByAncestor.
    destruct (usageChains fuel (remove opts) _ _) as [[st|] t']; [|discriminate].
    intros [= <- <-]. unfold mergeInterrupted. rewrite mergeInterrupted_get.
    apply existsb_eqb_In in Hp. rewrite Hp. unfold interruptedChain.
    now rewrite Hchild. }
  rewrite Hmerge.
  pose proof (doMerge_marks w (remove opts) (vhdsToJSons (run_refs r)) toMerge
                (Some child) [Some p] z Hin ltac:(discriminate) Hz) as Hm.
  cbn [js_key] in Hm.
  match type of Hm with
  | JsMap.has (js_key ?x) _ = true =>
      replace x with (Some json) in Hm by (symmetry; exact Hjson)
  end.
  exact Hm.
Qed.

(** ** A VHD that nothing is wrong with *)

Section Healthy.

Variable w : World.
Variable remove : bool.
Variable interruptedVhds : JsMap.t path.
Variable L : JsSet.t.       (* the VHDs listed *)
Variable p : path.
Variable v : Vhd.
Hypothesis Hv : vhdOf w interruptedVhds p = Some v.
Hypothesis Honly : only_child w interruptedVhds L p.
Hypothesis Huniq :
  forall q vq, In q L -> q <> p -> vhdOf w interruptedVhds q = Some vq ->
               footer_uuid vq <> footer_uuid v.

Local Abbreviation step := (checkVhd w remove interruptedVhds).
Local Abbreviation inv := (graph_inv w interruptedVhds L).

(** The VHDs indexed by UUID and the registered children are VHDs other
    than [p]. *)
Local Abbreviation apart g :=
  ((forall k d, JsMap.get k (vhdById g) = Some d -> In (_path d) L /\ _path d <> p)
   /\ (forall k c, JsMap.get k (vhdChildren g) = Some c -> c <> p)).

Lemma other_keeps_active g q :
  inv g -> In q L -> q <> p -> In p (vhds g) -> In p (vhds (fst (step g q))).
Proof.
  intros Hinv Hq Hne Hp.
  destruct (checkVhd_dichotomy w interruptedVhds g q) as [(vq & Hvq & Hfree)|Hrej].
  - destruct (checkVhd_opened w remove interruptedVhds g q vq Hvq Hfree)
      as (g0 & -> & Hvhds & Hidx & _).
    pose proof (dedupe_cases w g0 vq) as Hd. rewrite Hidx in Hd.
    pose proof (vhdOf_path w interruptedVhds q vq Hvq) as Hpath.
    destruct (JsMap.get (footer_uuid vq) (vhdById g)) as [dup|] eqn:Edup.
    + destruct Hinv as [Hi _]. destruct (Hi _ _ Edup) as [Hu Hdup].
      destruct (containsAllDataOf w dup vq).
      * destruct Hd as [-> _]. rewrite Hvhds, Hpath. apply set_delete_In. auto.
      * destruct (containsAllDataOf w vq dup).
        -- destruct Hd as [-> _]. rewrite Hvhds. apply set_delete_In.
           split; [assumption|]. intros Heq.
           rewrite <- Heq, Hv in Hdup. injection Hdup as <-.
           apply (Huniq q vq Hq Hne Hvq). now symmetry.
        -- destruct Hd as [-> _]. now rewrite Hvhds.
    + destruct Hd as [-> _]. now rewrite Hvhds.
  - destruct (checkVhd_rejected w remove interruptedVhds g q Hrej) as [-> _].
    apply set_delete_In. auto.
Qed.

Lemma other_keeps_apart g q :
  inv g -> In q L -> q <> p -> apart g -> apart (fst (step g q)).
Proof.
  intros Hinv Hq Hne [Hidx Hch].
  destruct (checkVhd_dichotomy w interruptedVhds g q) as [(vq & Hvq & Hfree)|Hrej].
  - destruct (checkVhd_opened w remove interruptedVhds g q vq Hvq Hfree)
      as (g0 & -> & Hvhds & Hidx0 & Hch0).
    pose proof (dedupe_cases w g0 vq) as Hd. rewrite Hidx0 in Hd.
    pose proof (vhdOf_path w interruptedVhds q vq Hvq) as Hpath.
    destruct (dedupe_links w g0 vq) as [Hlinks _].
    split.
    + assert (Hset : forall u d0 k d,
                 (In (_path d0) L /\ _path d0 <> p) ->
                 JsMap.get k (JsMap.set u d0 (vhdById g)) = Some d ->
                 In (_path d) L /\ _path d <> p).
      { intros u d0 k d Hd0. destruct (string_dec k u) as [->|Hku].
        - rewrite map_get_set_same. now intros [= <-].
        - rewrite map_get_set_other by assumption. apply Hidx. }
      assert (Hvq' : In (_path vq) L /\ _path vq <> p) by (rewrite Hpath; auto).
      intros k d.
      destruct (JsMap.get (footer_uuid vq) (vhdById g)) as [dup|] eqn:Edup.
      * pose proof (Hidx _ _ Edup) as Hdup.
        destruct (containsAllDataOf w dup vq);
          [|destruct (containsAllDataOf w vq dup)];
          destruct Hd as (_ & -> & _) || destruct Hd as (_ & ->);
          now apply Hset.
      * destruct Hd as (_ & -> & _). now apply Hset.
    + intros k c. rewrite Hlinks. intros H. apply Hch0 in H.
      destruct H as [H|[-> _]]; [now apply (Hch k) | assumption].
  - destruct (checkVhd_rejected w remove interruptedVhds g q Hrej) as (_ & Hi & Hc).
    rewrite Hi, Hc. auto.
Qed.

Lemma self_keeps_active g :
  inv g -> apart g -> In p (vhds g) -> In p (vhds (fst (step g p))).
Proof.
  intros Hinv [Hidx Hch] Hp.
  assert (Hfree : forall q, parentOf w interruptedVhds p = Some q ->
                            JsMap.get q (vhdChildren g) = None).
  { intros q Hq. destruct (JsMap.get q (vhdChildren g)) as [c|] eqn:Ec; [|reflexivity].
    exfalso. destruct Hinv as [_ Hi]. destruct (Hi _ _ Ec) as [Hc Hpc].
    exact (Honly c q Hc (Hch _ _ Ec) Hpc Hq). }
  destruct (checkVhd_opened w remove interruptedVhds g p v Hv Hfree)
    as (g0 & -> & Hvhds & Hidx0 & _).
  pose proof (dedupe_cases w g0 v) as Hd. rewrite Hidx0 in Hd.
  destruct (JsMap.get (footer_uuid v) (vhdById g)) as [dup|] eqn:Edup.
  - exfalso. destruct (Hidx _ _ Edup) as [Hin Hne].
    destruct Hinv as [Hi _]. destruct (Hi _ _ Edup) as [Hu Hdup].
    exact (Huniq (_path dup) dup Hin Hne Hdup Hu).
  - destruct Hd as [-> _]. now rewrite Hvhds.
Qed.

Lemma others_before l : forall g,
  (forall q, In q l -> In q L /\ q <> p) ->
  inv g -> apart g -> In p (vhds g) ->
  inv (fst (foldT step g l)) /\ apart (fst (foldT step g l))
  /\ In p (vhds (fst (foldT step g l))).
Proof.
  induction l as [|q l IH]; intros g Hl Hinv Hap Hp; simpl; [auto|].
  destruct (Hl q (or_introl eq_refl)) as [Hq Hne].
  pose proof (checkVhd_inv w remove interruptedVhds L g q Hq Hinv) as H1.
  pose proof (other_keeps_apart g q Hinv Hq Hne Hap) as H2.
  pose proof (other_keeps_active g q Hinv Hq Hne Hp) as H3.
  destruct (step g q) as [g1 t1]. simpl in *.
  specialize (IH g1 (fun x Hx => Hl x (or_intror Hx)) H1 H2 H3).
  now destruct (foldT step g1 l).
Qed.

Lemma others_after l : forall g,
  (forall q, In q l -> In q L /\ q <> p) ->
  inv g -> In p (vhds g) -> In p (vhds (fst (foldT step g l))).
Proof.
  induction l as [|q l IH]; intros g Hl Hinv Hp; simpl; [auto|].
  destruct (Hl q (or_introl eq_refl)) as [Hq Hne].
  pose proof (checkVhd_inv w remove interruptedVhds L g q Hq Hinv) as H1.
  pose proof (other_keeps_active g q Hinv Hq Hne Hp) as H3.
  destruct (step g q) as [g1 t1]. simpl in *.
  specialize (IH g1 (fun x Hx => Hl x (or_intror Hx)) H1 H3).
  now destruct (foldT step g1 l).
Qed.

End Healthy.

(** X21.  A listed VHD that opens, is the only listed VHD to name its parent and
    shares its UUID with no other listed VHD is still active after the VHDs
    have been opened, in whatever order they are, and is not deleted. *)
Theorem healthy_vhd_stays_active (w : World) (remove : bool)
        (interruptedVhds : JsMap.t path) (vhds0 : JsSet.t) (p : path) (v : Vhd) :
  NoDup vhds0 -> In p vhds0 ->
  vhdOf w interruptedVhds p = Some v ->
  only_child w interruptedVhds vhds0 p ->
  (forall q vq, In q vhds0 -> q <> p -> vhdOf w interruptedVhds q = Some vq ->
                footer_uuid vq <> footer_uuid v) ->
  In p (vhds (fst (checkVhds w remove interruptedVhds vhds0)))
  /\ ~ In (Call (OpVhdUnlink p)) (snd (checkVhds w remove interruptedVhds vhds0)).
Proof.
  intros Hnd Hp Hv Honly Huniq. split.
  - rewrite checkVhds_fold. cbn [fst].
    pose proof (asyncOrder_NoDup (completion w) vhds0 Hnd) as Hnd'.
    assert (Hp' : In p (asyncOrder (completion w) vhds0)) by now apply asyncOrder_In.
    destruct (in_split _ _ Hp') as (l1 & l2 & Hsplit).
    assert (Hin : forall q, In q (l1 ++ l2) -> In q vhds0 /\ q <> p).
    { intros q Hq. rewrite Hsplit in Hnd'. apply NoDup_remove in Hnd'.
      destruct Hnd' as [_ Hnotin]. split.
      - apply (asyncOrder_In (completion w)). rewrite Hsplit.
        apply in_app_iff in Hq. apply in_app_iff. simpl. tauto.
      - intros ->. contradiction. }
    rewrite Hsplit, foldT_split_fst.
    assert (H0 : graph_inv w interruptedVhds vhds0 (mkGraph vhds0 [] [] [])).
    { split; simpl; intros k d [=]. }
    destruct (others_before w remove interruptedVhds vhds0 p v Hv Huniq l1
                (mkGraph vhds0 [] [] [])) as (H1 & H2 & H3).
    + intros q Hq. apply Hin. apply in_app_iff. now left.
    + assumption.
    + split; simpl; intros k d [=].
    + assumption.
    + apply (others_after w remove interruptedVhds vhds0 p v Hv Huniq).
      * intros q Hq. apply Hin. apply in_app_iff. now right.
      * now apply checkVhd_inv.
      * now apply (self_keeps_active w remove interruptedVhds vhds0 p v).
  - unfold vhdOf in Hv.
    destruct (openVhd w p (negb (JsMap.has p interruptedVhds)))
      as [diskType uuid pname|] eqn:E; [|discriminate].
    eapply checkVhds_keeps_opened. eassumption.
Qed.

(** ** Deletions and the log *)

Lemma logged_app_l p t1 t2 : logged p t1 -> logged p (t1 ++ t2).
Proof.
  intros (msg & args & H & Hn). exists msg, args. split; [|assumption].
  rewrite !in_app_iff. tauto.
Qed.

Lemma logged_app_r p t1 t2 : logged p t2 -> logged p (t1 ++ t2).
Proof.
  intros (msg & args & H & Hn). exists msg, args. split; [|assumption].
  rewrite !in_app_iff. tauto.
Qed.

Lemma announced_app t1 t2 : announced t1 -> announced t2 -> announced (t1 ++ t2).
Proof.
  intros H1 H2 p. rewrite !in_app_iff. intros [[H|H]|[H|H]].
  - apply logged_app_l, H1. auto.
  - apply logged_app_r, H2. auto.
  - apply logged_app_l, H1. auto.
  - apply logged_app_r, H2. auto.
Qed.

Lemma announced_nil : announced [].
Proof. intros p [[]|[]]. Qed.

Lemma announced_quiet t :
  Forall (deletes_under false) t -> announced t.
Proof.
  intros H p Hp. rewrite Forall_forall in H.
  destruct Hp as [Hp|Hp]; apply H in Hp; discriminate.
Qed.

Lemma announced_foldT {A S} (f : S -> A -> S * trace) l :
  (forall s a, announced (snd (f s a))) -> forall s, announced (snd (foldT f s l)).
Proof.
  intros Hf. induction l as [|a l IH]; intros s; simpl; [apply announced_nil|].
  specialize (Hf s a). destruct (f s a) as [s1 t1]. specialize (IH s1).
  destruct (foldT f s1 l) as [s2 t2]. simpl in *. now apply announced_app.
Qed.

Lemma announced_flat_map {A} (f : A -> trace) l :
  (forall a, announced (f a)) -> announced (flat_map f l).
Proof.
  intros Hf. induction l as [|a l IH]; simpl; [apply announced_nil|].
  now apply announced_app.
Qed.

Section Announcements.

Variable w : World.
Variable remove : bool.

Lemma checkVhd_announced I g p : announced (snd (checkVhd w remove I g p)).
Proof.
  intros x Hx.
  assert (Hc : In (Call (OpVhdUnlink x)) (snd (checkVhd w remove I g p)) -> x = p).
  { intros H. apply checkVhd_calls in H. destruct H as ([= ->] & _). reflexivity. }
  assert (Hx' : x = p).
  { destruct Hx as [Hx|Hx]; [|auto].
    apply checkVhd_calls in Hx. destruct Hx as ([=] & _). }
  subst x.
  assert (Hlog : In (Call (OpVhdUnlink p)) (snd (checkVhd w remove I g p))).
  { destruct Hx as [Hx|Hx]; [|assumption].
    apply checkVhd_calls in Hx. destruct Hx as ([=] & _). }
  apply checkVhd_calls in Hlog. destruct Hlog as (_ & -> & Hopen).
  unfold checkVhd. rewrite Hopen. unfold checkFailed. simpl.
  exists "deleting broken VHD", [("path", AStr p)]. split; [simpl; auto|].
  exists "path", (AStr p). simpl. auto.
Qed.

Lemma checkMergeState_announced V m k : announced (snd (checkMergeState remove V m k)).
Proof.
  unfold checkMergeState. destruct (JsSet.has k V); [apply announced_nil|].
  destruct remove; simpl.
  - intros x [Hx|Hx]; simpl in Hx.
    + destruct Hx as [[=]|[[=]|[[= <-]|[]]]].
      exists "orphan merge state",
        [("mergeStatePath", AOpt (JsMap.get k m)); ("missingVhdPath", AStr k)].
      split; [simpl; auto|].
      exists "mergeStatePath", (AOpt (JsMap.get k m)). split; [simpl; auto|].
      right. eauto.
    + destruct Hx as [[=]|[[=]|[[=]|[]]]].
  - intros x [[[=]|[]]|[[=]|[]]].
Qed.

Lemma checkAlias_announced found alias : announced (snd (checkAlias w remove found alias)).
Proof.
  unfold checkAlias.
  destruct (isVhdFile w (resolveVhdAlias w alias)); simpl.
  - destruct (aliasTargetOpens w (resolveVhdAlias w alias)); simpl.
    + intros x [[[=]|[[=]|[]]]|[[=]|[[=]|[]]]].
    + destruct remove; simpl.
      * intros x [Hx|Hx]; simpl in Hx.
        -- exfalso. destruct Hx as [[=]|[[=]|[[=]|[[=]|Hx]]]].
           destruct (aliasUnlinkError w alias) as [[c|]|]; simpl in Hx;
             try contradiction.
           ++ destruct (String.eqb c "ENOENT"); [contradiction|].
              destruct Hx as [[=]|[]].
           ++ destruct Hx as [[=]|[]].
        -- assert (x = alias).
           { destruct Hx as [[=]|[[=]|[[=]|[[= <-]|Hx]]]]; [reflexivity|].
             exfalso.
             destruct (aliasUnlinkError w alias) as [[c|]|]; simpl in Hx;
               try contradiction.
             ++ destruct (String.eqb c "ENOENT"); [contradiction|].
                destruct Hx as [[=]|[]].
             ++ destruct Hx as [[=]|[]]. }
           subst x.
           exists "missing or broken alias target",
             [("alias", AStr alias); ("target", AStr (resolveVhdAlias w alias))].
           split; [simpl; auto|].
           exists "alias", (AStr alias). simpl. auto.
      * intros x [[[=]|[[=]|[[=]|[]]]]|[[=]|[[=]|[[=]|[]]]]].
  - destruct remove; simpl.
    + intros x [Hx|Hx]; simpl in Hx.
      * destruct Hx as [[=]|[[=]|[[=]|[[= <-]|[[= <-]|[]]]]]];
          exists "alias references non VHD target",
            [("alias", AStr alias); ("target", AStr (resolveVhdAlias w alias))];
          (split; [simpl; auto|]).
        -- exists "target", (AStr (resolveVhdAlias w alias)). simpl. auto.
        -- exists "alias", (AStr alias). simpl. auto.
      * destruct Hx as [[=]|[[=]|[[=]|[[=]|[[=]|[]]]]]].
    + intros x [[[=]|[[=]|[]]]|[[=]|[[=]|[]]]].
Qed.

Lemma checkUnaliased_announced found p : announced (checkUnaliased remove found p).
Proof.
  unfold checkUnaliased. destruct (existsb _ _); [apply announced_nil|].
  destruct remove; simpl.
  - intros x [Hx|Hx]; simpl in Hx.
    + destruct Hx as [[=]|[[=]|[[=]|[]]]].
    + destruct Hx as [[=]|[[=]|[[= <-]|[]]]].
      exists "no alias references VHD", [("path", AStr p)]. split; [simpl; auto|].
      exists "path", (AStr p). simpl. auto.
  - intros x [[[=]|[]]|[[=]|[]]].
Qed.

Lemma checkAliases_announced aliasPaths dir : announced (checkAliases w remove aliasPaths dir).
Proof.
  unfold checkAliases.
  pose proof (announced_foldT (checkAlias w remove) aliasPaths
                (fun s a => checkAlias_announced s a) []) as H.
  destruct (foldT (checkAlias w remove) [] aliasPaths) as [found t]. simpl in H.
  apply announced_app; [assumption|].
  apply (announced_app [Call (OpList dir)]).
  - intros x [[[=]|[]]|[[=]|[]]].
  - apply announced_flat_map. intros p. apply checkUnaliased_announced.
Qed.

Lemma deleteIfOrphan_announced st vhdPath :
  announced (snd (deleteIfOrphan remove st vhdPath)).
Proof.
  apply (deleteIfOrphan_induction remove (fun _ _ r => announced (snd r))).
  - intros. apply announced_nil.
  - intros st0 v parent _ st1 IH. unfold orphanCheck.
    destruct (deleteIfOrphan remove st1 parent) as [st2 t2]. simpl in IH.
    destruct (JsSet.has parent (p_vhds st2)); simpl; [assumption|].
    apply announced_app; [assumption|].
    destruct remove; simpl.
    + intros x [Hx|Hx]; simpl in Hx.
      * destruct Hx as [[=]|[[=]|[[=]|[]]]].
      * destruct Hx as [[=]|[[=]|[[= <-]|[]]]].
        exists "parent VHD is missing", [("parent", AStr parent); ("child", AStr v)].
        split; [simpl; auto|].
        exists "child", (AStr v). simpl. auto.
    + intros x [[[=]|[]]|[[=]|[]]].
Qed.

Lemma checkMetadata_announced vmDir V X st json :
  announced (snd (checkMetadata w remove vmDir V X st json)).
Proof.
  unfold checkMetadata, incompleteBackup.
  destruct (readMetadata w json) as [md|]; simpl.
  2:{ intros x [[[=]|[]]|[[=]|[]]]. }
  destruct (mode md); simpl; [| |apply announced_nil].
  - destruct (JsSet.has _ X); simpl; [apply announced_nil|].
    destruct remove; simpl.
    + intros x [Hx|Hx]; simpl in Hx.
      * destruct Hx as [[=]|[[=]|[[= <-]|[]]]].
        exists "deleting incomplete backup", [("path", AStr json)].
        split; [simpl; auto|]. exists "path", (AStr json). simpl. auto.
      * destruct Hx as [[=]|[[=]|[[=]|[]]]].
    + intros x [[[=]|[]]|[[=]|[]]].
  - destruct (filter _ _); simpl; [apply announced_nil|].
    destruct remove; simpl.
    + intros x [Hx|Hx]; simpl in Hx.
      * destruct Hx as [[=]|[[=]|[[= <-]|[]]]].
        exists "deleting incomplete backup", [("path", AStr json)].
        split; [simpl; auto|]. exists "path", (AStr json). simpl. auto.
      * destruct Hx as [[=]|[[=]|[[=]|[]]]].
    + intros x [[[=]|[]]|[[=]|[]]].
Qed.

Lemma unusedVhd_announced vhd : announced (unusedVhd remove vhd).
Proof.
  unfold unusedVhd. destruct remove; simpl.
  - intros x [Hx|Hx]; simpl in Hx.
    + destruct Hx as [[=]|[[=]|[[=]|[]]]].
    + destruct Hx as [[=]|[[=]|[[= <-]|[]]]].
      exists "unused VHD", [("path", AStr vhd)]. split; [simpl; auto|].
      exists "path", (AStr vhd). simpl. auto.
  - intros x [[[=]|[]]|[[=]|[]]].
Qed.

Lemma getUsedChildChainOrDelete_announced fuel U ch : forall st vhd r st' t,
  getUsedChildChainOrDelete fuel remove U ch st vhd = Some (r, st', t) ->
  announced t.
Proof.
  induction fuel as [|fuel IH]; intros st vhd r st' t; simpl; [discriminate|].
  destruct (JsMap.get vhd (vhdChainsToMerge st)).
  - intros [= <- <- <-]. apply announced_nil.
  - destruct (negb (JsSet.has vhd U)).
    + intros [= <- <- <-]. apply announced_nil.
    + destruct (JsMap.get vhd ch) as [child|].
      * destruct (getUsedChildChainOrDelete fuel remove U ch _ child)
          as [[[[c'|] st2] t2]|] eqn:Erec; [| |discriminate];
          intros [= <- <- <-]; apply IH in Erec; [assumption|].
        apply announced_app; [assumption | apply unusedVhd_announced].
      * intros [= <- <- <-]. apply unusedVhd_announced.
Qed.

Lemma forEachToCheck_announced fuel U ch l : forall st,
  announced (snd (forEachToCheck fuel remove U ch st l)).
Proof.
  induction l as [|vhd l IH]; intros st; simpl; [apply announced_nil|].
  destruct (JsSet.has vhd (toCheck st)); [|apply IH].
  destruct (getUsedChildChainOrDelete fuel remove U ch st vhd)
    as [[[r st1] t1]|] eqn:Erec; [|apply announced_nil].
  specialize (IH (mkChains (JsMap.set vhd r (vhdChainsToMerge st1)) (toCheck st1))).
  destruct (forEachToCheck fuel remove U ch _ l) as [r2 t2]. simpl in *.
  apply announced_app; [|assumption].
  eapply getUsedChildChainOrDelete_announced. eassumption.
Qed.

Lemma unusedXva_announced p : announced (unusedXva remove p).
Proof.
  unfold unusedXva. destruct remove; simpl.
  - intros x [Hx|Hx]; simpl in Hx.
    + destruct Hx as [[=]|[[=]|[[= <-]|[]]]].
      exists "unused XVA", [("path", AStr p)]. split; [simpl; auto|].
      exists "path", (AStr p). simpl. auto.
    + destruct Hx as [[=]|[[=]|[[=]|[]]]].
  - intros x [[[=]|[]]|[[=]|[]]].
Qed.

Lemma unusedXvaSum_announced xvas p : announced (unusedXvaSum remove xvas p).
Proof.
  unfold unusedXvaSum. destruct (JsSet.has _ xvas); [apply announced_nil|].
  destruct remove; simpl.
  - intros x [Hx|Hx]; simpl in Hx.
    + destruct Hx as [[=]|[[=]|[[= <-]|[]]]].
      exists "unused XVA checksum", [("path", AStr p)]. split; [simpl; auto|].
      exists "path", (AStr p). simpl. auto.
    + destruct Hx as [[=]|[[=]|[[=]|[]]]].
  - intros x [[[=]|[]]|[[=]|[]]].
Qed.

End Announcements.

Lemma keeps_files_announced t :
  (forall p, ~ In (Call (OpUnlink p)) t) -> (forall p, ~ In (Call (OpVhdUnlink p)) t) ->
  announced t.
Proof. intros H1 H2 p [H|H]; [now apply H1 in H | now apply H2 in H]. Qed.

(** X22.  No file is deleted in silence: for every call of [handler.unlink] or
    [VhdAbstract.unlink] of a run there is, in the same run, a warning or an
    information whose arguments name the file. *)
Theorem every_deletion_is_logged (w : World) (fuel : nat) (opts : Options)
        (vmDir : path) :
  announced (snd (cleanVm w fuel opts vmDir)).
Proof.
  unfold cleanVm. cbn [snd].
  pose proof (runCleanVm_stages w fuel opts vmDir) as H. cbv zeta in H.
  destruct H as (_ & _ & _ & _ & _ & _ & H).
  set (r := runCleanVm w fuel opts vmDir) in *.
  assert (Hquiet : forall t, gated false t -> announced t).
  { intros t Ht. apply announced_quiet. now apply (quiet_deletes false false). }
  assert (Hchains : announced
            (snd (chainsToMerge fuel (remove opts) (unusedVhds (run_refs r))
                                (vhdChildren (run_graph r)) (run_interruptedVhds r)))).
  { unfold chainsToMerge, chainsByAncestor, usageChains.
    pose proof (forEachToCheck_announced (remove opts) fuel (unusedVhds (run_refs r))
                  (vhdChildren (run_graph r)) (unusedVhds (run_refs r))
                  (mkChains [] (unusedVhds (run_refs r)))) as Hc.
    destruct (forEachToCheck fuel (remove opts) _ _ _ _) as [[st|] t]; exact Hc. }
  assert (Hbefore : announced
     (snd (listVhds w vmDir)
      ++ snd (checkVhds w (remove opts) (l_interruptedVhds (run_listing r))
                        (l_vhds (run_listing r)))
      ++ snd (checkMergeStates (remove opts) (vhds (run_graph r))
                               (l_interruptedVhds (run_listing r)))
      ++ checkAllAliases w (remove opts) (l_aliases (run_listing r))
      ++ snd (pruneOrphans (remove opts) (vhds (run_graph r)) (vhdParents (run_graph r)))
      ++ (Call (OpList vmDir)
          :: map (fun p => Call (OpIsValidXva p))
                 (e_xvas (fold_left (classify w) (handler_list_prepend w vmDir)
                                    (mkEntries [] [] [])))
          ++ flat_map (checkXva w)
                      (e_xvas (fold_left (classify w) (handler_list_prepend w vmDir)
                                         (mkEntries [] [] []))))
      ++ snd (checkMetadatas w (remove opts) vmDir (run_vhds r)
                (fold_left (classify w) (handler_list_prepend w vmDir)
                           (mkEntries [] [] []))))).
  { apply announced_app; [apply Hquiet, listVhds_gated|].
    apply announced_app.
    { rewrite checkVhds_fold. cbn [snd]. apply announced_app.
      - apply keeps_files_announced; intros p Hp; apply in_map_iff in Hp;
          destruct Hp as (x & [=] & _).
      - apply announced_foldT. intros g a. apply checkVhd_announced. }
    apply announced_app.
    { apply announced_foldT. intros m k. apply checkMergeState_announced. }
    apply announced_app.
    { apply announced_flat_map. intros dir. apply checkAliases_announced. }
    apply announced_app.
    { apply announced_foldT. intros st a. unfold pruneStep.
      destruct (JsMap.has a (p_vhdParents st));
        [apply deleteIfOrphan_announced | apply announced_nil]. }
    apply announced_app.
    { apply keeps_files_announced; intros p [[=]|Hp]; apply in_app_iff in Hp;
        destruct Hp as [Hp|Hp];
        try (apply in_map_iff in Hp; destruct Hp as (x & [=] & _));
        apply in_flat_map in Hp; destruct Hp as (x & _ & Hp); unfold checkXva in Hp;
        destruct (isValidXva w x); try contradiction; destruct Hp as [[=]|[]]. }
    unfold checkMetadatas.
    pose proof (announced_foldT
                  (checkMetadata w (remove opts) vmDir (run_vhds r)
                     (e_xvas (fold_left (classify w) (handler_list_prepend w vmDir)
                                        (mkEntries [] [] []))))
                  (asyncOrder (completion w)
                     (e_jsons (fold_left (classify w) (handler_list_prepend w vmDir)
                                         (mkEntries [] [] []))))
                  (fun s a => checkMetadata_announced w (remove opts) vmDir _ _ s a)) as Hm.
    match goal with
    | |- context [foldT ?f ?s ?l] => specialize (Hm s); destruct (foldT f s l) as [st t]
    end.
    simpl in *. apply announced_app; [|assumption].
    apply keeps_files_announced; intros p Hp; apply in_map_iff in Hp;
      destruct Hp as (x & [=] & _). }
  destruct (run_toMerge r) as [toMerge|].
  - destruct H as (_ & -> & _).
    apply announced_app; [assumption|].
    apply announced_app; [assumption|].
    apply announced_app.
    { apply keeps_files_announced; intros p Hp; apply doMerge_calls in Hp;
        destruct Hp as (_ & a & b & _ & _ & [=]). }
    apply announced_app.
    { apply announced_app; apply announced_flat_map; intros p;
        [apply unusedXva_announced | apply unusedXvaSum_announced]. }
    apply keeps_files_announced.
    + intros p Hp.
      pose proof (checkSizes_allowed w (mkOptions (fixMetadata opts) false true) vmDir
                    (metadataWithMergedVhd (run_merging r)) (jsons (run_refs r))
                    (fun _ _ => eq_refl)) as Ha.
      rewrite Forall_forall in Ha. simpl in Ha.
      specialize (Ha _ Hp). discriminate.
    + intros p. apply keeps_vhds_not_In, checkSizes_keeps_vhds.
  - destruct H as (-> & _). now apply announced_app.
Qed.

(** * The properties on the example repositories *)

Lemma audit_run_is_read_only_example :
  read_only (snd (cleanVm forked_repository 10 (mkOptions false false false) "/vm")).
Proof.
  apply (audit_run_is_read_only forked_repository 10 "/vm").
Defined.

(** In [cyclic_repository] the parent of [B.vhd], [C.vhd], has left the
    active set, [A.vhd] is a child of [B.vhd], and the walk, which starts at
    [B.vhd], takes [B.vhd] out of the active set and leaves [A.vhd] in it. *)
Lemma descendant_of_orphan_kept_on_cycle :
  let r := runCleanVm cyclic_repository 10 (mkOptions false true false) "/vm" in
  JsMap.get (vdi "B.vhd") (vhdParents (run_graph r)) = Some (vdi "C.vhd")
  /\ ~ In (vdi "C.vhd") (vhds (run_graph r))
  /\ JsMap.get (vdi "A.vhd") (vhdParents (run_graph r)) = Some (vdi "B.vhd")
  /\ run_vhds r = p_vhds (fst (pruneOrphans true (vhds (run_graph r))
                                            (vhdParents (run_graph r))))
  /\ ~ In (vdi "B.vhd") (run_vhds r)
  /\ In (vdi "A.vhd") (run_vhds r)
  /\ ~ In (Call (OpVhdUnlink (vdi "A.vhd"))) (run_trace r).
Proof.
  vm_compute. repeat split; try reflexivity; try (now left);
    intros H; repeat (destruct H as [H | H]; [discriminate|]); exact H.
Qed.

Lemma chain_parents_acyclic :
  Acyclic [("/d/b.vhd", "/d/a.vhd"); ("/d/c.vhd", "/d/b.vhd")].
Proof.
  assert (Hrank : forall a v,
             Ancestor [("/d/b.vhd", "/d/a.vhd"); ("/d/c.vhd", "/d/b.vhd")] a v ->
             lookup 0 [("/d/b.vhd", 1); ("/d/c.vhd", 2)] a
             < lookup 0 [("/d/b.vhd", 1); ("/d/c.vhd", 2)] v).
  { assert (Hstep : forall v q,
               JsMap.get v [("/d/b.vhd", "/d/a.vhd"); ("/d/c.vhd", "/d/b.vhd")] = Some q ->
               lookup 0 [("/d/b.vhd", 1); ("/d/c.vhd", 2)] q
               < lookup 0 [("/d/b.vhd", 1); ("/d/c.vhd", 2)] v).
    { intros v q. simpl.
      destruct (String.eqb v "/d/b.vhd") eqn:E1.
      - apply String.eqb_eq in E1. subst v. intros [= <-]. vm_compute. lia.
      - destruct (String.eqb v "/d/c.vhd") eqn:E2; [|discriminate].
        apply String.eqb_eq in E2. subst v. intros [= <-]. vm_compute. lia. }
    induction 1 as [v a Hv | v q a Hv Ha IH].
    - now apply Hstep.
    - apply Hstep in Hv. lia. }
  intros v Hv. apply Hrank in Hv. lia.
Defined.

Lemma orphans_pruned_example :
  ~ In "/d/c.vhd"
       (p_vhds (fst (pruneOrphans true ["/d/b.vhd"; "/d/c.vhd"]
                       [("/d/b.vhd", "/d/a.vhd"); ("/d/c.vhd", "/d/b.vhd")]))).
Proof.
  intros H.
  apply (proj1 (orphans_pruned_when_acyclic true ["/d/b.vhd"; "/d/c.vhd"]
                  [("/d/b.vhd", "/d/a.vhd"); ("/d/c.vhd", "/d/b.vhd")]
                  chain_parents_acyclic)) in H.
  apply (proj2 H). exists "/d/a.vhd". split.
  - eapply ancestor_step; [reflexivity|]. constructor. reflexivity.
  - simpl. intros [[=] | [[=] | []]].
Defined.

(** In [merged_repository] the one chain of [toMerge] has as its last
    element [B.vhd], which a record uses and which is not unused. *)
Lemma chain_includes_used_child :
  let r := runCleanVm merged_repository 10 (mkOptions false false false) "/vm" in
  run_toMerge r = Some [[Some (vdi "A.vhd"); Some (vdi "B.vhd")]]
  /\ JsMap.get (vdi "B.vhd") (vhdsToJSons (run_refs r)) = Some "/vm/b.json"
  /\ ~ In (vdi "B.vhd") (unusedVhds (run_refs r)).
Proof.
  vm_compute. repeat split; try reflexivity.
  intros [[=] | []].
Qed.

Lemma unused_chains_example :
  exists st t,
    usageChains 3 true ["/d/a.vhd"; "/d/c.vhd"] [("/d/a.vhd", "/d/b.vhd")] = (Some st, t).
Proof.
  destruct (unused_chains_include_used_child true ["/d/a.vhd"; "/d/c.vhd"]
              [("/d/a.vhd", "/d/b.vhd")] 3) as (st & t & H & _).
  - intros v [<- | [<- | []]]; reflexivity.
  - exists st, t. exact H.
Defined.

Lemma interrupted_chain_example :
  JsMap.get "/d/a.vhd" [("/d/a.vhd", Some [Some "/d/b.vhd"; Some "/d/a.vhd"])]
  = Some (Some [JsMap.get "/d/a.vhd" [("/d/a.vhd", "/d/b.vhd")]; Some "/d/a.vhd"]).
Proof.
  apply (proj1 (interrupted_chain_forced false ["/d/a.vhd"] [("/d/a.vhd", "/d/b.vhd")] 5
                  [("/d/a.vhd", "/d/.a.vhd.merge.json")]
                  [("/d/a.vhd", Some [Some "/d/b.vhd"; Some "/d/a.vhd"])] []
                  "/d/a.vhd" eq_refl (or_introl eq_refl))).
Defined.


Lemma open_failure_example :
  In (Call (OpOpenVhd (vdi "A.vhd") (Some false)))
     (snd (checkVhds merged_repository true
                     [(vdi "A.vhd", slash "/vm/vdis/job/vdi" ".A.vhd.merge.json")]
                     [vdi "A.vhd"; vdi "B.vhd"])).
Proof.
  apply (proj1 (open_failure_handling merged_repository true
                  [(vdi "A.vhd", slash "/vm/vdis/job/vdi" ".A.vhd.merge.json")]
                  [vdi "A.vhd"; vdi "B.vhd"])).
  split; [now left | reflexivity].
Defined.

(** In [forked_repository] the second child of [A.vhd], [C.vhd], leaves
    the active set, and under [remove] the record that uses it is unlinked. *)
Lemma second_child_dropped_and_its_backup_deleted :
  let r := runCleanVm forked_repository 10 (mkOptions false true false) "/vm" in
  JsMap.get (vdi "B.vhd") (vhdParents (run_graph r)) = Some (vdi "A.vhd")
  /\ JsMap.get (vdi "C.vhd") (vhdParents (run_graph r)) = Some (vdi "A.vhd")
  /\ In (vdi "C.vhd") (l_vhds (run_listing r))
  /\ ~ In (vdi "C.vhd") (vhds (run_graph r))
  /\ In (Call (OpUnlink "/vm/c.json")) (run_trace r).
Proof.
  vm_compute. repeat split; try reflexivity.
  - auto.
  - intros H. repeat (destruct H as [H | H]; [discriminate|]). exact H.
  - do 13 right. now left.
Qed.

Lemma second_child_example :
  ~ In (Call (OpVhdUnlink (vdi "C.vhd")))
       (snd (checkVhds forked_repository true []
                       [vdi "A.vhd"; vdi "B.vhd"; vdi "C.vhd"])).
Proof.
  apply (proj1 (second_child_is_dropped forked_repository true []
                  [vdi "A.vhd"; vdi "B.vhd"; vdi "C.vhd"] (vdi "C.vhd")
                  4 "uuid-c" "A.vhd"
                  ltac:(repeat constructor; simpl; intuition discriminate)
                  ltac:(simpl; auto) eq_refl eq_refl)).
Defined.

Lemma orphan_merge_states_example :
  JsMap.get "/d/b.vhd"
    (fst (checkMergeStates true ["/d/a.vhd"]
            [("/d/a.vhd", "/d/.a.vhd.merge.json"); ("/d/b.vhd", "/d/.b.vhd.merge.json")]))
  = None.
Proof.
  apply (proj1 (proj1 (orphan_merge_states_removed true ["/d/a.vhd"]
                         [("/d/a.vhd", "/d/.a.vhd.merge.json");
                          ("/d/b.vhd", "/d/.b.vhd.merge.json")]
                         ltac:(repeat constructor; simpl; intuition discriminate))
                      "/d/b.vhd" "/d/.b.vhd.merge.json" eq_refl
                      ltac:(simpl; intuition discriminate))).
Defined.

Lemma toMerge_chains_example :
  Forall (fun c => 2 <= length c
                   /\ fst (mergeVhdChain merged_repository true true c) <> Rejected)
         [[Some "/d/a.vhd"; Some "/d/b.vhd"]; [None; Some "/d/d.vhd"]].
Proof.
  apply (toMerge_chains_length merged_repository 5 true true
           ["/d/a.vhd"; "/d/c.vhd"] [("/d/a.vhd", "/d/b.vhd")]
           [("/d/d.vhd", "/d/.d.vhd.merge.json")]
           [[Some "/d/a.vhd"; Some "/d/b.vhd"]; [None; Some "/d/d.vhd"]]
           [LogWarn "unused VHD" [("path", AStr "/d/c.vhd")];
            LogInfo "deleting unused VHD" [("path", AStr "/d/c.vhd")];
            Call (OpVhdUnlink "/d/c.vhd")]
           eq_refl).
Defined.

Lemma looped_walk n :
  walk_ends [vdi "A.vhd"; vdi "B.vhd"]
            [(vdi "B.vhd", vdi "A.vhd"); (vdi "A.vhd", vdi "B.vhd")] n (vdi "A.vhd") = false
  /\ walk_ends [vdi "A.vhd"; vdi "B.vhd"]
               [(vdi "B.vhd", vdi "A.vhd"); (vdi "A.vhd", vdi "B.vhd")] n (vdi "B.vhd") = false.
Proof.
  induction n as [|n [IHa IHb]]; [split; reflexivity|].
  split.
  - change (walk_ends [vdi "A.vhd"; vdi "B.vhd"]
              [(vdi "B.vhd", vdi "A.vhd"); (vdi "A.vhd", vdi "B.vhd")] n (vdi "B.vhd") = false).
    exact IHb.
  - change (walk_ends [vdi "A.vhd"; vdi "B.vhd"]
              [(vdi "B.vhd", vdi "A.vhd"); (vdi "A.vhd", vdi "B.vhd")] n (vdi "A.vhd") = false).
    exact IHa.
Defined.

Lemma unused_cycle_overflows_example :
  run_toMerge (runCleanVm looped_repository 10 (mkOptions false true true) "/vm") = None
  /\ fst (cleanVm looped_repository 10 (mkOptions false true true) "/vm") = None.
Proof.
  apply (unused_cycle_overflows looped_repository 10 (mkOptions false true true) "/vm"
                                (vdi "A.vhd")).
  - vm_compute. tauto.
  - intros n.
    change (unusedVhds (run_refs (runCleanVm looped_repository 10
                                             (mkOptions false true true) "/vm")))
      with ([vdi "A.vhd"; vdi "B.vhd"]).
    change (vhdChildren (run_graph (runCleanVm looped_repository 10
                                               (mkOptions false true true) "/vm")))
      with ([(vdi "B.vhd", vdi "A.vhd"); (vdi "A.vhd", vdi "B.vhd")]).
    apply looped_walk.
Defined.

Lemma unknown_mode_size_erased_example :
  In (Call (OpWriteFile "/vm/u.json" None))
     (snd (cleanVm unknown_repository 10 (mkOptions true false false) "/vm")).
Proof.
  apply (unknown_mode_size_erased unknown_repository 10 (mkOptions true false false) "/vm"
           "/vm/u.json" (mkMetadata ModeOther (Some 7%Z) EmptyString []) 7%Z).
  - reflexivity.
  - vm_compute. discriminate.
  - vm_compute. tauto.
  - reflexivity.
  - reflexivity.
  - reflexivity.
Defined.

Lemma merges_follow_the_chains_example :
  filter is_merge (snd (cleanVm merged_repository 10 (mkOptions false true true) "/vm"))
  = [Call (OpMergeVhd (Some (vdi "A.vhd")) [Some (vdi "B.vhd")] true)].
Proof.
  apply (merges_follow_the_chains merged_repository 10 (mkOptions false true true) "/vm"
           [[Some (vdi "A.vhd"); Some (vdi "B.vhd")]]).
  - reflexivity.
  - vm_compute. reflexivity.
Defined.

Lemma interrupted_vhd_is_merged_as_the_child_example :
  In (Call (OpMergeVhd (Some (vdi "B.vhd")) [Some (vdi "A.vhd")] true))
     (snd (cleanVm interrupted_repository 10 (mkOptions false true true) "/vm")).
Proof.
  apply (interrupted_vhd_is_merged_as_the_child interrupted_repository 10
           (mkOptions false true true) "/vm" (vdi "A.vhd")).
  - reflexivity.
  - vm_compute. discriminate.
  - vm_compute. tauto.
Defined.


Lemma checksum_of_listed_xva_kept_example :
  ~ In (Call (OpUnlink ("/vm/a.xva" ++ ".checksum")%string))
       (flat_map (unusedXvaSum true ["/vm/a.xva"])
                 ["/vm/a.xva.checksum"; "/vm/b.xva.checksum"]).
Proof.
  apply (checksum_of_listed_xva_kept true ["/vm/a.xva"]
           ["/vm/a.xva.checksum"; "/vm/b.xva.checksum"] "/vm/a.xva").
  simpl. auto.
Defined.

Lemma tree_renders_every_item_example :
  map (node_ids)
      (tv_children
         (mkTreeView ["idA"] true None
                     (map (renderItem (fun n => negb (Nat.eqb n 0)))
                          sample_collection)))
  = map (item_ids) sample_collection
  /\ map (element_key)
         (tv_children
            (mkTreeView ["idA"] true None
                        (map (renderItem (fun n => negb (Nat.eqb n 0)))
                             sample_collection)))
     = map (item_id) sample_collection
  /\ defaultExpanded
       (mkTreeView ["idA"] true None
                   (map (renderItem (fun n => negb (Nat.eqb n 0)))
                        sample_collection))
     = map (item_id) (firstn 1 sample_collection)
  /\ selected
       (mkTreeView ["idA"] true None
                   (map (renderItem (fun n => negb (Nat.eqb n 0)))
                        sample_collection))
     = None.
Proof.
  apply (proj2 (tree_renders_every_item nat nat (fun n => negb (Nat.eqb n 0))
                  sample_collection None)).
  reflexivity.
Defined.

Lemma merged_parents_acyclic : Acyclic [(vdi "B.vhd", vdi "A.vhd")].
Proof.
  assert (Hstep : forall v q, JsMap.get v [(vdi "B.vhd", vdi "A.vhd")] = Some q ->
                              v = vdi "B.vhd" /\ q = vdi "A.vhd").
  { intros v q. simpl. destruct (String.eqb v (vdi "B.vhd")) eqn:E; [|discriminate].
    apply String.eqb_eq in E. intros [= <-]. auto. }
  assert (Htop : forall a v, Ancestor [(vdi "B.vhd", vdi "A.vhd")] a v ->
                             a = vdi "A.vhd").
  { induction 1 as [v a Hv | v q a Hv Ha IH]; [|assumption].
    now apply Hstep in Hv. }
  assert (Hbottom : forall a v, Ancestor [(vdi "B.vhd", vdi "A.vhd")] a v ->
                                v = vdi "B.vhd").
  { intros a v H. destruct H as [v a Hv | v q a Hv Ha]; now apply Hstep in Hv. }
  intros v Hv. pose proof (Htop _ _ Hv) as H1. pose proof (Hbottom _ _ Hv) as H2.
  rewrite H1 in H2. discriminate.
Defined.

Lemma cleanVm_returns_when_acyclic_example :
  exists toMerge,
    run_toMerge (runCleanVm merged_repository 10 (mkOptions false true true) "/vm")
    = Some toMerge
    /\ fst (cleanVm merged_repository 10 (mkOptions false true true) "/vm")
       = Some (mkSummary (negb (Nat.eqb (length toMerge) 0))).
Proof.
  apply (cleanVm_returns_when_acyclic merged_repository 10 (mkOptions false true true)
                                      "/vm").
  - exact merged_parents_acyclic.
  - vm_compute. lia.
Defined.

Lemma interrupted_merge_marks_the_record_of_the_child_example :
  JsMap.has "/vm/b.json"
    (metadataWithMergedVhd
       (run_merging (runCleanVm interrupted_repository 10 (mkOptions false true true)
                                "/vm")))
  = true.
Proof.
  apply (interrupted_merge_marks_the_record_of_the_child interrupted_repository 10
           (mkOptions false true true) "/vm" (vdi "A.vhd") (vdi "B.vhd") "/vm/b.json"
           150%Z).
  - reflexivity.
  - vm_compute. discriminate.
  - vm_compute. tauto.
  - vm_compute. reflexivity.
  - reflexivity.
  - vm_compute. reflexivity.
Defined.

Lemma healthy_vhd_stays_active_example :
  In (vdi "A.vhd") (vhds (fst (checkVhds merged_repository true []
                                         [vdi "A.vhd"; vdi "B.vhd"])))
  /\ ~ In (Call (OpVhdUnlink (vdi "A.vhd")))
          (snd (checkVhds merged_repository true [] [vdi "A.vhd"; vdi "B.vhd"])).
Proof.
  apply (healthy_vhd_stays_active merged_repository true [] [vdi "A.vhd"; vdi "B.vhd"]
           (vdi "A.vhd") (mkVhd (vdi "A.vhd") 3 "uuid-a" EmptyString)).
  - repeat constructor; simpl; intuition discriminate.
  - now left.
  - reflexivity.
  - intros q parent _ _ _. discriminate.
  - intros q vq [<-|[<-|[]]] Hne; [contradiction|].
    intros [= <-]. discriminate.
Defined.
